(** * core4: executor process, coco command line, API container

    A shallow embedding of parts of core4 and the properties the
    specification states about them:

    - [Process]: [CoreWorkerProcess.start] of [core4/queue/process.py],
      with the claim algorithm of the specification beside it;
    - [ProcessEntry]: the function [start] of the same module;
    - [Coco]: the commands of [core4/script/coco.py];
    - [Application]: [CoreApiContainer] and [CoreApplication] of
      [core4/api/v1/application.py];
    - [Base]: [CoreBase.qual_name] of [core4/base/main.py].

    Code outside the repository's sources is a parameter; where the
    embedded code calls it inside a [try] statement, or where a class
    may lack a method, the call may raise.

    Python text is modelled by [string]; the character classes of [re] and
    [str] are given on the ASCII range. *)

From stdpp Require Import base option list strings gmap.
From Stdlib Require Import ZArith Ascii String Lia.

Local Open Scope string_scope.
Local Open Scope list_scope.
Local Open Scope Z_scope.

(** ** Exceptions and outcomes *)

(** The exceptions the embedded code raises or tells apart.  Everything the
    code does not tell apart is an [OtherError] carrying its class name. *)
Inductive exn : Type :=
  | CoreJobDeferred
  | Core4SetupError (msg : string)
  | JSONDecodeError (msg : string)
  | SystemExit (code : option (Z + string))
  | OtherError (cls : string).

(** What a Python call does: it returns a value or it raises. *)
Inductive outcome (A : Type) : Type :=
  | Returns (a : A)
  | Raises (e : exn).
Arguments Returns {A} a.
Arguments Raises {A} e.

(** ** State and exceptions

    Code that changes state and may raise: from a state to an outcome and
    the state left behind, which an exception does not undo. *)
Definition SE (S A : Type) : Type := S -> outcome A * S.

#[global] Instance SE_ret {S} : MRet (SE S) := fun A a s => (Returns a, s).

#[global] Instance SE_bind {S} : MBind (SE S) := fun A B k m s =>
  match m s with
  | (Returns a, s') => k a s'
  | (Raises e, s') => (Raises e, s')
  end.

Definition raise {S A} (e : exn) : SE S A := fun s => (Raises e, s).

(** [try: body / except: handler]: the handler sees the exception that
    left [body] and the state [body] left behind. *)
Definition try_except {S A} (body : SE S A) (handler : exn -> SE S A)
  : SE S A :=
  fun s => match body s with
           | (Returns a, s') => (Returns a, s')
           | (Raises e, s') => handler e s'
           end.

(** [try: body / finally: final]: [final] runs on every way out of [body];
    what [body] did (its value or its exception) stands unless [final]
    raises itself. *)
Definition try_finally {S A} (body : SE S A) (final : SE S unit) : SE S A :=
  fun s => match body s with
           | (r, s') =>
               match final s' with
               | (Returns _, s'') => (r, s'')
               | (Raises e, s'') => (Raises e, s'')
               end
           end.

(** ** The executor: [core4/queue/process.py] *)
Module Process.

Section Executor.

(** [bson.objectid.ObjectId] is outside the repository: the type of ids
    and the constructor from text are parameters. *)
Variable oid : Type.
Variable ObjectId : string -> option oid.

(** The job object as [start] uses it: [job._id], [job.args] and the
    entry [attempts_left] of [job.__dict__]. *)
Record CoreJob : Type := mkJob {
  _id : oid;
  args : list (string * string);
  attempts_left : Z
}.

(** [job.run], called with the keyword arguments [job.args], is user
    code: it returns or raises, and it may leave the job object changed. *)
Definition user_code : Type :=
  CoreJob -> list (string * string) -> outcome unit * CoreJob.

(** [CoreQueue.load_job] is outside [src/]: it yields the job object
    together with the [run] of its class, or raises. *)
Variable load_job : oid -> option (CoreJob * user_code).

(** Calls that leave [start], in the order they are made.  A call that
    receives the job object records the object as it is then. *)
Inductive event : Type :=
  | EvSetupLogging
  | EvCoreQueue
  | EvLoadJob (i : oid)
  | EvDropPrivilege
  | EvRun (job : CoreJob)
  | EvSetComplete (job : CoreJob)
  | EvSetDefer (job : CoreJob)
  | EvSetFailed (job : CoreJob)
  | EvUnlockJob (i : oid)
  | EvRaisePrivilege.

(** [setup_logging] of the logger mixin, the constructor of [CoreQueue]
    and the methods [set_complete], [set_defer], [set_failed] and
    [unlock_job] of the queue are outside [src/], and any of them may
    raise: [raised] gives, for the calls made so far and the call that is
    made, the exception the call ends with, if it ends with one. *)
Variable raised : list event -> event -> option exn.

(** The state [start] works on: the object the local [job] refers to and
    the calls made so far. *)
Record world : Type := mkWorld {
  the_job : CoreJob;
  trace : list event
}.

(** [start] runs in state and exceptions over [world]. *)
Definition M : Type -> Type := SE world.

(** A call that cannot raise. *)
Definition emit (e : event) : M unit :=
  fun w => (Returns tt, mkWorld (the_job w) (trace w ++ [e])).

(** A call outside [src/]: it is recorded, and it returns or raises as
    [raised] has it. *)
Definition call (e : event) : M unit :=
  fun w => (match raised (trace w) e with
            | None => Returns tt
            | Some x => Raises x
            end,
            mkWorld (the_job w) (trace w ++ [e])).

Definition get_job : M CoreJob := fun w => (Returns (the_job w), w).

(** [job.run] with the keyword arguments [job.args]: the call is recorded
    with the object it receives, the object is left as the user code left
    it, and the user code's exception, if any, is raised. *)
Definition job_run (run : user_code) : M unit :=
  fun w => let j := the_job w in
           match run j (args j) with
           | (r, j') => (r, mkWorld j' (trace w ++ [EvRun j]))
           end.

(** [attempts_left] of [job.__dict__] lowered by one, in place. *)
Definition decrement_attempts_left : M unit :=
  fun w => let j := the_job w in
           (Returns tt,
            mkWorld (mkJob (_id j) (args j) (attempts_left j - 1)) (trace w)).

(** The three terminal calls [self.queue.set_complete(job)],
    [self.queue.set_defer(job)] and [self.queue.set_failed(job)], and
    [self.queue.unlock_job]: each is recorded with the job object as it
    is then, and each may raise. *)
Definition set_complete : M unit := j ← get_job; call (EvSetComplete j).
Definition set_defer : M unit := j ← get_job; call (EvSetDefer j).
Definition set_failed : M unit := j ← get_job; call (EvSetFailed j).
Definition unlock_job (i : oid) : M unit := call (EvUnlockJob i).

(** [drop_privilege] and [raise_privilege] have the body [pass]; the
    calls are recorded. *)
Definition drop_privilege : M unit := emit EvDropPrivilege.
Definition raise_privilege : M unit := emit EvRaisePrivilege.

(** [start] from [self.drop_privilege()] on, for the loaded job.  An
    exception of [set_complete] is raised inside the [try] and meets the
    handlers like one of [job.run]; an exception of [set_defer] or
    [set_failed] is raised inside a handler and leaves through
    [finally]. *)
Definition start_loaded (run : user_code) : M unit :=
  drop_privilege;;
  try_finally
    (try_except
       (job_run run;;
        decrement_attempts_left;;
        set_complete)
       (fun e =>
          match e with
          | CoreJobDeferred => set_defer
          | _ => decrement_attempts_left;; set_failed
          end))
    (j ← get_job;
     unlock_job (_id j);;
     raise_privilege).

(** [CoreWorkerProcess.start(job_id)]: the result of the call and the
    calls it made.  [ObjectId(job_id)], [self.setup_logging()],
    [CoreQueue()] and [load_job] come before the [try] statement: an
    exception of one of them ends [start] there. *)
Definition start (job_id : string) : outcome unit * list event :=
  match ObjectId job_id with
  | None => (Raises (OtherError "InvalidId"), [])
  | Some i =>
      match raised [] EvSetupLogging with
      | Some x => (Raises x, [EvSetupLogging])
      | None =>
          match raised [EvSetupLogging] EvCoreQueue with
          | Some x => (Raises x, [EvSetupLogging; EvCoreQueue])
          | None =>
              match load_job i with
              | None =>
                  (Raises (OtherError "load_job"),
                   [EvSetupLogging; EvCoreQueue; EvLoadJob i])
              | Some (job, run) =>
                  match
                    start_loaded run
                      (mkWorld job [EvSetupLogging; EvCoreQueue; EvLoadJob i])
                  with
                  | (r, w) => (r, trace w)
                  end
              end
          end
      end
  end.

(** The terminal calls among the recorded calls. *)
Definition is_terminal_call (e : event) : bool :=
  match e with
  | EvSetComplete _ | EvSetDefer _ | EvSetFailed _ => true
  | _ => false
  end.

Definition terminal_calls (tr : list event) : list event :=
  List.filter is_terminal_call tr.

End Executor.

Arguments mkJob {oid} _ _ _.
Arguments _id {oid} _.
Arguments args {oid} _.
Arguments attempts_left {oid} _.
Arguments EvSetupLogging {oid}.
Arguments EvCoreQueue {oid}.
Arguments EvLoadJob {oid} _.
Arguments EvDropPrivilege {oid}.
Arguments EvRun {oid} _.
Arguments EvSetComplete {oid} _.
Arguments EvSetDefer {oid} _.
Arguments EvSetFailed {oid} _.
Arguments EvUnlockJob {oid} _.
Arguments EvRaisePrivilege {oid}.
Arguments terminal_calls {oid} _.
Arguments is_terminal_call {oid} _.
Arguments start {oid} _ _ _ _.
Arguments user_code : clear implicits.

(** The job object a recorded call received, if it received one. *)
Definition call_job {oid} (e : event oid) : option (CoreJob oid) :=
  match e with
  | EvRun j | EvSetComplete j | EvSetDefer j | EvSetFailed j => Some j
  | _ => None
  end.

(** A job whose [attempts_left] was lowered by one. *)
Definition decremented {oid} (j : CoreJob oid) : CoreJob oid :=
  mkJob (_id j) (args j) (attempts_left j - 1).

(** The terminal call [start] makes first after user code ended with [r]
    and left the job object as [j]. *)
Definition terminal_call_for {oid} (r : outcome unit) (j : CoreJob oid)
  : event oid :=
  match r with
  | Returns _ => EvSetComplete (decremented j)
  | Raises CoreJobDeferred => EvSetDefer j
  | Raises _ => EvSetFailed (decremented j)
  end.

(** No call made once user code is entered sees another [attempts_left]
    than user code was entered with. *)
Definition attempts_fixed_once_running {oid} (tr : list (event oid)) : Prop :=
  forall pre j0 post e j1,
    tr = pre ++ EvRun j0 :: post ->
    e ∈ post -> call_job e = Some j1 ->
    attempts_left j1 = attempts_left j0.

(** A concrete setting: ids are their text, every id loads; a queue that
    never raises, and one whose [set_complete] meets a conflict. *)
Module Demo.
Definition ObjectId (s : string) : option string :=
  if Nat.eqb (String.length s) 24 then Some s else None.

Definition returning : user_code string := fun j _ => (Returns tt, j).
Definition deferring : user_code string :=
  fun j _ => (Raises CoreJobDeferred, j).
Definition failing : user_code string :=
  fun j _ => (Raises (OtherError "RuntimeError"), j).

Definition load_job (run : user_code string) (i : string)
  : option (CoreJob string * user_code string) :=
  Some (mkJob i [("x", "1")] 3, run).

Definition job_id : string := "5be13b56de8b69468b7ff0b2".

Definition quiet (tr : list (event string)) (e : event string)
  : option exn := None.

Definition conflict_on_complete (tr : list (event string)) (e : event string)
  : option exn :=
  match e with
  | EvSetComplete _ => Some (OtherError "Conflict")
  | _ => None
  end.

Definition conflict_on_failed (tr : list (event string)) (e : event string)
  : option exn :=
  match e with
  | EvSetFailed _ => Some (OtherError "Conflict")
  | _ => None
  end.

Definition no_logging (tr : list (event string)) (e : event string)
  : option exn :=
  match e with
  | EvSetupLogging => Some (OtherError "Core4SetupError")
  | _ => None
  end.
End Demo.

Section ExecutorFacts.

Variable oid : Type.
Variable ObjectId : string -> option oid.
Variable load_job : oid -> option (CoreJob oid * user_code oid).
Variable raised : list (event oid) -> event oid -> option exn.

(** [start] gets as far as the [try] statement with [job] and [run]:
    the text is an id, [setup_logging] and [CoreQueue()] return and
    [load_job] yields the job. *)
Definition loads (job_id : string) (i : oid) (job : CoreJob oid)
    (run : user_code oid) : Prop :=
  ObjectId job_id = Some i /\
  raised [] EvSetupLogging = None /\
  raised [EvSetupLogging] EvCoreQueue = None /\
  load_job i = Some (job, run).

Lemma start_of_loaded job_id i job run :
  loads job_id i job run ->
  start ObjectId load_job raised job_id =
    ((start_loaded oid raised run
        (mkWorld oid job [EvSetupLogging; EvCoreQueue; EvLoadJob i])).1,
     trace oid
       (start_loaded oid raised run
          (mkWorld oid job [EvSetupLogging; EvCoreQueue; EvLoadJob i])).2).
Proof.
  intros (Hid & Hlog & Hqueue & Hload). unfold start.
  rewrite Hid, Hlog, Hqueue, Hload.
  destruct (start_loaded _ _ _ _). reflexivity.
Qed.

Definition result_of (x : option exn) : outcome unit :=
  match x with
  | None => Returns tt
  | Some e => Raises e
  end.

(** The [try] statement after user code, written out: the terminal
    calls made once user code has ended with [r] and left the job as
    [j], the calls before being [tr], and how the statement ends before
    [finally]. *)
Definition reported (tr : list (event oid)) (r : outcome unit)
    (j : CoreJob oid) : list (event oid) * outcome unit :=
  match r with
  | Returns _ =>
      let j1 := decremented j in
      match raised tr (EvSetComplete j1) with
      | None => ([EvSetComplete j1], Returns tt)
      | Some CoreJobDeferred =>
          ([EvSetComplete j1; EvSetDefer j1],
           result_of (raised (tr ++ [EvSetComplete j1]) (EvSetDefer j1)))
      | Some _ =>
          ([EvSetComplete j1; EvSetFailed (decremented j1)],
           result_of (raised (tr ++ [EvSetComplete j1])
                        (EvSetFailed (decremented j1))))
      end
  | Raises CoreJobDeferred =>
      ([EvSetDefer j], result_of (raised tr (EvSetDefer j)))
  | Raises _ =>
      ([EvSetFailed (decremented j)],
       result_of (raised tr (EvSetFailed (decremented j))))
  end.

(** The calls of a run, written out. *)
Lemma start_trace job_id i job run :
  loads job_id i job run ->
  let r := fst (run job (args job)) in
  let j := snd (run job (args job)) in
  let tr := [EvSetupLogging; EvCoreQueue; EvLoadJob i; EvDropPrivilege;
             EvRun job] in
  let calls := fst (reported tr r j) in
  start ObjectId load_job raised job_id =
    match raised (tr ++ calls) (EvUnlockJob (_id j)) with
    | None =>
        (snd (reported tr r j),
         tr ++ calls ++ [EvUnlockJob (_id j); EvRaisePrivilege])
    | Some x => (Raises x, tr ++ calls ++ [EvUnlockJob (_id j)])
    end.
Proof.
  intros Hload. rewrite (start_of_loaded _ _ _ _ Hload).
  unfold start_loaded, try_finally, try_except, job_run, set_complete,
    set_defer, set_failed, unlock_job, raise_privilege, drop_privilege,
    decrement_attempts_left, get_job, emit, call, mbind, SE_bind, reported,
    result_of, decremented.
  cbn. destruct (run job (args job)) as [[[]|e] j']; cbn.
  - repeat match goal with
           | |- context [raised ?t ?c] => destruct (raised t c) as [[]|]; cbn
           end; reflexivity.
  - destruct e; cbn;
      repeat match goal with
             | |- context [raised ?t ?c] => destruct (raised t c) as [[]|]; cbn
             end; reflexivity.
Qed.

Lemma reported_last tr r j :
  exists pre t,
    fst (reported tr r j) = pre ++ [t] /\
    is_terminal_call t = true /\
    Forall (fun e => is_terminal_call e = true) pre.
Proof.
  unfold reported. destruct r as [[]|e].
  - destruct (raised tr (EvSetComplete (decremented j))) as [[]|].
    all: first [ exists [], (EvSetComplete (decremented j));
                 repeat split; constructor
               | eexists [EvSetComplete (decremented j)], _;
                 split; [reflexivity|]; split; [reflexivity|];
                 repeat constructor ].
  - destruct e; eexists [], _; (split; [reflexivity|]);
      (split; [reflexivity | constructor]).
Qed.

Lemma reported_first tr r j :
  exists rest, fst (reported tr r j) = terminal_call_for r j :: rest.
Proof.
  unfold reported, terminal_call_for. destruct r as [[]|e].
  - destruct (raised tr (EvSetComplete (decremented j))) as [[]|];
      eexists; reflexivity.
  - destruct e; eexists; reflexivity.
Qed.

Lemma reported_one tr r j :
  (forall tr' j', raised tr' (EvSetComplete j') = None) ->
  fst (reported tr r j) = [terminal_call_for r j].
Proof.
  intros Hcomplete. unfold reported, terminal_call_for.
  destruct r as [[]|e]; [rewrite Hcomplete; reflexivity|].
  destruct e; reflexivity.
Qed.

Lemma terminal_calls_app (a b : list (event oid)) :
  terminal_calls (a ++ b) = terminal_calls a ++ terminal_calls b.
Proof. unfold terminal_calls. apply List.filter_app. Qed.

(** The terminal calls of a run are those of its [try] statement. *)
Lemma start_terminal_calls job_id i job run :
  loads job_id i job run ->
  terminal_calls (snd (start ObjectId load_job raised job_id)) =
    terminal_calls
      (fst (reported
              [EvSetupLogging; EvCoreQueue; EvLoadJob i; EvDropPrivilege;
               EvRun job]
              (fst (run job (args job))) (snd (run job (args job))))).
Proof.
  intros Hload. pose proof (start_trace _ _ _ _ Hload) as Htrace.
  cbv zeta in Htrace. rewrite Htrace.
  match goal with
  | |- context [raised ?t ?c] => destruct (raised t c)
  end; cbn [snd]; rewrite !terminal_calls_app; cbn;
    rewrite app_nil_r; reflexivity.
Qed.

(** C1, as the code has it: when [set_complete] does not raise, a run
    makes exactly one terminal call.  It is [set_complete] when [run]
    returns, [set_defer] when [run] raises [CoreJobDeferred] and
    [set_failed] when [run] raises anything else, and it is applied to
    the job that was run. *)
Theorem start_one_terminal_call job_id i job run :
  loads job_id i job run ->
  (forall tr j, raised tr (EvSetComplete j) = None) ->
  exists j,
    _id j = _id (snd (run job (args job))) /\
    terminal_calls (snd (start ObjectId load_job raised job_id)) =
      [match fst (run job (args job)) with
       | Returns _ => EvSetComplete j
       | Raises CoreJobDeferred => EvSetDefer j
       | Raises _ => EvSetFailed j
       end].
Proof.
  intros Hload Hcomplete. rewrite (start_terminal_calls _ _ _ _ Hload).
  rewrite (reported_one _ _ _ Hcomplete).
  destruct (run job (args job)) as [[[]|e] j']; cbn.
  - exists (decremented j'). split; reflexivity.
  - destruct e; cbn;
      first [ exists j'; split; reflexivity
            | exists (decremented j'); split; reflexivity ].
Qed.

(** C2, as the code has it: when [set_complete] does not raise, the
    terminal call after a normal return and after an error other than
    [CoreJobDeferred] sees [attempts_left] one below what user code
    left; the terminal call after [CoreJobDeferred] sees it unchanged. *)
Theorem start_attempt_accounting job_id i job run :
  loads job_id i job run ->
  (forall tr j, raised tr (EvSetComplete j) = None) ->
  (fun e => attempts_left <$> call_job e) <$>
    terminal_calls (snd (start ObjectId load_job raised job_id)) =
    [Some (match fst (run job (args job)) with
           | Raises CoreJobDeferred =>
               attempts_left (snd (run job (args job)))
           | _ => attempts_left (snd (run job (args job))) - 1
           end)].
Proof.
  intros Hload Hcomplete. rewrite (start_terminal_calls _ _ _ _ Hload).
  rewrite (reported_one _ _ _ Hcomplete).
  destruct (run job (args job)) as [[[]|e] j']; cbn; [reflexivity|].
  destruct e; reflexivity.
Qed.

(** C4: whatever user code did, and whether the terminal call returned
    or raised, a run whose [unlock_job] returns ends with the terminal
    call, then [unlock_job] on the job's id, then [raise_privilege];
    nothing is unlocked and no privilege is restored before that. *)
Theorem start_unlocks_and_restores job_id i job run :
  loads job_id i job run ->
  (forall tr, raised tr (EvUnlockJob (_id (snd (run job (args job))))) = None) ->
  exists pre t,
    snd (start ObjectId load_job raised job_id) =
      pre ++ [t; EvUnlockJob (_id (snd (run job (args job))));
              EvRaisePrivilege] /\
    is_terminal_call t = true /\
    Forall (fun e => forall k, e <> EvUnlockJob k) pre /\
    Forall (fun e => e <> EvRaisePrivilege) pre.
Proof.
  intros Hload Hunlock. pose proof (start_trace _ _ _ _ Hload) as Htrace.
  cbv zeta in Htrace. rewrite Htrace, Hunlock. cbn [snd].
  destruct (reported_last
              [EvSetupLogging; EvCoreQueue; EvLoadJob i; EvDropPrivilege;
               EvRun job]
              (fst (run job (args job))) (snd (run job (args job))))
    as (pre & t & -> & Ht & Hpre).
  exists ([EvSetupLogging; EvCoreQueue; EvLoadJob i; EvDropPrivilege;
           EvRun job] ++ pre), t.
  split; [rewrite <- !app_assoc; reflexivity|]. split; [exact Ht|].
  split; apply Forall_app; split;
    try (repeat constructor; congruence);
    (eapply Forall_impl; [exact Hpre|]);
    intros [] He; try discriminate; congruence.
Qed.

(** X1: once the job is loaded, no exception of [job.run] and none of
    [set_complete] leaves [start]: when [set_defer], [set_failed] and
    [unlock_job] return, [start] returns; and an exception that leaves
    [start] is one that [set_defer], [set_failed] or [unlock_job] ended
    with. *)
Theorem start_returns_once_loaded job_id i job run :
  loads job_id i job run ->
  ((forall tr j, raised tr (EvSetDefer j) = None) ->
   (forall tr j, raised tr (EvSetFailed j) = None) ->
   (forall tr k, raised tr (EvUnlockJob k) = None) ->
   (start ObjectId load_job raised job_id).1 = Returns tt) /\
  (forall x, (start ObjectId load_job raised job_id).1 = Raises x ->
     exists tr c,
       raised tr c = Some x /\
       ((exists j, c = EvSetDefer j) \/ (exists j, c = EvSetFailed j) \/
        (exists k, c = EvUnlockJob k))).
Proof.
  intros Hload. pose proof (start_trace _ _ _ _ Hload) as Htrace.
  cbv zeta in Htrace. rewrite Htrace. clear Htrace. split.
  - intros Hdefer Hfailed Hunlock. rewrite Hunlock. cbn [fst].
    unfold reported. destruct (run job (args job)) as [[[]|e] j']; cbn [fst snd].
    + destruct (raised _ (EvSetComplete (decremented j'))) as [[]|];
        cbn [snd]; rewrite ?Hdefer, ?Hfailed; reflexivity.
    + destruct e; cbn [snd]; rewrite ?Hdefer, ?Hfailed; reflexivity.
  - intros x.
    match goal with
    | |- context [raised ?t (EvUnlockJob ?k)] =>
        destruct (raised t (EvUnlockJob k)) as [y|] eqn:Hunlock
    end; cbn [fst].
    { intros [= <-]. eauto 8. }
    unfold reported. destruct (run job (args job)) as [[[]|e] j']; cbn [fst snd].
    + destruct (raised _ (EvSetComplete (decremented j'))) as [[]|];
        cbn [snd]; try discriminate;
        match goal with
        | |- result_of (raised ?t ?c) = _ -> _ =>
            destruct (raised t c) as [y|] eqn:Hcall; cbn; [|discriminate];
            intros [= <-]; eauto 8
        end.
    + destruct e; cbn [snd];
        match goal with
        | |- result_of (raised ?t ?c) = _ -> _ =>
            destruct (raised t c) as [y|] eqn:Hcall; cbn; [|discriminate];
            intros [= <-]; eauto 8
        end.
Qed.

(** X2: when the job is not loaded, because the text is no id or
    because [setup_logging], [CoreQueue()] or [load_job] raises, [start]
    raises before the [try] statement: it has called nothing but
    [setup_logging], [CoreQueue()] and [load_job], so privilege is not
    dropped, user code is not run, no terminal call is made and nothing
    is unlocked. *)
Theorem start_fails_before_try job_id :
  (forall i job run, ~ loads job_id i job run) ->
  (exists e, (start ObjectId load_job raised job_id).1 = Raises e) /\
  Forall (fun ev => ev = EvSetupLogging \/ ev = EvCoreQueue \/
                    exists i, ev = EvLoadJob i)
    (start ObjectId load_job raised job_id).2.
Proof.
  intros Hnot. unfold start.
  destruct (ObjectId job_id) as [i|] eqn:Hid;
    [|split; [eexists; reflexivity | constructor]].
  destruct (raised [] EvSetupLogging) as [x|] eqn:Hlog.
  { split; [eexists; reflexivity|].
    repeat first [apply Forall_nil_2 | apply Forall_cons_2]; eauto. }
  destruct (raised [EvSetupLogging] EvCoreQueue) as [x|] eqn:Hqueue.
  { split; [eexists; reflexivity|].
    repeat first [apply Forall_nil_2 | apply Forall_cons_2]; eauto. }
  destruct (load_job i) as [[job run]|] eqn:Hjob.
  - exfalso. apply (Hnot i job run). unfold loads.
    repeat split; assumption.
  - split; [eexists; reflexivity|].
    repeat first [apply Forall_nil_2 | apply Forall_cons_2]; eauto.
Qed.

(** What the executor does to [attempts_left]: user code is entered
    with the job as [load_job] returned it, and the call made next sees
    [attempts_left] one below what user code left, after user code
    returned or raised an error other than [CoreJobDeferred], and as user
    code left it after [CoreJobDeferred]. *)
Lemma start_decrements_after_user_code job_id i job run :
  loads job_id i job run ->
  exists t rest,
    snd (start ObjectId load_job raised job_id) =
      [EvSetupLogging; EvCoreQueue; EvLoadJob i; EvDropPrivilege;
       EvRun job; t] ++ rest /\
    exists j, call_job t = Some j /\
      attempts_left j =
        attempts_left (snd (run job (args job)))
        - (match fst (run job (args job)) with
           | Raises CoreJobDeferred => 0
           | _ => 1
           end).
Proof.
  intros Hload. pose proof (start_trace _ _ _ _ Hload) as Htrace.
  cbv zeta in Htrace. rewrite Htrace. clear Htrace.
  destruct (reported_first
              [EvSetupLogging; EvCoreQueue; EvLoadJob i; EvDropPrivilege;
               EvRun job]
              (fst (run job (args job))) (snd (run job (args job))))
    as (rest & ->).
  exists (terminal_call_for (fst (run job (args job)))
            (snd (run job (args job)))).
  match goal with
  | |- context [raised ?t ?c] => destruct (raised t c)
  end; cbn [snd]; eexists; (split; [reflexivity|]);
    destruct (run job (args job)) as [[[]|err] j']; cbn;
    try (destruct err; cbn); eexists; (split; [reflexivity|]); cbn; lia.
Qed.

End ExecutorFacts.

(** ** The claim algorithm

    The worker daemon, which claims a job before it starts the executor
    on it, is not under [src/]. *)
Section ClaimAlgorithm.

Context {oid : Type} `{EqDecision oid}.

(** Modelled from the spec: the states of a job record (section 3), of
    which the worker's code would hold the constants. *)
Inductive job_state : Type :=
  | PENDING | RUNNING | DEFERRED | FAILED
  | ERROR | INACTIVE | COMPLETE | KILLED.

(** Modelled from the spec: the attributes of a job record (section 3)
    that the claim algorithm reads or writes; times are numbers, a lock
    is a worker and a heartbeat. *)
Record job_record : Type := mkRecord {
  rec_id : oid;
  rec_state : job_state;
  rec_priority : Z;
  rec_enqueued_at : Z;
  rec_query_at : Z;
  rec_started_at : option Z;
  rec_locked : option (string * Z);
  rec_attempts_left : Z
}.

(** Modelled from the spec: the collection of jobs and the collection
    of locks, one lock record per locked job id (section 4.1). *)
Record collections : Type := mkCollections {
  queue : list job_record;
  lock : list (oid * string)
}.

(** Modelled from the spec: the maintenance flags gate which records
    may be claimed (section 3); which record is gated is a parameter. *)
Variable in_maintenance : job_record -> bool.

(** Modelled from the spec: [lock_job] is an atomic test-and-set that
    succeeds only if there is no lock for the id (section 4.1). *)
Definition lock_job (i : oid) (worker : string) (st : collections)
  : bool * collections :=
  if bool_decide (i ∈ (fst <$> lock st)) then (false, st)
  else (true, mkCollections (queue st) (lock st ++ [(i, worker)])).

(** Modelled from the spec: the query of the claim algorithm, state
    among PENDING, DEFERRED and FAILED, [query_at] not after now, no
    lock, not in maintenance (section 4.1). *)
Definition claimable (now : Z) (r : job_record) : bool :=
  match rec_state r with
  | PENDING | DEFERRED | FAILED => true
  | _ => false
  end
  && (rec_query_at r <=? now)
  && match rec_locked r with None => true | Some _ => false end
  && negb (in_maintenance r).

(** Modelled from the spec: the order of the candidates, priority
    ascending, then time of enqueueing ascending (section 4.1). *)
Definition comes_first (a b : job_record) : bool :=
  (rec_priority a <? rec_priority b)
  || ((rec_priority a =? rec_priority b)
      && (rec_enqueued_at a <=? rec_enqueued_at b)).

(** Modelled from the spec: a record put in its place among ordered
    candidates. *)
Fixpoint insert_candidate (r : job_record) (l : list job_record)
  : list job_record :=
  match l with
  | [] => [r]
  | x :: l' =>
      if comes_first r x then r :: x :: l' else x :: insert_candidate r l'
  end.

(** Modelled from the spec: the result of the query, in order. *)
Definition candidates (now : Z) (st : collections) : list job_record :=
  foldr insert_candidate [] (filter (fun r => claimable now r = true) (queue st)).

(** Modelled from the spec: the update on a successful lock, state
    RUNNING, [started_at] now, [locked] the worker with a heartbeat,
    [attempts_left] lowered by one (section 4.1). *)
Definition to_running (worker : string) (now : Z) (r : job_record)
  : job_record :=
  mkRecord (rec_id r) RUNNING (rec_priority r) (rec_enqueued_at r)
    (rec_query_at r) (Some now) (Some (worker, now))
    (rec_attempts_left r - 1).

(** Modelled from the spec: the update applied to the job with the
    claimed id. *)
Definition set_running (i : oid) (worker : string) (now : Z)
    (st : collections) : collections :=
  mkCollections
    ((fun r => if bool_decide (rec_id r = i) then to_running worker now r
               else r) <$> queue st)
    (lock st).

(** Modelled from the spec: the claim algorithm (section 4.1).  The
    candidates are tried in order; the first whose [lock_job] succeeds
    is moved to RUNNING, and a candidate whose [lock_job] fails is left
    as it is. *)
Fixpoint claim_among (cands : list job_record) (worker : string) (now : Z)
    (st : collections) : option oid * collections :=
  match cands with
  | [] => (None, st)
  | c :: rest =>
      match lock_job (rec_id c) worker st with
      | (true, st') => (Some (rec_id c), set_running (rec_id c) worker now st')
      | (false, st') => claim_among rest worker now st'
      end
  end.

(** Modelled from the spec: the claim algorithm on the candidates of
    the query. *)
Definition claim (worker : string) (now : Z) (st : collections)
  : option oid * collections :=
  claim_among (candidates now st) worker now st.

Lemma insert_candidate_elem r l x :
  x ∈ insert_candidate r l -> x = r \/ x ∈ l.
Proof.
  induction l as [|y l IH]; cbn.
  - intros Hx. apply list_elem_of_singleton in Hx. auto.
  - destruct (comes_first r y).
    + intros Hx. apply elem_of_cons in Hx as [->|Hx]; auto.
    + intros Hx. apply elem_of_cons in Hx as [->|Hx].
      * right. left.
      * destruct (IH Hx) as [->|Hl]; [auto|]. right. right. exact Hl.
Qed.

Lemma candidates_claimable now st x :
  x ∈ candidates now st -> x ∈ queue st /\ claimable now x = true.
Proof.
  unfold candidates.
  assert (Hsort : forall l, x ∈ foldr insert_candidate [] l -> x ∈ l).
  { induction l as [|y l IH]; cbn; [auto|].
    intros Hx. apply insert_candidate_elem in Hx as [->|Hx]; [left|].
    right. auto. }
  intros Hx. apply Hsort in Hx. apply list_elem_of_filter in Hx.
  destruct Hx; auto.
Qed.

(** What the claim algorithm does to the jobs: nothing when it claims
    none; else the claimed id is that of a candidate that had no lock,
    its records are RUNNING with [attempts_left] one lower, and every
    other record is as it was. *)
Lemma claim_among_decrements cands worker now : forall st res st',
  claim_among cands worker now st = (res, st') ->
  match res with
  | None => queue st' = queue st
  | Some i =>
      (exists c, c ∈ cands /\ rec_id c = i) /\
      (i ∉ (fst <$> lock st)) /\
      Forall2 (fun r r' =>
                 if bool_decide (rec_id r = i)
                 then rec_state r' = RUNNING /\
                      rec_attempts_left r' = rec_attempts_left r - 1
                 else r' = r)
        (queue st) (queue st')
  end.
Proof.
  induction cands as [|c rest IH]; intros st res st'; cbn.
  - intros [= <- <-]. reflexivity.
  - unfold lock_job.
    destruct (bool_decide (rec_id c ∈ (fst <$> lock st))) eqn:Hlock.
    + intros Hrun. specialize (IH _ _ _ Hrun). destruct res as [i|]; [|exact IH].
      destruct IH as ((c' & Hc' & Hi) & Hfree & Hall).
      split; [exists c'; split; [right; exact Hc' | exact Hi]|].
      split; assumption.
    + intros [= <- <-]. apply bool_decide_eq_false in Hlock.
      split; [exists c; split; [left | reflexivity]|].
      split; [exact Hlock|].
      unfold set_running. cbn [queue].
      apply Forall2_fmap_r, Forall_Forall2_diag, Forall_forall.
      intros r _. unfold compose.
      destruct (bool_decide (rec_id r = rec_id c));
        [split; reflexivity | reflexivity].
Qed.

End ClaimAlgorithm.

Arguments job_record : clear implicits.
Arguments collections : clear implicits.

Section AttemptsLeft.

Context {oid : Type} `{EqDecision oid}.
Variable in_maintenance : job_record oid -> bool.
Variable ObjectId : string -> option oid.
Variable load_job : oid -> option (CoreJob oid * user_code oid).
Variable raised : list (event oid) -> event oid -> option exn.


End AttemptsLeft.

Arguments loads {oid} _ _ _ _ _ _ _.

(** A job of the concrete setting as the claim algorithm finds and
    leaves it. *)
Module ClaimDemo.

Definition pending : job_record string :=
  mkRecord Demo.job_id PENDING 0 10 10 None None 3.

Definition other : job_record string :=
  mkRecord "5be13b56de8b69468b7ff0b3" DEFERRED 1 5 99 None None 2.

Definition before_claim : collections string :=
  mkCollections [other; pending] [].

Definition after_claim : collections string :=
  mkCollections
    [other;
     mkRecord Demo.job_id RUNNING 0 10 10 (Some 20) (Some ("worker", 20)) 2]
    [(Demo.job_id, "worker")].

(** [load_job] for the claimed job: two attempts are left. *)
Definition load_job (run : user_code string) (i : string)
  : option (CoreJob string * user_code string) :=
  Some (mkJob i [("x", "1")] 2, run).

End ClaimDemo.

(** C1 at a job whose [run] raises [CoreJobDeferred]. *)
Lemma start_one_terminal_call_witness :
  exists j,
    _id j = Demo.job_id /\
    terminal_calls
      (snd (start Demo.ObjectId (Demo.load_job Demo.deferring) Demo.quiet
              Demo.job_id))
    = [EvSetDefer j].
Proof.
  apply (start_one_terminal_call string Demo.ObjectId
           (Demo.load_job Demo.deferring) Demo.quiet Demo.job_id Demo.job_id
           (mkJob Demo.job_id [("x", "1")] 3) Demo.deferring).
  - repeat split.
  - reflexivity.
Defined.

(** C1 as the specification words it fails: when [run] returns and
    [set_complete] meets a conflict, the handler calls [set_failed] as
    well, and the run has made two terminal calls. *)
Lemma start_one_terminal_call_fails :
  terminal_calls
    (snd (start Demo.ObjectId (Demo.load_job Demo.returning)
            Demo.conflict_on_complete Demo.job_id))
  = [EvSetComplete (mkJob Demo.job_id [("x", "1")] 2);
     EvSetFailed (mkJob Demo.job_id [("x", "1")] 1)] /\
  ~ exists t,
      terminal_calls
        (snd (start Demo.ObjectId (Demo.load_job Demo.returning)
                Demo.conflict_on_complete Demo.job_id))
      = [t].
Proof.
  split; [reflexivity|]. intros [t Ht]. discriminate Ht.
Qed.

(** C2 at a job whose [run] raises an error other than
    [CoreJobDeferred]. *)
Lemma start_attempt_accounting_witness :
  (fun e => attempts_left <$> call_job e) <$>
    terminal_calls
      (snd (start Demo.ObjectId (Demo.load_job Demo.failing) Demo.quiet
              Demo.job_id))
  = [Some 2].
Proof.
  apply (start_attempt_accounting string Demo.ObjectId
           (Demo.load_job Demo.failing) Demo.quiet Demo.job_id Demo.job_id
           (mkJob Demo.job_id [("x", "1")] 3) Demo.failing).
  - repeat split.
  - reflexivity.
Defined.

(** C2 as the specification words it fails: user code returns and
    leaves three attempts; [set_complete] meets a conflict, and the
    terminal call that follows, [set_failed], sees one attempt left, two
    below what user code left. *)
Lemma start_attempt_accounting_fails :
  Demo.returning (mkJob Demo.job_id [("x", "1")] 3) [("x", "1")]
  = (Returns tt, mkJob Demo.job_id [("x", "1")] 3) /\
  last (terminal_calls
          (snd (start Demo.ObjectId (Demo.load_job Demo.returning)
                  Demo.conflict_on_complete Demo.job_id)))
  = Some (EvSetFailed (mkJob Demo.job_id [("x", "1")] (3 - 2))).
Proof. split; reflexivity. Qed.



(** C4 at a job whose [run] raises an error other than
    [CoreJobDeferred] and whose [set_failed] meets a conflict. *)
Lemma start_unlocks_and_restores_witness :
  exists pre t,
    snd (start Demo.ObjectId (Demo.load_job Demo.failing)
           Demo.conflict_on_failed Demo.job_id) =
      pre ++ [t; EvUnlockJob Demo.job_id; EvRaisePrivilege] /\
    is_terminal_call t = true /\
    Forall (fun e => forall k, e <> EvUnlockJob k) pre /\
    Forall (fun e => e <> EvRaisePrivilege) pre.
Proof.
  apply (start_unlocks_and_restores string Demo.ObjectId
           (Demo.load_job Demo.failing) Demo.conflict_on_failed
           Demo.job_id Demo.job_id
           (mkJob Demo.job_id [("x", "1")] 3) Demo.failing).
  - repeat split.
  - reflexivity.
Defined.

(** X1 at a job whose [run] returns and whose [set_complete] meets a
    conflict: [start] returns. *)
Lemma start_returns_once_loaded_witness :
  (start Demo.ObjectId (Demo.load_job Demo.returning)
     Demo.conflict_on_complete Demo.job_id).1
  = Returns tt.
Proof.
  apply (proj1 (start_returns_once_loaded string Demo.ObjectId
                  (Demo.load_job Demo.returning) Demo.conflict_on_complete
                  Demo.job_id Demo.job_id
                  (mkJob Demo.job_id [("x", "1")] 3) Demo.returning
                  (conj eq_refl (conj eq_refl (conj eq_refl eq_refl)))));
    reflexivity.
Defined.

(** X2 at a [setup_logging] that raises. *)
Lemma start_fails_before_try_witness :
  (exists e,
     (start Demo.ObjectId (Demo.load_job Demo.returning) Demo.no_logging
        Demo.job_id).1 = Raises e) /\
  Forall (fun ev => ev = EvSetupLogging \/ ev = EvCoreQueue \/
                    exists i, ev = EvLoadJob i)
    (start Demo.ObjectId (Demo.load_job Demo.returning) Demo.no_logging
       Demo.job_id).2.
Proof.
  apply (start_fails_before_try string Demo.ObjectId
           (Demo.load_job Demo.returning) Demo.no_logging Demo.job_id).
  intros i job run (_ & Hlog & _). discriminate Hlog.
Defined.

(** The calls of a run whose user code defers. *)
Example start_deferring :
  start Demo.ObjectId (Demo.load_job Demo.deferring) Demo.quiet Demo.job_id =
    (Returns tt,
     [EvSetupLogging; EvCoreQueue; EvLoadJob Demo.job_id; EvDropPrivilege;
      EvRun (mkJob Demo.job_id [("x", "1")] 3);
      EvSetDefer (mkJob Demo.job_id [("x", "1")] 3);
      EvUnlockJob Demo.job_id; EvRaisePrivilege]).
Proof. reflexivity. Qed.

(** The calls of a run whose user code fails and whose [set_failed]
    meets a conflict: the conflict leaves [start] after [finally]. *)
Example start_failed_conflict :
  start Demo.ObjectId (Demo.load_job Demo.failing) Demo.conflict_on_failed
    Demo.job_id =
    (Raises (OtherError "Conflict"),
     [EvSetupLogging; EvCoreQueue; EvLoadJob Demo.job_id; EvDropPrivilege;
      EvRun (mkJob Demo.job_id [("x", "1")] 3);
      EvSetFailed (mkJob Demo.job_id [("x", "1")] 2);
      EvUnlockJob Demo.job_id; EvRaisePrivilege]).
Proof. reflexivity. Qed.

(** An id that is no [ObjectId] ends [start] before anything is called. *)
Example start_invalid_id :
  start Demo.ObjectId (Demo.load_job Demo.returning) Demo.quiet "42" =
    (Raises (OtherError "InvalidId"), []).
Proof. reflexivity. Qed.

End Process.

(** ** Python text

    The methods of [str] the embedded code calls, on the ASCII range. *)
Module Py.

Definition code (c : ascii) : N := N_of_ascii c.

(** [str.isspace] on one character: tab to carriage return, the four
    separators 28 to 31, and the blank. *)
Definition isspace (c : ascii) : bool :=
  ((9 <=? code c) && (code c <=? 13) || (28 <=? code c) && (code c <=? 32))%N.

Definition isdigit (c : ascii) : bool :=
  ((48 <=? code c) && (code c <=? 57))%N.

Definition isupper (c : ascii) : bool :=
  ((65 <=? code c) && (code c <=? 90))%N.

Definition islower (c : ascii) : bool :=
  ((97 <=? code c) && (code c <=? 122))%N.

(** A word character of [re]: letter, digit or underscore. *)
Definition isword (c : ascii) : bool :=
  isupper c || islower c || isdigit c || (code c =? 95)%N.

Definition lower_char (c : ascii) : ascii :=
  if isupper c then ascii_of_N (code c + 32) else c.

Definition upper_char (c : ascii) : ascii :=
  if islower c then ascii_of_N (code c - 32) else c.

Fixpoint lower (s : string) : string :=
  match s with
  | EmptyString => EmptyString
  | String c s' => String (lower_char c) (lower s')
  end.

Fixpoint upper (s : string) : string :=
  match s with
  | EmptyString => EmptyString
  | String c s' => String (upper_char c) (upper s')
  end.

Fixpoint lstrip (s : string) : string :=
  match s with
  | EmptyString => EmptyString
  | String c s' => if isspace c then lstrip s' else s
  end.

Definition rstrip (s : string) : string :=
  String.rev (lstrip (String.rev s)).

Definition strip (s : string) : string := rstrip (lstrip s).

(** [sep.join(l)]. *)
Fixpoint join (sep : string) (l : list string) : string :=
  match l with
  | [] => EmptyString
  | [x] => x
  | x :: rest => x +:+ sep +:+ join sep rest
  end.

(** [s[0]], as text; [None] is the [IndexError] on empty text. *)
Definition first (s : string) : option string :=
  match s with
  | EmptyString => None
  | String c _ => Some (String c EmptyString)
  end.

(** The status the interpreter exits with when the program ends with
    outcome [r]: 0 after a normal end; for [SystemExit] 0 when it carries
    no code, the low eight bits of the code when it is an integer, and 1
    when it is anything
    else (which is printed); 1 for every other exception. *)
Definition exit_status {A} (r : outcome A) : Z :=
  match r with
  | Returns _ => 0
  | Raises (SystemExit None) => 0
  | Raises (SystemExit (Some (inl n))) => n mod 256
  | Raises (SystemExit (Some (inr _))) => 1
  | Raises _ => 1
  end.

End Py.

(** ** Facts about Python text *)
Module PyFacts.

Fixpoint all_space (s : string) : bool :=
  match s with
  | EmptyString => true
  | String c s' => Py.isspace c && all_space s'
  end.

(** [s] is empty or begins with a character that is no blank. *)
Definition no_blank_first (s : string) : bool :=
  match s with
  | EmptyString => true
  | String c _ => negb (Py.isspace c)
  end.

Lemma append_nil_r (s : string) : s +:+ EmptyString = s.
Proof.
  induction s as [|c s IH]; [reflexivity|].
  change (String c (s +:+ EmptyString) = String c s). now f_equal.
Qed.

Lemma append_assoc (s1 s2 s3 : string) :
  (s1 +:+ s2) +:+ s3 = s1 +:+ (s2 +:+ s3).
Proof.
  induction s1 as [|c s IH]; [reflexivity|].
  change (String c ((s +:+ s2) +:+ s3) = String c (s +:+ (s2 +:+ s3))).
  now f_equal.
Qed.

Lemma rev_app_spec s : forall acc,
  String.rev_app s acc = String.rev s +:+ acc.
Proof.
  unfold String.rev. induction s as [|c s IH]; intros acc; [reflexivity|].
  cbn [String.rev_app]. rewrite IH, (IH (String c EmptyString)).
  rewrite append_assoc. reflexivity.
Qed.

Lemma rev_app (s t : string) :
  String.rev (s +:+ t) = String.rev t +:+ String.rev s.
Proof.
  induction s as [|c s IH].
  - change (EmptyString +:+ t) with t. cbn. now rewrite append_nil_r.
  - change (String c s +:+ t) with (String c (s +:+ t)).
    unfold String.rev at 1 3. cbn [String.rev_app].
    rewrite !rev_app_spec, IH, append_assoc. reflexivity.
Qed.

Lemma rev_involutive (s : string) : String.rev (String.rev s) = s.
Proof.
  induction s as [|c s IH]; [reflexivity|].
  unfold String.rev at 2. cbn [String.rev_app]. rewrite rev_app_spec.
  rewrite rev_app, IH. reflexivity.
Qed.

Lemma all_space_rev s : all_space s = true -> all_space (String.rev s) = true.
Proof.
  induction s as [|c s IH]; [reflexivity|]. cbn [all_space].
  intros [Hc Hs]%andb_prop. unfold String.rev. cbn [String.rev_app].
  rewrite rev_app_spec.
  assert (Happ : forall a b, all_space a = true -> all_space b = true ->
                             all_space (a +:+ b) = true).
  { induction a as [|x a IHa]; intros b Ha Hb; [exact Hb|].
    change (String x a +:+ b) with (String x (a +:+ b)). cbn [all_space] in *.
    apply andb_prop in Ha as [Hx Ha]. rewrite Hx. cbn. now apply IHa. }
  apply Happ; [apply IH, Hs | cbn; now rewrite Hc].
Qed.

Lemma lstrip_blanks ws s :
  all_space ws = true -> Py.lstrip (ws +:+ s) = Py.lstrip s.
Proof.
  induction ws as [|c ws IH]; intros Hws; [reflexivity|].
  change (String c ws +:+ s) with (String c (ws +:+ s)).
  cbn [all_space] in Hws. apply andb_prop in Hws as [Hc Hws].
  cbn [Py.lstrip]. rewrite Hc. apply IH, Hws.
Qed.

Lemma lstrip_no_blank s : no_blank_first s = true -> Py.lstrip s = s.
Proof.
  destruct s as [|c s]; [reflexivity|]. cbn.
  destruct (Py.isspace c); [discriminate | reflexivity].
Qed.

Lemma no_blank_first_app s t :
  s <> EmptyString -> no_blank_first s = true -> no_blank_first (s +:+ t) = true.
Proof. destruct s as [|c s]; [congruence|]. intros _ H. exact H. Qed.

(** [strip] takes the blanks off both ends and nothing else: of blanks, a
    text that neither begins nor ends with a blank, and blanks again, it
    leaves the text in the middle. *)
Lemma strip_blanks pre core post :
  all_space pre = true -> all_space post = true ->
  no_blank_first core = true -> no_blank_first (String.rev core) = true ->
  Py.strip (pre +:+ core +:+ post) = core.
Proof.
  intros Hpre Hpost Hfirst Hlast. unfold Py.strip, Py.rstrip.
  rewrite lstrip_blanks by exact Hpre.
  destruct core as [|c core].
  - change (EmptyString +:+ post) with post.
    assert (Hl : Py.lstrip post = EmptyString).
    { rewrite <- (append_nil_r post). rewrite lstrip_blanks by exact Hpost.
      reflexivity. }
    rewrite Hl. reflexivity.
  - rewrite (lstrip_no_blank (String c core +:+ post))
      by (apply no_blank_first_app; [discriminate | exact Hfirst]).
    rewrite rev_app. rewrite lstrip_blanks by (apply all_space_rev, Hpost).
    rewrite lstrip_no_blank by exact Hlast. apply rev_involutive.
Qed.

End PyFacts.

(** ** More Python text: repetition, suffix test, first field *)
Module PyMore.

(** [s * n]. *)
Fixpoint times (s : string) (n : nat) : string :=
  match n with
  | O => EmptyString
  | S n => s +:+ times s n
  end.

(** [s.endswith(t)]. *)
Definition endswith (s t : string) : bool :=
  String.prefix (String.rev t) (String.rev s).

(** [s.split(sep)[0]] for a separator of one character: the text before
    the first separator, all of [s] when there is none. *)
Fixpoint first_field (sep : ascii) (s : string) : string :=
  match s with
  | EmptyString => EmptyString
  | String c s' =>
      if Ascii.eqb c sep then EmptyString else String c (first_field sep s')
  end.

(** The line feed. *)
Definition newline : string :=
  String (Ascii false true false true false false false false) EmptyString.

(** [s.ljust(n)], [s.rjust(n)] and [s[:n]]: what the formats [{:ns}],
    [{:>ns}] and the precision of [{:n.ns}] do to text. *)
Definition ljust (s : string) (n : nat) : string :=
  s +:+ times " " (n - String.length s).

Definition rjust (s : string) (n : nat) : string :=
  times " " (n - String.length s) +:+ s.

Fixpoint truncate (s : string) (n : nat) : string :=
  match n, s with
  | S n, String c s' => String c (truncate s' n)
  | _, _ => EmptyString
  end.

Lemma app_length (a b : string) :
  String.length (a +:+ b) = (String.length a + String.length b)%nat.
Proof.
  induction a as [|c a IHa]; [reflexivity|].
  change (String c a +:+ b) with (String c (a +:+ b)). cbn. now rewrite IHa.
Qed.

Lemma times_length s n :
  String.length (times s n) = (n * String.length s)%nat.
Proof.
  induction n as [|n IH]; [reflexivity|]. cbn [times].
  assert (Hlen : forall a b,
            String.length (a +:+ b) = (String.length a + String.length b)%nat).
  { induction a as [|c a IHa]; intros b; [reflexivity|].
    change (String c a +:+ b) with (String c (a +:+ b)). cbn. now rewrite IHa. }
  rewrite Hlen, IH. reflexivity.
Qed.

Lemma ljust_length s n :
  (String.length s <= n)%nat -> String.length (ljust s n) = n.
Proof.
  intros H. unfold ljust. rewrite app_length, times_length. cbn. lia.
Qed.

Lemma rjust_length s n :
  (String.length s <= n)%nat -> String.length (rjust s n) = n.
Proof.
  intros H. unfold rjust. rewrite app_length, times_length. cbn. lia.
Qed.

Lemma truncate_length s : forall n,
  (String.length (truncate s n) <= n)%nat.
Proof.
  induction s as [|c s IH]; intros [|n]; cbn; try lia.
  specialize (IH n). lia.
Qed.

End PyMore.

(** ** The entry point of the executor: [start()] of
    [core4/queue/process.py] *)
Module ProcessEntry.

Section Entry.

Variable oid : Type.
Variable ObjectId : string -> option oid.
Variable load_job :
  oid -> option (Process.CoreJob oid * Process.user_code oid).
Variable raised : list (Process.event oid) -> Process.event oid -> option exn.

(** The function [start] of the module: all of standard input, stripped,
    is the job id handed to [CoreWorkerProcess.start]. *)
Definition start_process (stdin : string)
  : outcome unit * list (Process.event oid) :=
  Process.start ObjectId load_job raised (Py.strip stdin).

(** X3: blanks and line ends around the job id on standard input do not
    matter: the executor runs as for the id alone. *)
Theorem start_process_strips pre job_id post :
  PyFacts.all_space pre = true -> PyFacts.all_space post = true ->
  PyFacts.no_blank_first job_id = true ->
  PyFacts.no_blank_first (String.rev job_id) = true ->
  start_process (pre +:+ job_id +:+ post) =
    Process.start ObjectId load_job raised job_id.
Proof.
  intros Hpre Hpost Hfirst Hlast. unfold start_process.
  rewrite PyFacts.strip_blanks by assumption. reflexivity.
Qed.

End Entry.

(** X3 at an id followed by a line end. *)
Lemma start_process_strips_witness :
  start_process string Process.Demo.ObjectId
    (Process.Demo.load_job Process.Demo.returning) Process.Demo.quiet
    (" " +:+ Process.Demo.job_id +:+
     String (Ascii.ascii_of_nat 10) EmptyString)
  = Process.start Process.Demo.ObjectId
      (Process.Demo.load_job Process.Demo.returning) Process.Demo.quiet
      Process.Demo.job_id.
Proof.
  exact (start_process_strips string Process.Demo.ObjectId
           (Process.Demo.load_job Process.Demo.returning) Process.Demo.quiet
           " " Process.Demo.job_id (String (Ascii.ascii_of_nat 10) EmptyString)
           eq_refl eq_refl eq_refl eq_refl).
Defined.

End ProcessEntry.

(** ** Regular expressions

    The part of [re] that the pattern of [enqueue] needs: character
    classes, one character, greedy repetition with backtracking, anchors
    and capturing groups. *)
Module Re.

Inductive cls : Type :=
  | Space                     (* \s *)
  | Word                      (* \w *)
  | Dot                       (* .  : anything but a newline *)
  | OneOf (l : list ascii).   (* [...] *)

Definition in_cls (k : cls) (c : ascii) : bool :=
  match k with
  | Space => Py.isspace c
  | Word => Py.isword c
  | Dot => negb (Py.code c =? 10)%N
  | OneOf l => bool_decide (c ∈ l)
  end.

Inductive item : Type :=
  | Bos               (* ^ *)
  | Eos               (* $ *)
  | One (k : cls)
  | Star (k : cls)
  | Plus (k : cls)
  | Open              (* ( *)
  | Close.            (* ) *)

(** A match in progress: the groups closed so far, the text of the open
    group, and the number of characters consumed. *)
Record mstate : Type := mkM {
  caps : list string;
  opened : option string;
  consumed : nat
}.

Definition take (c : ascii) (m : mstate) : mstate :=
  mkM (caps m) ((fun g => g +:+ String c EmptyString) <$> opened m)
    (S (consumed m)).

(** Greedy repetition: as many characters of the class as possible, one
    fewer each time the rest of the pattern, [k], fails. *)
Fixpoint star {X} (p : ascii -> bool) (s : string) (m : mstate)
    (k : string -> mstate -> option X) : option X :=
  match s with
  | String c s' =>
      if p c then
        match star p s' (take c m) k with
        | Some r => Some r
        | None => k s m
        end
      else k s m
  | EmptyString => k s m
  end.

(** The first way, in backtracking order, in which the items match a
    prefix of [s]: the state reached and the text left over. *)
Fixpoint match_items (its : list item) (s : string) (m : mstate)
  : option (mstate * string) :=
  match its with
  | [] => Some (m, s)
  | Bos :: rest =>
      if Nat.eqb (consumed m) 0 then match_items rest s m else None
  | Eos :: rest =>
      match s with
      | EmptyString => match_items rest s m
      | String c EmptyString =>
          if (Py.code c =? 10)%N then match_items rest s m else None
      | _ => None
      end
  | One k :: rest =>
      match s with
      | String c s' =>
          if in_cls k c then match_items rest s' (take c m) else None
      | EmptyString => None
      end
  | Star k :: rest =>
      star (in_cls k) s m (fun s' m' => match_items rest s' m')
  | Plus k :: rest =>
      match s with
      | String c s' =>
          if in_cls k c
          then star (in_cls k) s' (take c m)
                 (fun s' m' => match_items rest s' m')
          else None
      | EmptyString => None
      end
  | Open :: rest =>
      match_items rest s (mkM (caps m) (Some EmptyString) (consumed m))
  | Close :: rest =>
      match_items rest s
        (mkM (caps m ++ [default EmptyString (opened m)]) None (consumed m))
  end.

(** [re.sub(pattern, repl, s)] for a pattern that begins with [Bos]: a
    match can begin at the start of [s] only, so at most one match is
    replaced; text the match leaves over is kept. *)
Definition sub (pattern : list item) (repl : list string -> string)
    (s : string) : string :=
  match match_items pattern s (mkM [] None 0) with
  | Some (m, rest) => repl (caps m) +:+ rest
  | None => s
  end.

(** *** Facts about the matcher *)

Fixpoint all_chars (p : ascii -> bool) (s : string) : bool :=
  match s with
  | EmptyString => true
  | String c s' => p c && all_chars p s'
  end.

(** [s] does not go on with a character of [p]. *)
Definition stops (p : ascii -> bool) (s : string) : bool :=
  match s with
  | EmptyString => true
  | String c _ => negb (p c)
  end.

Fixpoint takes (a : string) (m : mstate) : mstate :=
  match a with
  | EmptyString => m
  | String c a' => takes a' (take c m)
  end.

Lemma app_nil_r (s : string) : s +:+ EmptyString = s.
Proof.
  induction s as [|c s IH]; [reflexivity|].
  change (String c (s +:+ EmptyString) = String c s). now f_equal.
Qed.

Lemma app_assoc (s1 s2 s3 : string) :
  (s1 +:+ s2) +:+ s3 = s1 +:+ (s2 +:+ s3).
Proof.
  induction s1 as [|c s IH]; [reflexivity|].
  change (String c ((s +:+ s2) +:+ s3) = String c (s +:+ (s2 +:+ s3))).
  now f_equal.
Qed.

Lemma takes_caps a : forall m, caps (takes a m) = caps m.
Proof.
  induction a as [|c a IH]; intros m; cbn; [reflexivity|]. now rewrite IH.
Qed.

Lemma takes_opened a : forall m,
  opened (takes a m) = (fun g => g +:+ a) <$> opened m.
Proof.
  induction a as [|c a IH]; intros m; cbn.
  - destruct (opened m); cbn; [now rewrite app_nil_r | reflexivity].
  - rewrite IH. cbn. destruct (opened m); cbn; [|reflexivity].
    now rewrite app_assoc.
Qed.

Lemma star_stop {X} p s m (k : string -> mstate -> option X) :
  stops p s = true -> star p s m k = k s m.
Proof.
  destruct s as [|c s]; cbn; [reflexivity|].
  destruct (p c); [discriminate | reflexivity].
Qed.

(** Repetition takes all of [a] when [a] is of the class, the text does
    not go on in the class, and the rest of the pattern matches there. *)
Lemma star_greedy {X} p a : forall s m (k : string -> mstate -> option X) r,
  all_chars p a = true -> stops p s = true ->
  k s (takes a m) = Some r ->
  star p (a +:+ s) m k = Some r.
Proof.
  induction a as [|c a IH]; intros s m k r Ha Hs Hk.
  - change (EmptyString +:+ s) with s.
    rewrite star_stop by exact Hs. exact Hk.
  - change (String c a +:+ s) with (String c (a +:+ s)).
    cbn [star all_chars takes] in *.
    apply andb_prop in Ha as [Hc Ha]. rewrite Hc.
    rewrite (IH s (take c m) k r Ha Hs Hk). reflexivity.
Qed.

(** The matcher, item by item. *)
Lemma match_bos rest s m :
  consumed m = 0%nat ->
  match_items (Bos :: rest) s m = match_items rest s m.
Proof. intros H. cbn [match_items]. rewrite H. reflexivity. Qed.

Lemma match_eos_end rest m :
  match_items (Eos :: rest) EmptyString m = match_items rest EmptyString m.
Proof. reflexivity. Qed.

Lemma match_one k rest c s m :
  in_cls k c = true ->
  match_items (One k :: rest) (String c s) m = match_items rest s (take c m).
Proof. intros H. cbn [match_items]. rewrite H. reflexivity. Qed.

Lemma match_star_skip k rest s m :
  stops (in_cls k) s = true ->
  match_items (Star k :: rest) s m = match_items rest s m.
Proof. intros H. cbn [match_items]. apply star_stop, H. Qed.

Lemma match_plus_all k rest c a s m r :
  in_cls k c = true -> all_chars (in_cls k) a = true ->
  stops (in_cls k) s = true ->
  match_items rest s (takes a (take c m)) = Some r ->
  match_items (Plus k :: rest) (String c (a +:+ s)) m = Some r.
Proof.
  intros Hc Ha Hs Hr. cbn [match_items]. rewrite Hc.
  apply star_greedy; assumption.
Qed.

Lemma match_open rest s m :
  match_items (Open :: rest) s m =
    match_items rest s (mkM (caps m) (Some EmptyString) (consumed m)).
Proof. reflexivity. Qed.

Lemma match_close rest s m :
  match_items (Close :: rest) s m =
    match_items rest s
      (mkM (caps m ++ [default EmptyString (opened m)]) None (consumed m)).
Proof. reflexivity. Qed.

Lemma word_not_space c : Py.isword c = true -> Py.isspace c = false.
Proof.
  destruct c as [[] [] [] [] [] [] [] []]; vm_compute; congruence.
Qed.

End Re.

(** ** The command line: [core4/script/coco.py] *)
Module Coco.

(** Modelled from the spec: the state names of [core4.queue.job], which is
    not under [src/].  The specification names the states PENDING, RUNNING,
    DEFERRED, FAILED, ERROR, INACTIVE, COMPLETE and KILLED; [listing]
    compares [job["state"]] with the literal [running], so the constants
    are the lower-case names. *)
Definition STATE_PENDING : string := "pending".
Definition STATE_RUNNING : string := "running".
Definition STATE_DEFERRED : string := "deferred".
Definition STATE_FAILED : string := "failed".
Definition STATE_INACTIVE : string := "inactive".
Definition STATE_ERROR : string := "error".
Definition STATE_KILLED : string := "killed".
Definition STATE_COMPLETE : string := "complete".

(** The list [listing] tests each argument against. *)
Definition listing_states : list string :=
  [STATE_PENDING; STATE_RUNNING; STATE_DEFERRED; STATE_FAILED;
   STATE_INACTIVE; STATE_ERROR; STATE_KILLED].

(** The keyword arguments of [QUEUE.get_job_listing]. *)
Inductive query : Type :=
  | NoFilter
  | ByState (states : list string)
  | ByName (name : string).

Section Commands.

(** Outside the repository or outside [src/]: the ids of [bson], Python
    floats with the seconds of a [timedelta] given in microseconds, the
    clock [core4.util.node.mongo_now], read for the n-th time, and the
    queue behind [QUEUE]. *)
Variable oid : Type.
Variable ObjectId : string -> option oid.
Variable float : Type.
Variable float_zero : float.
Variable total_seconds : Z -> float.
Variable mongo_now : nat -> Z.
Variable Store : Type.

(** A job document as [listing] reads it.  [None] is Python's [None], or
    the missing key where the code reads with [get] and [None] as
    default; [prog_value] is [None] for a document without [prog] or
    without [value] in it and [Some None] for a [value] that is [None];
    times are microseconds. *)
Record job_doc : Type := mkDoc {
  doc_id : oid;
  name : string;
  state : string;
  locked : option string;
  prog_value : option (option float);
  priority : Z;
  force : bool;
  attempts : Z;
  attempts_left : Z;
  enqueued_username : option string;
  enqueued_at : option Z;
  started_at : option Z;
  runtime : option float;
  zombie_at : option Z;
  wall_at : option Z;
  removed_at : option Z;
  killed_at : option Z
}.

Variable get_job_listing : query -> Store -> list job_doc.

(** The values [listing] formats into one printed row. *)
Record row : Type := mkRow {
  row_id : oid;
  row_state : string;
  row_flag : string;
  row_progress : float;
  row_priority : Z;
  row_force : bool;
  row_attempt : Z * Z;
  row_username : string;
  row_enqueued : option Z;
  row_age : Z;
  row_runtime : float;
  row_worker : string;
  row_name : string
}.

(** What the commands print.  Lines that format values are kept as the
    values, the formatting into columns is not modelled. *)
Inductive line : Type :=
  | Text (s : string)
  | ListingHeader (mxworker : nat)
  | ListingRuler (widths : list nat)
  | ListingRow (r : row)
  | Removed (i : oid)
  | FailedToRemove (i : oid)
  | Restarted (i new : oid)
  | FailedToRestart (i : oid)
  | Killed (i : oid)
  | FailedToKill (i : oid).

(** The state of a command: what was printed, how often the clock was
    read, and the queue. *)
Record console : Type := mkConsole {
  printed : list line;
  ticks : nat;
  store : Store
}.

Definition print (l : line) : SE console unit :=
  fun c => (Returns tt, mkConsole (printed c ++ [l]) (ticks c) (store c)).

Definition now : SE console Z :=
  fun c => (Returns (mongo_now (ticks c)),
            mkConsole (printed c) (S (ticks c)) (store c)).

Definition read_store {A} (f : Store -> A) : SE console A :=
  fun c => (Returns (f (store c)), c).

(** The first loop of [listing]: every argument is lowered and stripped;
    a known state enters [filter] once, an unknown one is reported and
    ends the command with [raise SystemExit]. *)
Fixpoint listing_filter (state filter : list string)
  : SE console (list string) :=
  match state with
  | [] => mret filter
  | s :: rest =>
      let s := Py.strip (Py.lower s) in
      if bool_decide (s ∈ listing_states) then
        listing_filter rest
          (if bool_decide (s ∈ filter) then filter else filter ++ [s])
      else
        print (Text ("unknown state [" +:+ s +:+ "]"));;
        raise (SystemExit None)
  end.

(** The four flag keys, each with the field it names. *)
Definition flag_keys : list (string * (job_doc -> option Z)) :=
  [("zombie_at", zombie_at); ("wall_at", wall_at);
   ("removed_at", removed_at); ("killed_at", killed_at)].

(** [k[0].upper() if job[k] else "."], joined without separator. *)
Definition flag_of (job : job_doc) : string :=
  Py.join EmptyString
    ((fun k : string * (job_doc -> option Z) =>
        if k.2 job is Some _
        then Py.upper (default EmptyString (Py.first k.1))
        else ".") <$> flag_keys).

(** The body of the second loop of [listing], for one job.  A stored
    runtime of zero is falsy and replaced by 0, which is the same number;
    the clock is read once for the runtime of a running job, once for the
    age, and once more when [enqueued.at] is [None].  The arguments of
    [print] are evaluated in order: the product of 100 and a progress
    that is [None] raises [TypeError], and so does the format of a user
    name that is [None]; nothing is printed for the job then. *)
Definition listing_row (job : job_doc) : SE console unit :=
  let worker := default EmptyString (locked job) in
  let attempts_left' :=
    if bool_decide (state job = STATE_RUNNING)
    then attempts_left job - 1 else attempts_left job in
  let flag := flag_of job in
  runtime ←
    (if bool_decide (state job = "running") then
       t ← now;
       match started_at job with
       | Some started => mret (total_seconds (t - started))
       | None => raise (OtherError "TypeError")
       end
     else mret (default float_zero (runtime job)));
  progress ←
    (match prog_value job with
     | None => mret float_zero
     | Some (Some value) => mret value
     | Some None => raise (OtherError "TypeError")
     end);
  username ←
    (match enqueued_username job with
     | Some username => mret username
     | None => raise (OtherError "TypeError")
     end);
  t1 ← now;
  at_ ← (match enqueued_at job with
         | Some a => mret a
         | None => now
         end);
  print (ListingRow
           (mkRow (doc_id job) (state job) flag progress (priority job)
              (force job) (attempts job - attempts_left', attempts job)
              username (enqueued_at job) (t1 - at_)
              runtime worker (name job))).

Fixpoint listing_rows (rec : list job_doc) : SE console unit :=
  match rec with
  | [] => mret tt
  | job :: rest => listing_row job;; listing_rows rest
  end.

(** [listing], called with the STATE arguments. *)
Definition listing (state : list string) : SE console unit :=
  filter ← listing_filter state [];
  let kwargs := if filter is [] then NoFilter else ByState filter in
  rec ← read_store (get_job_listing kwargs);
  let mx :=
    foldl (fun m job => Nat.max m (String.length (name job))) 0%nat rec in
  let mxworker :=
    foldl (fun m job =>
             if locked job is Some w
             then Nat.max m (String.length w) else m) 6%nat rec in
  (if rec is [] then print (Text "no jobs.")
   else
     print (ListingHeader mxworker);;
     print (ListingRuler
              [24; 8; 4; 4; 4; 7; 6; 19; 19; 11; mxworker; mx]%nat));;
  listing_rows rec.

(** *** Facts about [listing] *)

(** An argument [listing] takes for a state. *)
Definition known_state (s : string) : Prop :=
  Py.strip (Py.lower s) ∈ listing_states.

#[local] Instance known_state_dec s : Decision (known_state s).
Proof. unfold known_state. apply _. Defined.

Lemma listing_filter_known state : forall filter c,
  Forall known_state state ->
  exists filter', listing_filter state filter c = (Returns filter', c).
Proof.
  induction state as [|s rest IH]; intros filter c Hall; cbn.
  - eexists; reflexivity.
  - inversion Hall as [|? ? Hs Hrest]; subst.
    rewrite bool_decide_eq_true_2 by exact Hs. apply IH, Hrest.
Qed.

Lemma listing_filter_unknown pre : forall s post filter c,
  Forall known_state pre -> ~ known_state s ->
  listing_filter (pre ++ s :: post) filter c =
    (Raises (SystemExit None),
     mkConsole
       (printed c ++
          [Text ("unknown state [" +:+ Py.strip (Py.lower s) +:+ "]")])
       (ticks c) (store c)).
Proof.
  induction pre as [|p pre IH]; intros s post filter c Hall Hs; cbn.
  - rewrite bool_decide_eq_false_2 by exact Hs. reflexivity.
  - inversion Hall as [|? ? Hp Hpre]; subst.
    rewrite bool_decide_eq_true_2 by exact Hp. apply IH; assumption.
Qed.

(** The first argument that is no state, when there is one. *)
Lemma first_unknown state :
  ~ Forall known_state state ->
  exists pre s post,
    state = pre ++ s :: post /\ Forall known_state pre /\ ~ known_state s.
Proof.
  induction state as [|s rest IH]; intros Hn.
  - destruct Hn. constructor.
  - destruct (decide (known_state s)) as [Hs|Hs].
    + destruct IH as (pre & u & post & -> & Hpre & Hu).
      { intros Hrest. apply Hn. constructor; assumption. }
      exists (s :: pre), u, post. repeat split; [constructor|]; assumption.
    + exists [], s, rest. repeat split; [constructor | assumption].
Qed.

(** The flag column as the specification words it: one character per
    flag in the order zombie, wall, removed, killed; the upper-case first
    letter of a flag that is set, a dot for one that is not. *)
Definition flag_column (job : job_doc) : string :=
  (if zombie_at job is Some _ then "Z" else ".") +:+
  (if wall_at job is Some _ then "W" else ".") +:+
  (if removed_at job is Some _ then "R" else ".") +:+
  (if killed_at job is Some _ then "K" else ".").

(** The runtime column as the specification words it: for a running job
    the clock, read while the job is listed, minus [started_at]; for any
    other job the stored runtime, or zero when there is none. *)
Definition runtime_column (job : job_doc) (shown : float) : Prop :=
  if bool_decide (state job = STATE_RUNNING) then
    exists n started,
      started_at job = Some started /\
      shown = total_seconds (mongo_now n - started)
  else shown = default float_zero (runtime job).

(** Row [r] shows job [job]. *)
Definition shows (job : job_doc) (r : row) : Prop :=
  row_id r = doc_id job /\
  row_flag r = flag_column job /\
  runtime_column job (row_runtime r).

Lemma flag_of_column job : flag_of job = flag_column job.
Proof.
  unfold flag_of, flag_column, flag_keys. cbn.
  destruct (zombie_at job), (wall_at job), (removed_at job),
    (killed_at job); reflexivity.
Qed.

Lemma listing_row_returns job c c' :
  listing_row job c = (Returns tt, c') ->
  exists r,
    printed c' = printed c ++ [ListingRow r] /\
    store c' = store c /\ shows job r.
Proof.
  unfold listing_row, shows, runtime_column, STATE_RUNNING.
  unfold mbind, SE_bind, mret, SE_ret, now, print, raise.
  destruct (bool_decide (state job = "running")); cbn.
  - destruct (started_at job) as [started|] eqn:Hst; cbn; [|discriminate].
    destruct (prog_value job) as [[value|]|]; cbn; try discriminate;
      (destruct (enqueued_username job) as [username|]; cbn;
       [|discriminate]);
      (destruct (enqueued_at job); cbn; intros [= <-]; cbn;
       (eexists; split; [reflexivity|]; split; [reflexivity|]; cbn;
        split; [reflexivity|]; split; [apply flag_of_column|]; eauto)).
  - destruct (prog_value job) as [[value|]|]; cbn; try discriminate;
      (destruct (enqueued_username job) as [username|]; cbn;
       [|discriminate]);
      (destruct (enqueued_at job); cbn; intros [= <-]; cbn;
       (eexists; split; [reflexivity|]; split; [reflexivity|]; cbn;
        split; [reflexivity|]; split; [apply flag_of_column|];
        reflexivity)).
Qed.

Lemma listing_rows_returns rec : forall c c',
  listing_rows rec c = (Returns tt, c') ->
  exists rows,
    printed c' = printed c ++ (ListingRow <$> rows) /\
    store c' = store c /\ Forall2 shows rec rows.
Proof.
  induction rec as [|job rest IH]; intros c c'; cbn.
  - intros [= <-]. exists []. rewrite app_nil_r. repeat split. constructor.
  - unfold mbind, SE_bind.
    destruct (listing_row job c) as [[[]|e] c1] eqn:Hrow; [|discriminate].
    intros Hrest.
    destruct (listing_row_returns _ _ _ Hrow) as (r & Hp1 & Hs1 & Hshow).
    destruct (IH _ _ Hrest) as (rows & Hp & Hs & Hall).
    exists (r :: rows). split; [|split].
    + rewrite Hp, Hp1, <- app_assoc. reflexivity.
    + congruence.
    + constructor; assumption.
Qed.

(** The lines printed before the rows. *)
Definition is_row (l : line) : bool :=
  match l with ListingRow _ => true | _ => false end.

(** What [listing] does once every argument is a state. *)
Lemma listing_known state c :
  Forall known_state state ->
  exists filter,
    listing state c =
      (let kwargs := if filter is [] then NoFilter else ByState filter in
       let rec := get_job_listing kwargs (store c) in
       let mx :=
         foldl (fun m job => Nat.max m (String.length (name job)))
           0%nat rec in
       let mxworker :=
         foldl (fun m job =>
                  if locked job is Some w
                  then Nat.max m (String.length w) else m) 6%nat rec in
       listing_rows rec
         (mkConsole
            (printed c ++
               (if rec is [] then [Text "no jobs."]
                else [ListingHeader mxworker;
                      ListingRuler
                        [24; 8; 4; 4; 4; 7; 6; 19; 19; 11; mxworker; mx]%nat]))
            (ticks c) (store c))).
Proof.
  intros Hall.
  destruct (listing_filter_known state [] c Hall) as [filter Hf].
  exists filter. unfold listing, mbind, SE_bind. rewrite Hf.
  unfold read_store. cbn.
  destruct (get_job_listing _ (store c)) as [|job rest]; cbn.
  - reflexivity.
  - rewrite <- app_assoc. reflexivity.
Qed.

(** With an argument that is no state [listing] raises. *)
Lemma listing_unknown_raises state c :
  ~ Forall known_state state ->
  exists e c', listing state c = (Raises e, c').
Proof.
  intros Hn.
  destruct (first_unknown state Hn) as (pre & s & post & -> & Hpre & Hs).
  unfold listing, mbind, SE_bind.
  rewrite (listing_filter_unknown pre s post [] c Hpre Hs). cbn. eauto.
Qed.

(** What [listing] does with an argument that is no state: it prints
    one line naming the first such argument and ends with a bare
    [raise SystemExit], which carries no code, so the exit status is
    0. *)
Lemma listing_unknown_state_exit_status state c :
  ~ Forall known_state state ->
  exists pre s post,
    state = pre ++ s :: post /\ Forall known_state pre /\
    ~ known_state s /\
    listing state c =
      (Raises (SystemExit None),
       mkConsole
         (printed c ++
            [Text ("unknown state [" +:+ Py.strip (Py.lower s) +:+ "]")])
         (ticks c) (store c)) /\
    Py.exit_status (listing state c).1 = 0.
Proof.
  intros Hn.
  destruct (first_unknown state Hn) as (pre & s & post & -> & Hpre & Hs).
  exists pre, s, post. repeat split; try assumption.
  - unfold listing, mbind, SE_bind.
    rewrite (listing_filter_unknown pre s post [] c Hpre Hs). reflexivity.
  - unfold listing, mbind, SE_bind.
    rewrite (listing_filter_unknown pre s post [] c Hpre Hs). reflexivity.
Qed.

(** C7: when [listing] returns, the rows it printed are, in order, one
    per job record [get_job_listing] gave; each row has the flag column
    and the runtime column the specification describes. *)
Theorem listing_flag_and_runtime state c c' :
  listing state c = (Returns tt, c') ->
  exists kwargs head rows,
    printed c' = printed c ++ head ++ (ListingRow <$> rows) /\
    Forall (fun l => is_row l = false) head /\
    Forall2 shows (get_job_listing kwargs (store c)) rows.
Proof.
  intros Hret.
  destruct (decide (Forall known_state state)) as [Hall|Hn].
  - destruct (listing_known state c Hall) as [filter Hl].
    rewrite Hl in Hret. cbn zeta in Hret.
    apply listing_rows_returns in Hret.
    destruct Hret as (rows & Hp & _ & Hshows). cbn in Hp, Hshows.
    eexists _, _, rows. split; [|split]; [| |exact Hshows].
    + rewrite Hp, <- app_assoc. reflexivity.
    + destruct (get_job_listing _ (store c)); repeat constructor.
  - destruct (listing_unknown_raises state c Hn) as (e & c1 & He).
    rewrite He in Hret. discriminate.
Qed.

(** C9: [listing] takes an argument for a state exactly when, lowered
    and stripped, it is one of pending, running, deferred, failed,
    inactive, error and killed; [complete] is not among them, it is
    reported as unknown and ends the command. *)
Theorem listing_accepted_states s c :
  ((exists filter c', listing_filter [s] [] c = (Returns filter, c')) <->
   Py.strip (Py.lower s) ∈
     ["pending"; "running"; "deferred"; "failed"; "inactive"; "error";
      "killed"]) /\
  listing [STATE_COMPLETE] c =
    (Raises (SystemExit None),
     mkConsole (printed c ++ [Text "unknown state [complete]"])
       (ticks c) (store c)).
Proof.
  split; [split|].
  - intros (filter & c' & Hf).
    destruct (decide (known_state s)) as [Hs|Hs]; [exact Hs|].
    pose proof (listing_filter_unknown [] s [] [] c
                  (Forall_nil_2 _) Hs) as Hu.
    change ([] ++ [s]) with [s] in Hu. rewrite Hu in Hf. discriminate.
  - intros Hs.
    destruct (listing_filter_known [s] [] c) as [filter Hf].
    { constructor; [exact Hs | constructor]. }
    eauto.
  - unfold listing, mbind, SE_bind.
    assert (Hc : ~ known_state STATE_COMPLETE).
    { unfold known_state. vm_compute. intros H.
      repeat (apply elem_of_cons in H as [H|H]; [discriminate|]).
      inversion H. }
    pose proof (listing_filter_unknown [] STATE_COMPLETE [] [] c
                  (Forall_nil_2 _) Hc) as Hu.
    change ([] ++ [STATE_COMPLETE]) with [STATE_COMPLETE] in Hu.
    rewrite Hu. reflexivity.
Qed.

(** *** [_handle], [remove], [restart] and [kill] *)

(** [QUEUE.remove_job], [QUEUE.restart_job] and [QUEUE.kill_job] are
    outside [src/]: each takes an id, changes the queue and returns what
    the commands test for truth (for [restart_job] the new id, if any). *)
Variable remove_job : oid -> Store -> bool * Store.
Variable restart_job : oid -> Store -> option oid * Store.
Variable kill_job : oid -> Store -> bool * Store.

(** [set(_id)], listed in the order the set is iterated: some order of
    the different arguments. *)
Variable py_set : list string -> list string.
Hypothesis py_set_elem : forall l x, x ∈ py_set l <-> x ∈ l.
Hypothesis py_set_NoDup : forall l, NoDup (py_set l).

Definition queue_call {R} (call : oid -> Store -> R * Store) (i : oid)
  : SE console R :=
  fun c => match call i (store c) with
           | (r, st) => (Returns r, mkConsole (printed c) (ticks c) st)
           end.

(** The generator [_handle] together with the [for] loop that drives it:
    [body] is run on every pair the generator yields, before the
    generator goes on.  The work list [_id] of the source is [tokens]
    followed by [found]: [pop(0)] takes the arguments from the front,
    [append] puts the ids found for a name behind everything else, and
    an id, unlike an argument, always passes [ObjectId].  The loop over
    the one list is [handle_worklist] below. *)
Fixpoint handle_found {R} (call : oid -> Store -> R * Store)
    (body : oid * R -> SE console unit) (found : list oid)
  : SE console unit :=
  match found with
  | [] => mret tt
  | i :: rest =>
      ret ← queue_call call i;
      body (i, ret);;
      handle_found call body rest
  end.

Fixpoint _handle {R} (call : oid -> Store -> R * Store)
    (body : oid * R -> SE console unit) (tokens : list string)
    (found : list oid) : SE console unit :=
  match tokens with
  | [] => handle_found call body found
  | i :: rest =>
      match ObjectId i with
      | Some o =>
          ret ← queue_call call o;
          body (o, ret);;
          _handle call body rest found
      | None =>
          jobs ← read_store (get_job_listing (ByName i));
          _handle call body rest (found ++ (doc_id <$> jobs))
      end
  end.

(** The same loop with the work list kept as the one list it is in the
    source: an entry is an argument or an id appended for a name, and
    [ObjectId] of an id is that id.  [fuel] bounds the number of turns of
    [while _id]; the result tells whether the list was emptied. *)
Inductive work : Type :=
  | Arg (s : string)
  | Found (o : oid).

Fixpoint handle_worklist {R} (fuel : nat) (call : oid -> Store -> R * Store)
    (body : oid * R -> SE console unit) (_id : list work)
  : SE console bool :=
  match _id, fuel with
  | [], _ => mret true
  | _, O => mret false
  | Found o :: rest, S fuel =>
      ret ← queue_call call o;
      body (o, ret);;
      handle_worklist fuel call body rest
  | Arg i :: rest, S fuel =>
      match ObjectId i with
      | Some o =>
          ret ← queue_call call o;
          body (o, ret);;
          handle_worklist fuel call body rest
      | None =>
          jobs ← read_store (get_job_listing (ByName i));
          handle_worklist fuel call body
            (rest ++ (Found <$> (doc_id <$> jobs)))
      end
  end.

Definition removed_line (p : oid * bool) : line :=
  if p.2 then Removed p.1 else FailedToRemove p.1.

Definition restarted_line (p : oid * option oid) : line :=
  if p.2 is Some new then Restarted p.1 new else FailedToRestart p.1.

Definition killed_line (p : oid * bool) : line :=
  if p.2 then Killed p.1 else FailedToKill p.1.

Definition remove (_id : list string) : SE console unit :=
  _handle remove_job (fun p => print (removed_line p)) (py_set _id) [].

Definition restart (_id : list string) : SE console unit :=
  _handle restart_job (fun p => print (restarted_line p)) (py_set _id) [].

Definition kill (_id : list string) : SE console unit :=
  _handle kill_job (fun p => print (killed_line p)) (py_set _id) [].

(** *** Facts about [_handle] *)

(** The pairs [_handle] yields and the queue it leaves behind. *)
Fixpoint found_run {R} (call : oid -> Store -> R * Store)
    (found : list oid) (st : Store) : list (oid * R) * Store :=
  match found with
  | [] => ([], st)
  | i :: rest =>
      let p := call i st in
      let q := found_run call rest p.2 in
      ((i, p.1) :: q.1, q.2)
  end.

Fixpoint handle_run {R} (call : oid -> Store -> R * Store)
    (tokens : list string) (found : list oid) (st : Store)
  : list (oid * R) * Store :=
  match tokens with
  | [] => found_run call found st
  | i :: rest =>
      match ObjectId i with
      | Some o =>
          let p := call o st in
          let q := handle_run call rest found p.2 in
          ((o, p.1) :: q.1, q.2)
      | None =>
          handle_run call rest
            (found ++ (doc_id <$> get_job_listing (ByName i) st)) st
      end
  end.

(** The queue when the arguments [pre] have been taken from the work
    list: the operation was applied to those of them that are ids. *)
Fixpoint store_after {R} (call : oid -> Store -> R * Store)
    (pre : list string) (st : Store) : Store :=
  match pre with
  | [] => st
  | i :: rest =>
      match ObjectId i with
      | Some o => store_after call rest (call o st).2
      | None => store_after call rest st
      end
  end.

Section Handle.

Context {R : Type}.
Variable call : oid -> Store -> R * Store.
Variable mk : oid * R -> line.

Lemma handle_found_prints found : forall c,
  handle_found call (fun p => print (mk p)) found c =
    (Returns tt,
     mkConsole (printed c ++ (mk <$> (found_run call found (store c)).1))
       (ticks c) (found_run call found (store c)).2).
Proof.
  induction found as [|i rest IH]; intros c; cbn.
  - rewrite app_nil_r. destruct c; reflexivity.
  - unfold mbind, SE_bind, queue_call, print.
    destruct (call i (store c)) as [r st1]. cbn.
    rewrite IH. cbn. rewrite <- app_assoc. reflexivity.
Qed.

Lemma handle_prints tokens : forall found c,
  _handle call (fun p => print (mk p)) tokens found c =
    (Returns tt,
     mkConsole
       (printed c ++ (mk <$> (handle_run call tokens found (store c)).1))
       (ticks c) (handle_run call tokens found (store c)).2).
Proof.
  induction tokens as [|i rest IH]; intros found c; cbn.
  - apply handle_found_prints.
  - destruct (ObjectId i) as [o|].
    + unfold mbind, SE_bind, queue_call, print.
      destruct (call o (store c)) as [r st1]. cbn.
      rewrite IH. cbn. rewrite <- app_assoc. reflexivity.
    + unfold mbind, SE_bind, read_store. rewrite IH. reflexivity.
Qed.

(** With fuel enough the loop over the one work list empties it and does
    what [_handle] does. *)
Lemma handle_worklist_found (body : oid * R -> SE console unit) found :
  forall c fuel,
    (List.length found <= fuel)%nat ->
    handle_worklist fuel call body (Found <$> found) c =
      (handle_found call body found;; mret true) c.
Proof.
  induction found as [|o rest IH]; intros c fuel Hfuel.
  - destruct fuel; reflexivity.
  - destruct fuel as [|fuel]; [cbn in Hfuel; lia|].
    cbn [fmap list_fmap handle_worklist handle_found].
    unfold mbind, SE_bind.
    destruct (queue_call call o c) as [[r|e] c1]; [|reflexivity].
    destruct (body (o, r) c1) as [[[]|e] c2]; [|reflexivity].
    rewrite IH by (cbn in Hfuel; lia). reflexivity.
Qed.

Lemma handle_worklist_agrees (body : oid * R -> SE console unit) tokens :
  forall found c,
    exists n, forall fuel, (n <= fuel)%nat ->
      handle_worklist fuel call body ((Arg <$> tokens) ++ (Found <$> found)) c
      = (_handle call body tokens found;; mret true) c.
Proof.
  induction tokens as [|i rest IH]; intros found c.
  - exists (List.length found). intros fuel Hfuel.
    apply handle_worklist_found, Hfuel.
  - cbn [fmap list_fmap app _handle].
    destruct (ObjectId i) as [o|] eqn:Hi.
    + destruct (queue_call call o c) as [[r|e] c1] eqn:Hcall.
      * destruct (body (o, r) c1) as [[[]|e] c2] eqn:Hbody.
        -- destruct (IH found c2) as [n Hn]. exists (S n).
           intros [|fuel] Hfuel; [lia|].
           cbn [handle_worklist]. rewrite Hi.
           unfold mbind, SE_bind. rewrite Hcall. cbv beta iota.
           rewrite Hbody. cbv beta iota.
           rewrite (Hn fuel) by lia. reflexivity.
        -- exists 1%nat. intros [|fuel] Hfuel; [lia|].
           cbn [handle_worklist]. rewrite Hi.
           unfold mbind, SE_bind. rewrite Hcall. cbv beta iota.
           rewrite Hbody. reflexivity.
      * exists 1%nat. intros [|fuel] Hfuel; [lia|].
        cbn [handle_worklist]. rewrite Hi.
        unfold mbind, SE_bind. rewrite Hcall. reflexivity.
    + destruct (IH (found ++ (doc_id <$> get_job_listing (ByName i) (store c)))
                  c) as [n Hn].
      exists (S n). intros [|fuel] Hfuel; [lia|].
      cbn [handle_worklist]. rewrite Hi.
      unfold mbind, SE_bind, read_store. cbv beta iota.
      rewrite <- app_assoc, <- fmap_app. rewrite (Hn fuel) by lia.
      reflexivity.
Qed.

(** Every id found for a name is reached. *)
Lemma found_run_all found : forall st o,
  o ∈ found -> exists r, (o, r) ∈ (found_run call found st).1.
Proof.
  induction found as [|i rest IH]; intros st o Ho; cbn.
  - inversion Ho.
  - apply elem_of_cons in Ho as [->|Ho].
    + eexists. left.
    + destruct (IH (call i st).2 o Ho) as [r Hr].
      exists r. right. exact Hr.
Qed.

Lemma handle_run_found tokens : forall found st o,
  o ∈ found -> exists r, (o, r) ∈ (handle_run call tokens found st).1.
Proof.
  induction tokens as [|i rest IH]; intros found st o Ho; cbn.
  - apply found_run_all, Ho.
  - destruct (ObjectId i) as [o'|].
    + destruct (IH found (call o' st).2 o Ho) as [r Hr].
      exists r. right. exact Hr.
    + apply IH. apply elem_of_app. left. exact Ho.
Qed.

(** What happens for the argument [t] that follows [pre]. *)
Lemma handle_run_token pre : forall t post found st,
  match ObjectId t with
  | Some o =>
      (o, (call o (store_after call pre st)).1)
        ∈ (handle_run call (pre ++ t :: post) found st).1
  | None =>
      forall d, d ∈ get_job_listing (ByName t) (store_after call pre st) ->
        exists r, (doc_id d, r)
                    ∈ (handle_run call (pre ++ t :: post) found st).1
  end.
Proof.
  induction pre as [|p pre IH]; intros t post found st; cbn.
  - destruct (ObjectId t) as [o|] eqn:Ht.
    + left.
    + intros d Hd. apply handle_run_found.
      apply elem_of_app. right. apply list_elem_of_fmap. eauto.
  - specialize (IH t post). destruct (ObjectId p) as [o'|]; cbn.
    + specialize (IH found (call o' st).2).
      destruct (ObjectId t) as [o|].
      * right. exact IH.
      * intros d Hd. destruct (IH d Hd) as [r Hr]. exists r. right.
        exact Hr.
    + apply IH.
Qed.

(** Where a yielded id comes from. *)
Definition from_tokens (tokens : list string) (st : Store) (o : oid)
  : Prop :=
  exists pre t post,
    tokens = pre ++ t :: post /\
    (ObjectId t = Some o \/
     (ObjectId t = None /\
      exists d, d ∈ get_job_listing (ByName t) (store_after call pre st)
                /\ doc_id d = o)).

Lemma from_tokens_cons_id p o' tokens st o :
  ObjectId p = Some o' ->
  from_tokens tokens (call o' st).2 o -> from_tokens (p :: tokens) st o.
Proof.
  intros Hp (pre & t & post & -> & H).
  exists (p :: pre), t, post. split; [reflexivity|].
  cbn. rewrite Hp. exact H.
Qed.

Lemma from_tokens_cons_name p tokens st o :
  ObjectId p = None ->
  from_tokens tokens st o -> from_tokens (p :: tokens) st o.
Proof.
  intros Hp (pre & t & post & -> & H).
  exists (p :: pre), t, post. split; [reflexivity|].
  cbn. rewrite Hp. exact H.
Qed.

Lemma found_run_only found : forall st o r,
  (o, r) ∈ (found_run call found st).1 -> o ∈ found.
Proof.
  induction found as [|i rest IH]; intros st o r Hin; cbn in Hin.
  - inversion Hin.
  - apply elem_of_cons in Hin as [[= -> _]|Hin]; [left|].
    right. eapply IH, Hin.
Qed.

Lemma handle_run_only tokens : forall found st o r,
  (o, r) ∈ (handle_run call tokens found st).1 ->
  o ∈ found \/ from_tokens tokens st o.
Proof.
  induction tokens as [|i rest IH]; intros found st o r Hin; cbn in Hin.
  - left. eapply found_run_only, Hin.
  - destruct (ObjectId i) as [o'|] eqn:Hi.
    + cbn in Hin. apply elem_of_cons in Hin as [[= -> _]|Hin].
      * right. exists [], i, rest. split; [reflexivity|]. left. exact Hi.
      * destruct (IH _ _ _ _ Hin) as [Hf|Hf]; [left; exact Hf|].
        right. eapply from_tokens_cons_id; eassumption.
    + destruct (IH _ _ _ _ Hin) as [Hf|Hf].
      * apply elem_of_app in Hf as [Hf|Hf]; [left; exact Hf|].
        apply list_elem_of_fmap in Hf as (d & -> & Hd).
        right. exists [], i, rest. split; [reflexivity|]. right.
        split; [exact Hi|]. exists d. split; [exact Hd | reflexivity].
      * right. apply from_tokens_cons_name; assumption.
Qed.

End Handle.

(** The ids appended to the work list for the arguments that are names, in
    the order they are appended. *)
Fixpoint found_for {R} (call : oid -> Store -> R * Store)
    (tokens : list string) (st : Store) : list oid :=
  match tokens with
  | [] => []
  | i :: rest =>
      match ObjectId i with
      | Some o => found_for call rest (call o st).2
      | None =>
          (doc_id <$> get_job_listing (ByName i) st) ++ found_for call rest st
      end
  end.

Lemma found_run_ids {R} (call : oid -> Store -> R * Store) found : forall st,
  (found_run call found st).1.*1 = found.
Proof.
  induction found as [|o rest IH]; intros st; [reflexivity|].
  cbn. f_equal. apply IH.
Qed.

Lemma handle_run_ids {R} (call : oid -> Store -> R * Store) tokens :
  forall found st,
    (handle_run call tokens found st).1.*1 =
      omap ObjectId tokens ++ found ++ found_for call tokens st.
Proof.
  induction tokens as [|i rest IH]; intros found st.
  - cbn. rewrite app_nil_r. apply found_run_ids.
  - cbn [handle_run omap list_omap found_for].
    destruct (ObjectId i) as [o|]; cbn.
    + f_equal. apply IH.
    + rewrite IH, <- app_assoc. reflexivity.
Qed.

Lemma handle_run_sequence {R} (call : oid -> Store -> R * Store) tokens :
  forall found st,
    handle_run call tokens found st =
      found_run call
        (omap ObjectId tokens ++ found ++ found_for call tokens st) st.
Proof.
  induction tokens as [|i rest IH]; intros found st.
  - cbn. rewrite app_nil_r. reflexivity.
  - cbn [handle_run omap list_omap found_for].
    destruct (ObjectId i) as [o|]; cbn.
    + rewrite IH. reflexivity.
    + rewrite IH, <- app_assoc. reflexivity.
Qed.

Lemma found_for_token {R} (call : oid -> Store -> R * Store) pre :
  forall t post st d,
    ObjectId t = None ->
    d ∈ get_job_listing (ByName t) (store_after call pre st) ->
    doc_id d ∈ found_for call (pre ++ t :: post) st.
Proof.
  induction pre as [|p pre IH]; intros t post st d Ht Hd; cbn in *.
  - rewrite Ht. apply elem_of_app. left.
    apply list_elem_of_fmap. exists d. split; [reflexivity | exact Hd].
  - destruct (ObjectId p) as [o|].
    + apply IH; assumption.
    + apply elem_of_app. right. apply IH; assumption.
Qed.

(** Modelled from the spec: the terminal states (section 3); a job in
    any other state is non-terminal. *)
Definition terminal_states : list string :=
  [STATE_COMPLETE; STATE_INACTIVE; STATE_ERROR; STATE_KILLED].

(** Modelled from the spec: a job that is in no terminal state. *)
Definition non_terminal (job : job_doc) : Prop :=
  state job ∉ terminal_states.

(** The ids a subcommand run on the arguments [_id] applies its
    operation to, in the order it does: the arguments that are ids, then
    the ids [get_job_listing] gave for the arguments that are names. *)
Definition applied_ids {R} (call : oid -> Store -> R * Store)
    (_id : list string) (c : console) : list oid :=
  omap ObjectId (py_set _id) ++ found_for call (py_set _id) (store c).

(** What the specification says of a subcommand run on the arguments
    [_id] from the state [c] with the result [result]: the run returns;
    the queue operation has been applied to the ids of [applied_ids],
    one after the other, each on the queue the one before left, a line
    has been printed for each with what the operation returned, and the
    queue left behind is the one the last of them left; every argument
    that is an id is among them; so is, for an argument that is not,
    every id [get_job_listing] finds for it as a name when the argument
    is taken from the work list; they hold nothing else; and when
    [get_job_listing] lists at least the non-terminal jobs of a name,
    every non-terminal job of the queue with the name of an argument is
    among them. *)
Definition applied_to_ids_and_names {R} (call : oid -> Store -> R * Store)
    (mk : oid * R -> line) (_id : list string) (c : console)
    (result : outcome unit * console) : Prop :=
  result =
    (Returns tt,
     mkConsole
       (printed c ++
          (mk <$> (found_run call (applied_ids call _id c) (store c)).1))
       (ticks c) (found_run call (applied_ids call _id c) (store c)).2) /\
  (forall t, t ∈ _id ->
     exists pre post,
       py_set _id = pre ++ t :: post /\
       match ObjectId t with
       | Some o => o ∈ applied_ids call _id c
       | None =>
           forall d,
             d ∈ get_job_listing (ByName t)
                   (store_after call pre (store c)) ->
             doc_id d ∈ applied_ids call _id c
       end) /\
  (forall o, o ∈ applied_ids call _id c ->
     from_tokens call (py_set _id) (store c) o) /\
  (forall jobs : Store -> list job_doc,
     (forall n st d,
        d ∈ jobs st -> name d = n -> non_terminal d ->
        d ∈ get_job_listing (ByName n) st) ->
     forall pre t post d,
       py_set _id = pre ++ t :: post -> ObjectId t = None ->
       d ∈ jobs (store_after call pre (store c)) ->
       name d = t -> non_terminal d ->
       doc_id d ∈ applied_ids call _id c).

Lemma handle_applied {R} (call : oid -> Store -> R * Store)
    (mk : oid * R -> line) (_id : list string) (c : console) :
  applied_to_ids_and_names call mk _id c
    (_handle call (fun p => print (mk p)) (py_set _id) [] c).
Proof.
  unfold applied_to_ids_and_names, applied_ids.
  split; [|split; [|split]].
  - rewrite handle_prints, handle_run_sequence. reflexivity.
  - intros t Ht. apply py_set_elem in Ht.
    destruct (list_elem_of_split _ _ Ht) as (pre & post & Hsplit).
    exists pre, post. split; [exact Hsplit|].
    destruct (ObjectId t) as [o|] eqn:Hid.
    + apply elem_of_app. left. apply list_elem_of_omap.
      exists t. split; [exact Ht | exact Hid].
    + intros d Hd. apply elem_of_app. right. rewrite Hsplit.
      apply found_for_token; assumption.
  - intros o Ho.
    assert (Hin : o ∈ (handle_run call (py_set _id) [] (store c)).1.*1).
    { rewrite handle_run_ids. exact Ho. }
    apply list_elem_of_fmap in Hin as ([o' r] & -> & Hin).
    destruct (handle_run_only call _ _ _ _ _ Hin) as [Hf|Hf];
      [inversion Hf | exact Hf].
  - intros jobs Hlists pre t post d Hsplit Hid Hd Hname Hstate.
    apply elem_of_app. right. rewrite Hsplit.
    apply found_for_token; [exact Hid|]. apply Hlists; assumption.
Qed.

(** C8: [remove], [restart] and [kill] each return, and each applies its
    queue operation to the argument itself when the argument is an id
    and, when it is not, to every id found for the argument as a name,
    so to every non-terminal job of that name that [get_job_listing]
    lists; the lines printed and the queue left behind are those of the
    operation applied to these ids in turn. *)
Theorem subcommands_take_ids_and_names _id c :
  applied_to_ids_and_names remove_job removed_line _id c (remove _id c) /\
  applied_to_ids_and_names restart_job restarted_line _id c (restart _id c) /\
  applied_to_ids_and_names kill_job killed_line _id c (kill _id c).
Proof.
  unfold remove, restart, kill.
  split; [|split]; apply handle_applied.
Qed.

(** *** [enqueue] *)

(** The pattern of [enqueue]: start, blanks, a group of word characters,
    blanks, a colon or an equals sign, blanks, a group of anything but
    newlines, blanks, end. *)
Definition enqueue_pattern : list Re.item :=
  [Re.Bos; Re.Star Re.Space;
   Re.Open; Re.Plus Re.Word; Re.Close;
   Re.Star Re.Space; Re.One (Re.OneOf [":"%char; "="%char]);
   Re.Star Re.Space;
   Re.Open; Re.Plus Re.Dot; Re.Close;
   Re.Star Re.Space; Re.Eos].

(** The double quote. *)
Definition dquote : string :=
  String (Ascii false true false false false true false false) EmptyString.

(** The replacement: group 1 in double quotes, a colon, a blank, group
    2. *)
Definition enqueue_repl (groups : list string) : string :=
  dquote +:+ default EmptyString (groups !! 0%nat) +:+ dquote +:+ ": "
    +:+ default EmptyString (groups !! 1%nat).

Definition rewrite_arg (a : string) : string :=
  Re.sub enqueue_pattern enqueue_repl a.

(** [json.loads] is outside the repository: the parsed value, or [None]
    when it raises; [json_empty] is the empty dict, [tuple_str] is [str]
    of the tuple of arguments. *)
Variable json : Type.
Variable json_loads : string -> option json.
Variable json_empty : json.
Variable tuple_str : list string -> string.

(** The text handed to [json.loads] first. *)
Definition enqueue_js (args : list string) : string :=
  "{" +:+ Py.join ", " (rewrite_arg <$> args) +:+ "}".

(** The part of [enqueue] that builds [data].  When the single argument
    does not parse either, the exception is the one [json.loads] raised,
    here a [JSONDecodeError] carrying the argument. *)
Definition enqueue_data (args : list string) : outcome json :=
  match args with
  | [] => Returns json_empty
  | _ =>
      match json_loads (enqueue_js args) with
      | Some data => Returns data
      | None =>
          match args with
          | [a] =>
              match json_loads a with
              | Some data => Returns data
              | None => Raises (JSONDecodeError a)
              end
          | _ =>
              Raises (JSONDecodeError ("failed to parse " +:+ tuple_str args))
          end
      end
  end.

(** [QUEUE.enqueue] and the fall back to [exec_project] on [ImportError]
    are outside [src/]: the text printed for the new job, or an
    exception. *)
Variable enqueue_job : string -> json -> Store -> outcome string * Store.

Definition enqueue (qual_name : string) (args : list string)
  : SE console unit :=
  print (Text ("enqueueing [" +:+ qual_name +:+ "]"));;
  data ← (fun c => (enqueue_data args, c));
  job_id ← (fun c => match enqueue_job qual_name data (store c) with
                     | (r, st) => (r, mkConsole (printed c) (ticks c) st)
                     end);
  print (Text job_id).

(** *** Facts about [enqueue] *)

(** The pattern on a token K, separator, V: K of word characters, V
    without newline and not beginning with a blank.  Group 1 is K, group
    2 is V, and nothing is left over. *)
Lemma enqueue_pattern_matches k0 K sep v0 V :
  Py.isword k0 = true -> Re.all_chars Py.isword K = true ->
  sep = ":"%char \/ sep = "="%char ->
  Py.isspace v0 = false ->
  Re.all_chars (Re.in_cls Re.Dot) (String v0 V) = true ->
  exists m,
    Re.match_items enqueue_pattern
      (String k0 K +:+ String sep (String v0 V)) (Re.mkM [] None 0)
    = Some (m, EmptyString) /\
    Re.caps m = [String k0 K; String v0 V].
Proof.
  intros Hk0 HK Hsep Hv0 HV.
  assert (Hsepw : Py.isword sep = false)
    by (destruct Hsep as [H|H]; rewrite H; reflexivity).
  assert (Hseps : Py.isspace sep = false)
    by (destruct Hsep as [H|H]; rewrite H; reflexivity).
  assert (Hsepin : Re.in_cls (Re.OneOf [":"%char; "="%char]) sep = true).
  { apply bool_decide_eq_true_2.
    destruct Hsep as [H|H]; rewrite H; [left | right; left]. }
  cbn [Re.all_chars] in HV. apply andb_prop in HV as [Hv0d HV].
  eexists. unfold enqueue_pattern.
  change (String k0 K +:+ String sep (String v0 V))
    with (String k0 (K +:+ String sep (String v0 V))).
  rewrite Re.match_bos by reflexivity.
  rewrite Re.match_star_skip
    by (cbn; rewrite (Re.word_not_space _ Hk0); reflexivity).
  rewrite Re.match_open.
  split.
  - apply Re.match_plus_all;
      [exact Hk0 | exact HK | cbn; rewrite Hsepw; reflexivity |].
    rewrite Re.match_close.
    rewrite Re.match_star_skip by (cbn; rewrite Hseps; reflexivity).
    rewrite Re.match_one by exact Hsepin.
    rewrite Re.match_star_skip by (cbn; rewrite Hv0; reflexivity).
    rewrite Re.match_open.
    rewrite <- (Re.app_nil_r V) at 1.
    apply Re.match_plus_all; [exact Hv0d | exact HV | reflexivity |].
    rewrite Re.match_close.
    rewrite Re.match_star_skip by reflexivity.
    rewrite Re.match_eos_end. reflexivity.
  - cbn. rewrite !Re.takes_caps, !Re.takes_opened. cbn.
    rewrite ?Re.takes_caps, ?Re.takes_opened. reflexivity.
Qed.

Lemma rewrite_key_value K sep V :
  K <> EmptyString -> Re.all_chars Py.isword K = true ->
  sep = ":"%char \/ sep = "="%char ->
  V <> EmptyString -> Re.stops Py.isspace V = true ->
  Re.all_chars (Re.in_cls Re.Dot) V = true ->
  rewrite_arg (K +:+ String sep V) = dquote +:+ K +:+ dquote +:+ ": " +:+ V.
Proof.
  intros HK0 HK Hsep HV0 HVs HV.
  destruct K as [|k0 K]; [congruence|]. destruct V as [|v0 V]; [congruence|].
  cbn [Re.all_chars] in HK. apply andb_prop in HK as [Hk0 HK].
  cbn [Re.stops] in HVs. apply negb_true_iff in HVs.
  destruct (enqueue_pattern_matches k0 K sep v0 V Hk0 HK Hsep HVs HV)
    as (m & Hm & Hcaps).
  unfold rewrite_arg, Re.sub. rewrite Hm. unfold enqueue_repl.
  rewrite Hcaps. cbn [lookup list_lookup default].
  rewrite Re.app_nil_r. reflexivity.
Qed.

(** What [enqueue] does with the data, or with the failure to build
    them. *)
Lemma enqueue_runs qual_name args c :
  enqueue qual_name args c =
    let announced :=
      printed c ++ [Text ("enqueueing [" +:+ qual_name +:+ "]")] in
    match enqueue_data args with
    | Raises e => (Raises e, mkConsole announced (ticks c) (store c))
    | Returns data =>
        match enqueue_job qual_name data (store c) with
        | (Returns job_id, st) =>
            (Returns tt, mkConsole (announced ++ [Text job_id]) (ticks c) st)
        | (Raises e, st) => (Raises e, mkConsole announced (ticks c) st)
        end
    end.
Proof.
  unfold enqueue, mbind, SE_bind, print. cbn.
  destruct (enqueue_data args) as [data|e]; [|reflexivity].
  destruct (enqueue_job qual_name data (store c)) as [[job_id|e] st];
    reflexivity.
Qed.

(** C5: a token K=V, with K of word characters and V a text without
    newline that does not begin with a blank, is rewritten to K in double
    quotes, a colon, a blank and V; the rewritten tokens, joined by a
    comma and a blank and put in braces, are parsed; when that fails and
    there is exactly one token, the token itself is parsed; when it fails
    and there are more, or the single token does not parse either, the
    command fails with a [JSONDecodeError]: [enqueue] raises it after the
    line that announces the job, and the queue is not called.  What was
    parsed is what [enqueue] hands to the queue. *)
Theorem enqueue_argument_parsing K V args :
  K <> EmptyString -> Re.all_chars Py.isword K = true ->
  V <> EmptyString -> Re.stops Py.isspace V = true ->
  Re.all_chars (Re.in_cls Re.Dot) V = true ->
  args <> [] ->
  let js := "{" +:+ Py.join ", " (rewrite_arg <$> args) +:+ "}" in
  rewrite_arg (K +:+ "=" +:+ V) = dquote +:+ K +:+ dquote +:+ ": " +:+ V /\
  (forall data,
     json_loads js = Some data -> enqueue_data args = Returns data) /\
  (forall a,
     args = [a] -> json_loads js = None ->
     enqueue_data args =
       match json_loads a with
       | Some data => Returns data
       | None => Raises (JSONDecodeError a)
       end) /\
  (List.length args <> 1%nat -> json_loads js = None ->
   enqueue_data args =
     Raises (JSONDecodeError ("failed to parse " +:+ tuple_str args))) /\
  (forall qual_name c,
     let announced :=
       printed c ++ [Text ("enqueueing [" +:+ qual_name +:+ "]")] in
     (forall data,
        json_loads js = Some data \/
        (exists a, args = [a] /\ json_loads js = None /\
                   json_loads a = Some data) ->
        enqueue qual_name args c =
          match enqueue_job qual_name data (store c) with
          | (Returns job_id, st) =>
              (Returns tt,
               mkConsole (announced ++ [Text job_id]) (ticks c) st)
          | (Raises e, st) => (Raises e, mkConsole announced (ticks c) st)
          end) /\
     (json_loads js = None ->
      (forall a, args = [a] -> json_loads a = None) ->
      exists msg,
        enqueue qual_name args c =
          (Raises (JSONDecodeError msg),
           mkConsole announced (ticks c) (store c)))).
Proof.
  intros HK0 HK HV0 HVs HV Hargs js.
  assert (Hparsed : forall data,
            json_loads js = Some data -> enqueue_data args = Returns data).
  { intros data Hjs. unfold enqueue_data. fold (enqueue_js args).
    change (enqueue_js args) with js. rewrite Hjs.
    destruct args; [congruence | reflexivity]. }
  assert (Hsingle : forall a,
            args = [a] -> json_loads js = None ->
            enqueue_data args =
              match json_loads a with
              | Some data => Returns data
              | None => Raises (JSONDecodeError a)
              end).
  { intros a -> Hjs. unfold enqueue_data.
    change (enqueue_js [a]) with js. rewrite Hjs. reflexivity. }
  assert (Hmore : List.length args <> 1%nat -> json_loads js = None ->
            enqueue_data args =
              Raises (JSONDecodeError
                        ("failed to parse " +:+ tuple_str args))).
  { intros Hlen Hjs. unfold enqueue_data.
    change (enqueue_js args) with js. rewrite Hjs.
    destruct args as [|a [|b rest]]; [congruence | | reflexivity].
    cbn in Hlen. congruence. }
  split; [|split; [|split; [|split]]]; try assumption.
  - apply (rewrite_key_value K "="%char V);
      first [assumption | right; reflexivity].
  - intros qual_name c announced. split.
    + intros data Hdata. rewrite enqueue_runs. cbv zeta.
      destruct Hdata as [Hjs|(a & Hone & Hjs & Ha)].
      * rewrite (Hparsed data Hjs). reflexivity.
      * rewrite (Hsingle _ Hone Hjs), Ha. reflexivity.
    + intros Hjs Hnone. rewrite enqueue_runs. cbv zeta.
      destruct args as [|a [|b rest]]; [congruence| |].
      * rewrite (Hsingle a eq_refl Hjs), (Hnone a eq_refl).
        eexists. reflexivity.
      * rewrite Hmore by (cbn; congruence || exact Hjs).
        eexists. reflexivity.
Qed.

(** *** More about [listing] *)

Lemma listing_filter_collects state : forall filter c,
  Forall known_state state -> NoDup filter ->
  exists filter',
    listing_filter state filter c = (Returns filter', c) /\
    NoDup filter' /\
    forall x, x ∈ filter' <->
              x ∈ filter \/ x ∈ (fun s => Py.strip (Py.lower s)) <$> state.
Proof.
  induction state as [|s rest IH]; intros filter c Hall Hnd.
  - exists filter. split; [reflexivity|]. split; [exact Hnd|].
    intros x. split; [intros H; left; exact H|].
    intros [H|H]; [exact H | inversion H].
  - inversion Hall as [|? ? Hs Hrest]; subst.
    cbn [listing_filter]. rewrite bool_decide_eq_true_2 by exact Hs.
    destruct (decide (Py.strip (Py.lower s) ∈ filter)) as [Hin|Hout].
    + rewrite bool_decide_eq_true_2 by exact Hin.
      destruct (IH filter c Hrest Hnd) as (f & Hf & Hndf & Hmem).
      exists f. split; [exact Hf|]. split; [exact Hndf|].
      intros x. rewrite Hmem. cbn [fmap list_fmap]. rewrite elem_of_cons.
      split; [intros [H|H]; [left | right; right]; exact H|].
      intros [H|[->|H]]; [left; exact H | left; exact Hin | right; exact H].
    + rewrite bool_decide_eq_false_2 by exact Hout.
      destruct (IH (filter ++ [Py.strip (Py.lower s)]) c Hrest)
        as (f & Hf & Hndf & Hmem).
      { apply NoDup_app. split; [exact Hnd|]. split.
        - intros x Hx Hx'. apply list_elem_of_singleton in Hx'. subst x.
          exact (Hout Hx).
        - apply NoDup_singleton. }
      exists f. split; [exact Hf|]. split; [exact Hndf|].
      intros x. rewrite Hmem, elem_of_app, list_elem_of_singleton.
      cbn [fmap list_fmap]. rewrite elem_of_cons.
      split; [intros [[H|H]|H] | intros [H|[H|H]]];
        first [ left; left; exact H | left; right; exact H | left; exact H
              | right; left; exact H | right; right; exact H | right; exact H ].
Qed.

(** X4: the state filter [listing] builds from arguments that are all
    states names every one of them, lowered and stripped, exactly once,
    however often and in whatever spelling it was given; building it
    prints nothing and reads neither clock nor queue. *)
Theorem listing_filter_distinct state c :
  Forall known_state state ->
  exists filter,
    listing_filter state [] c = (Returns filter, c) /\
    NoDup filter /\
    (forall x, x ∈ filter <->
               x ∈ (fun s => Py.strip (Py.lower s)) <$> state) /\
    (filter = [] <-> state = []).
Proof.
  intros Hall.
  destruct (listing_filter_collects state [] c Hall NoDup_nil_2)
    as (f & Hf & Hnd & Hmem).
  exists f. split; [exact Hf|]. split; [exact Hnd|].
  assert (Hmem' : forall x, x ∈ f <->
                    x ∈ (fun s => Py.strip (Py.lower s)) <$> state).
  { intros x. rewrite Hmem. split; [intros [H|H]; [inversion H | exact H]|].
    intros H. right. exact H. }
  split; [exact Hmem'|]. split.
  - intros ->. destruct state as [|s rest]; [reflexivity|].
    exfalso. assert (H : Py.strip (Py.lower s) ∈ @nil string).
    { apply Hmem'. left. }
    inversion H.
  - intros ->. destruct f as [|x f]; [reflexivity|].
    exfalso. assert (H : x ∈ @nil string).
    { apply (proj1 (Hmem' x)). left. }
    inversion H.
Qed.

Lemma foldl_max_bound {A} (f : A -> option nat) (l : list A) : forall init,
  (init <= foldl (fun m x => if f x is Some n then Nat.max m n else m) init l)%nat
  /\
  Forall (fun x => forall n, f x = Some n ->
            (n <= foldl (fun m x => if f x is Some n then Nat.max m n else m)
                    init l)%nat) l.
Proof.
  induction l as [|x l IH]; intros init; cbn [foldl].
  - split; [lia | constructor].
  - destruct (IH (if f x is Some n then Nat.max init n else init))
      as [Hinit Hall].
    split.
    + destruct (f x); lia.
    + constructor; [|exact Hall].
      intros n Hn. rewrite Hn in Hinit |- *. lia.
Qed.

Lemma foldl_max_attained {A} (f : A -> option nat) (l : list A) : forall init,
  foldl (fun m x => if f x is Some n then Nat.max m n else m) init l = init \/
  Exists (fun x => f x
                   = Some (foldl (fun m x => if f x is Some n
                                             then Nat.max m n else m) init l))
    l.
Proof.
  induction l as [|x l IH]; intros init; cbn [foldl]; [left; reflexivity|].
  destruct (IH (if f x is Some n then Nat.max init n else init)) as [Heq|Hex].
  - rewrite Heq. destruct (f x) as [n|] eqn:Hx; [|left; reflexivity].
    destruct (Nat.max_spec init n) as [[_ ->]|[_ ->]];
      [right; constructor; exact Hx | left; reflexivity].
  - right. apply Exists_cons_tl. exact Hex.
Qed.

(** X5: when [listing] returns, it has asked the queue with the filter
    of its arguments and printed the one line [no jobs.] if the queue
    gave no record; otherwise a header, a rule and one row per record, in
    order.  The name column of the rule is as wide as the longest job
    name; the worker column is as wide as the longest worker name of a
    locked job, and 6 wide when none is longer. *)
Theorem listing_rule_covers state c c' :
  listing state c = (Returns tt, c') ->
  exists filter,
    listing_filter state [] c = (Returns filter, c) /\
    let rec :=
      get_job_listing (if filter is [] then NoFilter else ByState filter)
        (store c) in
    match rec with
    | [] => printed c' = printed c ++ [Text "no jobs."]
    | _ =>
        exists mxworker mx rows,
          printed c' =
            printed c ++
            [ListingHeader mxworker;
             ListingRuler [24; 8; 4; 4; 4; 7; 6; 19; 19; 11; mxworker; mx]%nat]
            ++ (ListingRow <$> rows) /\
          Forall2 shows rec rows /\
          Forall (fun job =>
                    (String.length (name job) <= mx)%nat /\
                    forall w, locked job = Some w ->
                              (String.length w <= mxworker)%nat) rec /\
          Exists (fun job => String.length (name job) = mx) rec /\
          (6 <= mxworker)%nat /\
          (mxworker = 6%nat \/
           Exists (fun job => exists w, locked job = Some w /\
                                        String.length w = mxworker) rec)
    end.
Proof.
  intros Hret.
  destruct (decide (Forall known_state state)) as [Hall|Hn].
  2:{ destruct (listing_unknown_raises state c Hn) as (e & c1 & He).
      rewrite He in Hret. discriminate. }
  destruct (listing_filter_known state [] c Hall) as [filter Hf].
  exists filter. split; [exact Hf|].
  unfold listing, mbind, SE_bind in Hret. rewrite Hf in Hret.
  unfold read_store in Hret. cbn zeta.
  destruct (get_job_listing _ (store c)) as [|job rest] eqn:Hrec.
  - cbn in Hret. unfold mret, SE_ret in Hret. injection Hret as <-.
    reflexivity.
  - remember (job :: rest) as rec eqn:Erec.
    assert (Hne : rec <> []) by (subst rec; discriminate).
    cbv beta iota zeta in Hret.
    replace (if rec is [] then print (Text "no jobs.") else _)
      with (print (ListingHeader
                     (foldl (fun m j => if locked j is Some w
                                        then Nat.max m (String.length w)
                                        else m) 6%nat rec));;
            print (ListingRuler
                     [24; 8; 4; 4; 4; 7; 6; 19; 19; 11;
                      foldl (fun m j => if locked j is Some w
                                        then Nat.max m (String.length w)
                                        else m) 6%nat rec;
                      foldl (fun m j => Nat.max m (String.length (name j)))
                        0%nat rec]%nat)) in Hret
      by (subst rec; reflexivity).
    unfold mbind, SE_bind, print in Hret. cbn [printed ticks store] in Hret.
    apply listing_rows_returns in Hret.
    destruct Hret as (rows & Hp & _ & Hshows). cbn [printed] in Hp.
    eexists _, _, rows.
    split; [rewrite Hp, <- !app_assoc; reflexivity|].
    split; [exact Hshows|].
    assert (Ew : forall l init,
      foldl (fun m (x : job_doc) =>
               if String.length <$> locked x is Some n
               then Nat.max m n else m) init l =
      foldl (fun m (x : job_doc) =>
               if locked x is Some w
               then Nat.max m (String.length w) else m) init l).
    { induction l as [|x l IHl]; intros init; [reflexivity|].
      cbn [foldl]. rewrite <- IHl. destruct (locked x); reflexivity. }
    assert (En : forall l init,
      foldl (fun m (x : job_doc) =>
               if Some (String.length (name x)) is Some n
               then Nat.max m n else m) init l =
      foldl (fun m (x : job_doc) => Nat.max m (String.length (name x)))
        init l) by reflexivity.
    pose proof (foldl_max_bound
                  (fun j : job_doc => String.length <$> locked j)
                  rec 6%nat) as [H6 Hw].
    pose proof (foldl_max_bound
                  (fun j : job_doc => Some (String.length (name j)))
                  rec 0%nat) as [_ Hn].
    pose proof (foldl_max_attained
                  (fun j : job_doc => String.length <$> locked j)
                  rec 6%nat) as Haw.
    pose proof (foldl_max_attained
                  (fun j : job_doc => Some (String.length (name j)))
                  rec 0%nat) as Han.
    rewrite Ew in H6, Hw, Haw. clear En. cbv beta iota in Hn, Han.
    split; [|split; [|split; [exact H6|]]].
    + apply Forall_forall. intros j Hj.
      rewrite Forall_forall in Hw, Hn. split.
      * apply (Hn j Hj). reflexivity.
      * intros w Hlocked. apply (Hw j Hj). rewrite Hlocked. reflexivity.
    + destruct Han as [H0|Hex].
      * rewrite H0 in Hn |- *. subst rec. apply Exists_cons_hd.
        inversion Hn as [|? ? Hjob _]; subst.
        specialize (Hjob _ eq_refl). lia.
      * eapply Exists_impl; [exact Hex|]. intros j Hj. cbv beta in Hj.
        injection Hj as Hj. exact Hj.
    + destruct Haw as [H0|Hex]; [left; exact H0|]. right.
      eapply Exists_impl; [exact Hex|]. intros j Hj. cbv beta in Hj.
      destruct (locked j) as [w|]; [|discriminate].
      exists w. split; [reflexivity|]. injection Hj as Hj. exact Hj.
Qed.

(** *** More about [enqueue] *)

(** Repetition of blanks fails when the rest of the pattern fails wherever
    the text goes on outside the class [q], no blank is in [q], and after
    the leading blanks the text goes on outside [q]. *)
Lemma star_space_none {X} (q : ascii -> bool) :
  (forall c, Py.isspace c = true -> q c = false) ->
  forall s m (k : string -> Re.mstate -> option X),
    (forall t m', Re.stops q t = true -> k t m' = None) ->
    Re.stops q (Py.lstrip s) = true ->
    Re.star Py.isspace s m k = None.
Proof.
  intros Hpq s. induction s as [|c s IH]; intros m k Hk Hstop.
  - cbn. apply Hk. reflexivity.
  - cbn [Re.star]. cbn [Py.lstrip] in Hstop.
    destruct (Py.isspace c) eqn:Hc.
    + rewrite (IH (Re.take c m) k Hk Hstop).
      apply Hk. cbn. rewrite (Hpq c Hc). reflexivity.
    + apply Hk. exact Hstop.
Qed.

Lemma space_not_word c : Py.isspace c = true -> Py.isword c = false.
Proof.
  intros Hs. destruct (Py.isword c) eqn:Hw; [|reflexivity].
  rewrite (Re.word_not_space c Hw) in Hs. discriminate.
Qed.

(** X6: an argument that, after leading blanks, does not go on with a
    letter, a digit or an underscore is not rewritten: text that begins
    with a brace, a bracket or a quote reaches [json.loads] as it was
    given. *)
Theorem rewrite_arg_keeps_other_text a :
  Re.stops Py.isword (Py.lstrip a) = true ->
  rewrite_arg a = a.
Proof.
  intros Hstop. unfold rewrite_arg, Re.sub, enqueue_pattern.
  rewrite Re.match_bos by reflexivity.
  cbn [Re.match_items].
  change (Re.in_cls Re.Space) with Py.isspace.
  rewrite (star_space_none Py.isword space_not_word); [reflexivity| |exact Hstop].
  intros t m' Ht. destruct t as [|c t]; [reflexivity|].
  cbn in Ht. apply negb_true_iff in Ht. cbn [Re.in_cls].
  rewrite Ht. reflexivity.
Qed.

(** X7: when the arguments do not parse, [enqueue] has announced the job
    and raises; the queue is not called and stays as it was. *)
Theorem enqueue_parse_error_leaves_queue qual_name args c e :
  enqueue_data args = Raises e ->
  enqueue qual_name args c =
    (Raises e,
     mkConsole (printed c ++ [Text ("enqueueing [" +:+ qual_name +:+ "]")])
       (ticks c) (store c)).
Proof.
  intros Hdata. unfold enqueue, mbind, SE_bind, print. cbn.
  rewrite Hdata. reflexivity.
Qed.

(** *** More about [_handle] *)

(** The id a line of [remove], [restart] or [kill] is about. *)
Definition line_id (l : line) : option oid :=
  match l with
  | Removed i | FailedToRemove i | Restarted i _ | FailedToRestart i
  | Killed i | FailedToKill i => Some i
  | _ => None
  end.

Lemma line_id_made {R} (mk : oid * R -> line) (l : list (oid * R)) :
  (forall p, line_id (mk p) = Some p.1) ->
  omap line_id (mk <$> l) = l.*1.
Proof.
  intros Hmk. induction l as [|p l IH]; [reflexivity|].
  cbn. rewrite Hmk. cbn. f_equal. exact IH.
Qed.

(** X8: [remove], [restart] and [kill] handle the arguments that are ids
    first, in the order the arguments are taken, and only then the ids
    found for the arguments that are names. *)
Theorem subcommands_handle_ids_first _id c :
  omap line_id (drop (List.length (printed c)) (printed (remove _id c).2)) =
    omap ObjectId (py_set _id)
      ++ found_for remove_job (py_set _id) (store c) /\
  omap line_id (drop (List.length (printed c)) (printed (restart _id c).2)) =
    omap ObjectId (py_set _id)
      ++ found_for restart_job (py_set _id) (store c) /\
  omap line_id (drop (List.length (printed c)) (printed (kill _id c).2)) =
    omap ObjectId (py_set _id)
      ++ found_for kill_job (py_set _id) (store c).
Proof.
  unfold remove, restart, kill. rewrite !handle_prints. cbn [snd printed].
  rewrite !drop_app_length.
  rewrite !line_id_made, !handle_run_ids.
  - repeat split; reflexivity.
  - intros [o []]; reflexivity.
  - intros [o [n|]]; reflexivity.
  - intros [o []]; reflexivity.
Qed.

(** X9: the loop [while _id] of [_handle], which appends to the list it
    takes from, comes to an end: run on the arguments of [remove] with
    turns enough, it empties its work list and has done what [remove]
    does. *)
Theorem remove_worklist_ends _id c :
  exists n, forall fuel, (n <= fuel)%nat ->
    handle_worklist fuel remove_job (fun p => print (removed_line p))
      (Arg <$> py_set _id) c
    = (remove _id;; mret true) c.
Proof.
  destruct (handle_worklist_agrees remove_job
              (fun p => print (removed_line p)) (py_set _id) [] c) as [n Hn].
  exists n. intros fuel Hfuel. specialize (Hn fuel Hfuel).
  cbn [fmap list_fmap] in Hn. rewrite app_nil_r in Hn. exact Hn.
Qed.

(** *** [detail] *)

(** [QUEUE.job_detail] and [QUEUE.get_job_stdout] are outside [src/]: the
    text [pprint] prints for the one, [str] of the other. *)
Variable job_detail : oid -> Store -> string.
Variable get_job_stdout : oid -> Store -> string.

(** The [else] branch of [detail]: the job, a rule of 80 dashes, and its
    standard output. *)
Definition detail_lines (o : oid) (st : Store) : list line :=
  [Text (job_detail o st);
   Text (PyMore.times "-" 80);
   Text ("STDOUT:" +:+ PyMore.newline +:+ get_job_stdout o st)].

Definition show_detail (o : oid) : SE console unit :=
  d ← read_store (job_detail o);
  print (Text d);;
  print (Text (PyMore.times "-" 80));;
  stdout ← read_store (get_job_stdout o);
  print (Text ("STDOUT:" +:+ PyMore.newline +:+ stdout)).

(** [detail], with the work list split as for [_handle].  Here the inner
    [for] loop ends at its first job and the [while] loop ends at the first
    entry that is an id. *)
Fixpoint detail_loop (tokens : list string) (found : list oid)
  : SE console unit :=
  match tokens with
  | [] =>
      match found with
      | o :: _ => show_detail o
      | [] => mret tt
      end
  | i :: rest =>
      match ObjectId i with
      | Some o => show_detail o
      | None =>
          jobs ← read_store (get_job_listing (ByName i));
          detail_loop rest
            (found ++ match jobs with job :: _ => [doc_id job] | [] => [] end)
      end
  end.

Definition detail (_id : list string) : SE console unit :=
  detail_loop _id [].

(** The job [detail] shows: the first argument that is an id; when no
    argument is one, the first job found for the first argument that, as a
    name, has a job. *)
Definition detail_target (_id : list string) (st : Store) : option oid :=
  match omap ObjectId _id with
  | o :: _ => Some o
  | [] =>
      head (omap (fun i => head (doc_id <$> get_job_listing (ByName i) st))
              _id)
  end.

Lemma show_detail_prints o c :
  show_detail o c =
    (Returns tt,
     mkConsole (printed c ++ detail_lines o (store c)) (ticks c) (store c)).
Proof.
  unfold show_detail, detail_lines, mbind, SE_bind, read_store, print. cbn.
  rewrite <- !app_assoc. reflexivity.
Qed.

Lemma detail_loop_shows tokens : forall found c,
  detail_loop tokens found c =
    (Returns tt,
     mkConsole
       (printed c ++
          match
            match omap ObjectId tokens with
            | o :: _ => Some o
            | [] =>
                head (found ++
                        omap (fun i =>
                                head (doc_id <$>
                                        get_job_listing (ByName i) (store c)))
                          tokens)
            end
          with
          | Some o => detail_lines o (store c)
          | None => []
          end)
       (ticks c) (store c)).
Proof.
  induction tokens as [|i rest IH]; intros found c.
  - cbn [detail_loop omap list_omap]. rewrite app_nil_r.
    destruct found as [|o found]; cbn [head].
    + rewrite app_nil_r. destruct c; reflexivity.
    + apply show_detail_prints.
  - cbn [detail_loop omap list_omap].
    destruct (ObjectId i) as [o|] eqn:Hi.
    + apply show_detail_prints.
    + unfold mbind, SE_bind, read_store. rewrite IH.
      destruct (omap ObjectId rest) as [|o os]; [|reflexivity].
      destruct (get_job_listing (ByName i) (store c)) as [|job jobs];
        cbn [fmap list_fmap head]; rewrite <- ?app_assoc; reflexivity.
Qed.

(** X10: [detail] shows one job at most, and reads the queue only: the
    first argument that is an id, whatever names stand before it; when no
    argument is an id, the first job found for the first name that has
    one; and nothing when there is neither. *)
Theorem detail_shows_first_id _id c :
  detail _id c =
    (Returns tt,
     mkConsole
       (printed c ++
          match detail_target _id (store c) with
          | Some o => detail_lines o (store c)
          | None => []
          end)
       (ticks c) (store c)).
Proof. unfold detail, detail_target. apply detail_loop_shows. Qed.

(** *** [info] and [alive] *)

(** A record of [QUEUE.get_queue_state] and a record of
    [QUEUE.get_daemon], the latter with [str] applied to its columns as
    [alive] does; [str_int] is the decimal text of an integer. *)
Record state_doc : Type := mkState {
  sd_n : Z;
  sd_state : string;
  sd_flags : string;
  sd_name : string
}.

Record daemon_doc : Type := mkDaemon {
  dd_loop : string;
  dd_loop_time : string;
  dd_heartbeat : string;
  dd_kind : string;
  dd_id : string
}.

Variable get_queue_state : Store -> list state_doc.
Variable get_daemon : Store -> list daemon_doc.
Variable str_int : Z -> string.

(** The rule under a header: dashes of the given widths, joined by
    blanks. *)
Definition rule (widths : list nat) : string :=
  Py.join " " (PyMore.times "-" <$> widths).

Fixpoint print_all (texts : list string) : SE console unit :=
  match texts with
  | [] => mret tt
  | t :: rest => print (Text t);; print_all rest
  end.

Definition info_header : string :=
  Py.join " "
    [PyMore.rjust "n" 6; PyMore.ljust "state" 8; PyMore.ljust "flag" 4;
     "name"].

(** A row of [info]: the count right-aligned in 6 columns, the state cut
    and filled to 8, the flags cut and filled to 4, the name. *)
Definition info_row (d : state_doc) : string :=
  Py.join " "
    [PyMore.rjust (str_int (sd_n d)) 6;
     PyMore.ljust (PyMore.truncate (sd_state d) 8) 8;
     PyMore.ljust (PyMore.truncate (sd_flags d) 4) 4;
     sd_name d].

Definition info : SE console unit :=
  rec ← read_store get_queue_state;
  let mx :=
    foldl (fun m d => Nat.max m (String.length (sd_name d))) 0%nat rec in
  (if rec is [] then print (Text "no jobs.")
   else print (Text info_header);; print (Text (rule [6; 8; 4; mx]%nat)));;
  print_all (info_row <$> rec).

Definition alive_header : string :=
  Py.join " "
    [PyMore.ljust "loop" 19; PyMore.ljust "loop_time" 19;
     PyMore.ljust "heartbeat" 19; PyMore.ljust "kind" 9; "_id"].

Definition alive_row (d : daemon_doc) : string :=
  Py.join " "
    [PyMore.ljust (dd_loop d) 19; PyMore.ljust (dd_loop_time d) 19;
     PyMore.ljust (dd_heartbeat d) 19; PyMore.ljust (dd_kind d) 9; dd_id d].

(** [alive]; the width [mx] is set anew for every daemon. *)
Definition alive : SE console unit :=
  rec ← read_store get_daemon;
  let mx :=
    foldl (fun _ d => Nat.max 0 (String.length (dd_id d))) 0%nat rec in
  (if rec is [] then print (Text "no daemon.")
   else
     print (Text alive_header);;
     print (Text (rule [19; 19; 19; 9; mx]%nat)));;
  print_all (alive_row <$> rec).

Lemma print_all_prints texts : forall c,
  print_all texts c =
    (Returns tt, mkConsole (printed c ++ (Text <$> texts)) (ticks c) (store c)).
Proof.
  induction texts as [|t rest IH]; intros c; cbn [print_all].
  - cbn. rewrite app_nil_r. destruct c; reflexivity.
  - unfold mbind, SE_bind, print. rewrite IH. cbn.
    rewrite <- app_assoc. reflexivity.
Qed.

Lemma foldl_max_names (l : list state_doc) : forall init,
  (init <= foldl (fun m d => Nat.max m (String.length (sd_name d))) init l)%nat
  /\
  Forall (fun d =>
            (String.length (sd_name d) <=
             foldl (fun m d => Nat.max m (String.length (sd_name d))) init l)%nat)
    l.
Proof.
  induction l as [|x l IH]; intros init; cbn [foldl].
  - split; [lia | constructor].
  - destruct (IH (Nat.max init (String.length (sd_name x)))) as [Hinit Hall].
    split; [lia|]. constructor; [lia | exact Hall].
Qed.

Lemma rule4_length a b c d :
  String.length (rule [a; b; c; d]) = (a + b + c + d + 3)%nat.
Proof.
  unfold rule. cbn [fmap list_fmap Py.join].
  rewrite !PyMore.app_length, !PyMore.times_length. cbn. lia.
Qed.

Lemma info_row_shape d :
  (String.length (str_int (sd_n d)) <= 6)%nat ->
  exists pre,
    info_row d = pre +:+ sd_name d /\ String.length pre = 21%nat.
Proof.
  intros Hn. unfold info_row. cbn [Py.join].
  exists (PyMore.rjust (str_int (sd_n d)) 6 +:+ " " +:+
          PyMore.ljust (PyMore.truncate (sd_state d) 8) 8 +:+ " " +:+
          PyMore.ljust (PyMore.truncate (sd_flags d) 4) 4 +:+ " ").
  split.
  - rewrite !PyFacts.append_assoc. reflexivity.
  - rewrite !PyMore.app_length.
    rewrite PyMore.rjust_length by exact Hn.
    rewrite !PyMore.ljust_length by apply PyMore.truncate_length.
    reflexivity.
Qed.

(** X11: [info] prints [no jobs.] for an empty queue state and otherwise
    a header, a rule and one row per record; the name of a row whose count
    has six digits at most begins after 21 characters, as in the header,
    and the row is no longer than the rule. *)
Theorem info_rows_under_rule c :
  match get_queue_state (store c) with
  | [] =>
      info c =
        (Returns tt,
         mkConsole (printed c ++ [Text "no jobs."]) (ticks c) (store c))
  | rec =>
      exists mx,
        info c =
          (Returns tt,
           mkConsole
             (printed c ++
                [Text info_header; Text (rule [6; 8; 4; mx]%nat)] ++
                (Text <$> (info_row <$> rec)))
             (ticks c) (store c)) /\
        Forall (fun d =>
                  (String.length (str_int (sd_n d)) <= 6)%nat ->
                  (exists pre,
                     info_row d = pre +:+ sd_name d /\
                     String.length pre = 21%nat) /\
                  (String.length (info_row d) <=
                   String.length (rule [6; 8; 4; mx]%nat))%nat) rec
  end.
Proof.
  unfold info, mbind, SE_bind, read_store.
  destruct (get_queue_state (store c)) as [|d rest] eqn:Hrec.
  - reflexivity.
  - eexists. split.
    + unfold print. rewrite print_all_prints. cbn [printed ticks store].
      rewrite <- !app_assoc. reflexivity.
    + pose proof (foldl_max_names (d :: rest) 0%nat) as [_ Hall].
      apply Forall_forall. intros x Hx Hn.
      rewrite Forall_forall in Hall. specialize (Hall x Hx).
      destruct (info_row_shape x Hn) as (pre & Hrow & Hpre).
      split; [exists pre; split; assumption|].
      rewrite rule4_length, Hrow, PyMore.app_length, Hpre. lia.
Qed.

(** X12: the rule [alive] prints under its header has, for the id column,
    the width of the id of the daemon listed last. *)
Theorem alive_rule_of_last_daemon c pre d :
  get_daemon (store c) = pre ++ [d] ->
  alive c =
    (Returns tt,
     mkConsole
       (printed c ++
          [Text alive_header;
           Text (rule [19; 19; 19; 9; String.length (dd_id d)]%nat)] ++
          (Text <$> (alive_row <$> (pre ++ [d]))))
       (ticks c) (store c)).
Proof.
  intros Hrec. unfold alive, mbind, SE_bind, read_store. rewrite Hrec.
  rewrite foldl_app. cbn [foldl].
  destruct pre as [|p pre]; cbn [app];
    unfold print; rewrite print_all_prints; cbn [printed ticks store];
    rewrite <- !app_assoc; reflexivity.
Qed.

(** *** [pause] and [resume] *)

(** The maintenance operations of the queue are outside [src/]:
    [maintenance] tells whether the project, or with [None] the system, is
    in maintenance. *)
Variable maintenance : option string -> Store -> bool.
Variable enter_maintenance : option string -> Store -> Store.
Variable leave_maintenance : option string -> Store -> Store.

Definition update_store (f : Store -> Store) : SE console unit :=
  fun c => (Returns tt, mkConsole (printed c) (ticks c) (f (store c))).

(** The end of both commands: [on [project]] for a project that is true,
    an empty line else.  A [print] that ends without line feed is kept as
    a print of its own. *)
Definition print_project (project : option string) : SE console unit :=
  match project with
  | Some (String x p) => print (Text (" on [" +:+ String x p +:+ "]"))
  | _ => print (Text EmptyString)
  end.

Definition pause (project : option string) : SE console unit :=
  m ← read_store (maintenance project);
  (if negb m then
     print (Text "entering maintenance");;
     update_store (enter_maintenance project)
   else
     print (Text ("in maintenance already," +:+ PyMore.newline
                    +:+ "nothing to do")));;
  print_project project.

Definition resume (project : option string) : SE console unit :=
  m ← read_store (maintenance project);
  (if (m : bool) then
     print (Text "leaving maintenance");;
     update_store (leave_maintenance project)
   else
     print (Text ("not in maintenance," +:+ PyMore.newline
                    +:+ "nothing to do")));;
  print_project project.

Lemma print_project_store project c :
  exists l, print_project project c =
              (Returns tt, mkConsole (printed c ++ [l]) (ticks c) (store c)).
Proof.
  unfold print_project. destruct project as [[|x p]|]; eexists; reflexivity.
Qed.

Lemma pause_store project c :
  (pause project c).1 = Returns tt /\
  store (pause project c).2 =
    if maintenance project (store c) then store c
    else enter_maintenance project (store c).
Proof.
  unfold pause, mbind, SE_bind, read_store.
  destruct (maintenance project (store c)); cbn [negb];
    unfold print, update_store; cbn [printed ticks store];
    match goal with
    | |- context [print_project project ?c0] =>
        destruct (print_project_store project c0) as [l ->]
    end; split; reflexivity.
Qed.

Lemma resume_store project c :
  (resume project c).1 = Returns tt /\
  store (resume project c).2 =
    if maintenance project (store c)
    then leave_maintenance project (store c) else store c.
Proof.
  unfold resume, mbind, SE_bind, read_store.
  destruct (maintenance project (store c));
    unfold print, update_store; cbn [printed ticks store];
    match goal with
    | |- context [print_project project ?c0] =>
        destruct (print_project_store project c0) as [l ->]
    end; split; reflexivity.
Qed.

(** X13: on a queue where entering maintenance puts the project in
    maintenance and leaving takes it out, [pause] and [resume] are safe to
    repeat: a second [pause] leaves the queue as the first left it, and so
    does a second [resume]; neither enters or leaves maintenance twice. *)
Theorem pause_resume_repeat project c :
  (forall st, maintenance project (enter_maintenance project st) = true) ->
  (forall st, maintenance project (leave_maintenance project st) = false) ->
  store (pause project (pause project c).2).2 = store (pause project c).2 /\
  store (resume project (resume project c).2).2 = store (resume project c).2.
Proof.
  intros Henter Hleave. split.
  - rewrite (proj2 (pause_store project (pause project c).2)).
    rewrite (proj2 (pause_store project c)).
    destruct (maintenance project (store c)) eqn:Hm.
    + rewrite Hm. reflexivity.
    + rewrite Henter. reflexivity.
  - rewrite (proj2 (resume_store project (resume project c).2)).
    rewrite (proj2 (resume_store project c)).
    destruct (maintenance project (store c)) eqn:Hm.
    + rewrite Hleave. reflexivity.
    + rewrite Hm. reflexivity.
Qed.

(** *** [app] *)

(** The keyword arguments [main] hands to [app]: the values of docopt,
    text or [None], and the list of filters. *)
Record app_kwargs : Type := mkAppKwargs {
  k_name : option string;
  k_port : option string;
  k_address : option string;
  k_routing : option string;
  k_filter : list string
}.

(** What [app] starts: [exec_project] with a project and the parameter
    text, or [serve_all] with the keyword arguments, the port an integer
    by then. *)
Inductive launch : Type :=
  | ExecProject (project param : string)
  | ServeAll (name : option string) (port : option Z)
      (address routing : option string) (filter : list string).

(** Outside the repository: [int] of a text ([None] when it raises), and
    [repr] of a list of texts. *)
Variable py_int : string -> option Z.
Variable repr_list : list string -> string.

(** The loop over the filters: the set [projects], the list [kw_filter],
    and the list [filter] as the loop leaves it, a dot appended where
    there was none. *)
Fixpoint app_filters (filter : list string) (projects : gset string)
    (kw_filter dotted : list string)
  : gset string * list string * list string :=
  match filter with
  | [] => (projects, kw_filter, dotted)
  | f :: rest =>
      app_filters rest ({[PyMore.first_field "." f]} ∪ projects)
        (kw_filter ++ [f])
        (dotted ++ [if PyMore.endswith f "." then f else f +:+ "."])
  end.

(** One entry of [param]: text in double quotes, anything else by
    [str]. *)
Definition param_text (p : string) (val : option string) : string :=
  p +:+ "=" +:+
  match val with
  | Some v => dquote +:+ v +:+ dquote
  | None => "None"
  end.

(** [kwargs["port"] = int(kwargs["port"])] when a port is given. *)
Definition app_port (kwargs : app_kwargs) : outcome (option Z) :=
  match k_port kwargs with
  | Some p =>
      match py_int p with
      | Some n => Returns (Some n)
      | None => Raises (OtherError "ValueError")
      end
  | None => Returns None
  end.

Definition app (kwargs : app_kwargs) : outcome launch :=
  match app_port kwargs with
  | Raises e => Raises e
  | Returns port =>
      match k_filter kwargs with
      | [] =>
          Returns (ServeAll (k_name kwargs) port (k_address kwargs)
                     (k_routing kwargs) [])
      | filter =>
          let '(projects, kw_filter, _) := app_filters filter ∅ [] [] in
          if (1 <? size projects)%nat then
            Raises (OtherError "Core4UsageError")
          else
            match elements projects with
            | project :: _ =>
                Returns
                  (ExecProject project
                     (Py.join ", "
                        [param_text "name" (k_name kwargs);
                         "port=" +:+
                           match port with
                           | Some n => str_int n
                           | None => "None"
                           end;
                         param_text "address" (k_address kwargs);
                         param_text "routing" (k_routing kwargs);
                         "filter=" +:+ repr_list kw_filter]))
            | [] => Raises (OtherError "KeyError")
            end
      end
  end.

Lemma app_filters_spec filter : forall projects kw_filter dotted,
  exists dotted',
    app_filters filter projects kw_filter dotted =
      (list_to_set (PyMore.first_field "." <$> filter) ∪ projects,
       kw_filter ++ filter, dotted').
Proof.
  clear. induction filter as [|f rest IH]; intros projects kw_filter dotted.
  - exists dotted. cbn. rewrite app_nil_r. f_equal. f_equal.
    apply set_eq. intros y. rewrite elem_of_union. split; [tauto|].
    intros [Hy|Hy]; [inversion Hy | exact Hy].
  - cbn [app_filters fmap list_fmap list_to_set].
    destruct (IH ({[PyMore.first_field "." f]} ∪ projects) (kw_filter ++ [f])
                (dotted ++ [if PyMore.endswith f "." then f else f +:+ "."]))
      as [d Hd].
    exists d. rewrite Hd, <- app_assoc. f_equal. f_equal.
    apply set_eq. intros y. rewrite !elem_of_union. tauto.
Qed.

(** X14: filters that name applications of different projects make [app]
    raise [Core4UsageError]; nothing is started. *)
Theorem app_refuses_two_projects kwargs port f1 f2 :
  app_port kwargs = Returns port ->
  f1 ∈ k_filter kwargs -> f2 ∈ k_filter kwargs ->
  PyMore.first_field "." f1 <> PyMore.first_field "." f2 ->
  app kwargs = Raises (OtherError "Core4UsageError").
Proof.
  clear. intros Hport H1 H2 Hne. unfold app. rewrite Hport.
  destruct (k_filter kwargs) as [|f rest] eqn:Hf; [inversion H1|].
  destruct (app_filters_spec (f :: rest) ∅ [] []) as [d Hd]. rewrite Hd.
  assert (Hsize : (1 < size (list_to_set (PyMore.first_field "." <$> f :: rest)
                            ∪ (∅ : gset string)))%nat).
  { assert (Hsub : ({[PyMore.first_field "." f1]}
                    ∪ {[PyMore.first_field "." f2]} : gset string)
                   ⊆ list_to_set (PyMore.first_field "." <$> f :: rest) ∪ ∅).
    { intros x Hx. apply elem_of_union. left. apply elem_of_list_to_set.
      apply elem_of_union in Hx as [Hx|Hx]; apply elem_of_singleton in Hx;
        subst x; apply list_elem_of_fmap; eauto. }
    apply subseteq_size in Hsub.
    rewrite size_union in Hsub.
    2:{ intros y Hy1 Hy2. apply elem_of_singleton in Hy1, Hy2. congruence. }
    rewrite !size_singleton in Hsub. lia. }
  apply Nat.ltb_lt in Hsize. rewrite Hsize. reflexivity.
Qed.

(** X15: filters that all name applications of one project make [app]
    start that project, and the filters handed on are the filters given:
    the dot the loop appends to a filter without one does not reach the
    parameter text. *)
Theorem app_hands_filters_on kwargs port project :
  app_port kwargs = Returns port ->
  k_filter kwargs <> [] ->
  Forall (fun f => PyMore.first_field "." f = project) (k_filter kwargs) ->
  app kwargs =
    Returns
      (ExecProject project
         (Py.join ", "
            [param_text "name" (k_name kwargs);
             "port=" +:+
               match port with Some n => str_int n | None => "None" end;
             param_text "address" (k_address kwargs);
             param_text "routing" (k_routing kwargs);
             "filter=" +:+ repr_list (k_filter kwargs)])).
Proof.
  clear. intros Hport Hne Hall. unfold app. rewrite Hport.
  destruct (k_filter kwargs) as [|f rest] eqn:Hf; [congruence|].
  destruct (app_filters_spec (f :: rest) ∅ [] []) as [d Hd]. rewrite Hd.
  assert (Hset : list_to_set (PyMore.first_field "." <$> f :: rest)
                 ∪ (∅ : gset string) = {[project]}).
  { apply leibniz_equiv. intros x. rewrite elem_of_union, elem_of_list_to_set.
    rewrite list_elem_of_fmap, elem_of_singleton. split.
    - intros [(y & -> & Hy)|Hx]; [|inversion Hx].
      rewrite Forall_forall in Hall. apply Hall, Hy.
    - intros ->. left. exists f. split; [|left].
      inversion Hall; subst. reflexivity. }
  rewrite Hset, size_singleton, elements_singleton. cbn [app]. reflexivity.
Qed.

End Commands.

Arguments mkDoc {oid float} _ _ _ _ _ _ _ _ _ _ _ _ _ _ _ _ _.
Arguments doc_id {oid float} _.
Arguments name {oid float} _.
Arguments state {oid float} _.
Arguments started_at {oid float} _.
Arguments runtime {oid float} _.
Arguments mkRow {oid float} _ _ _ _ _ _ _ _ _ _ _ _ _.
Arguments row_id {oid float} _.
Arguments row_flag {oid float} _.
Arguments row_runtime {oid float} _.
Arguments Text {oid float} _.
Arguments ListingHeader {oid float} _.
Arguments ListingRuler {oid float} _.
Arguments ListingRow {oid float} _.
Arguments Removed {oid float} _.
Arguments FailedToRemove {oid float} _.
Arguments Restarted {oid float} _ _.
Arguments FailedToRestart {oid float} _.
Arguments Killed {oid float} _.
Arguments FailedToKill {oid float} _.
Arguments mkConsole {oid float Store} _ _ _.
Arguments printed {oid float Store} _.
Arguments ticks {oid float Store} _.
Arguments store {oid float Store} _.
Arguments is_row {oid float} _.
Arguments listing {oid float} _ _ _ {Store} _ _ _.
Arguments listing_filter {oid float Store} _ _ _.
Arguments shows {oid float} _ _ _ _ _.
Arguments flag_column {oid float} _.
Arguments remove {oid} _ {float Store} _ _ _ _ _.
Arguments restart {oid} _ {float Store} _ _ _ _ _.
Arguments kill {oid} _ {float Store} _ _ _ _ _.
Arguments removed_line {oid float} _.
Arguments restarted_line {oid float} _.
Arguments killed_line {oid float} _.
Arguments applied_to_ids_and_names {oid} _ {float Store} _ _ {R} _ _ _ _ _.
Arguments applied_ids {oid} _ {float Store} _ _ {R} _ _ _.
Arguments store_after {oid} _ {Store R} _ _ _.
Arguments enqueue_data {json} _ _ _ _.

(** A concrete setting: ids are their text, seconds are kept as
    microseconds, the queue is the list of its documents. *)
Module Demo.

Definition doc : Type := job_doc string Z.

Definition ObjectId : string -> option string := Process.Demo.ObjectId.

Definition mongo_now (n : nat) : Z := 1541340000000000 + Z.of_nat n.

Definition get_job_listing (q : query) (st : list doc) : list doc :=
  match q with
  | NoFilter => st
  | ByState l => filter (fun d => state d ∈ l) st
  | ByName n => filter (fun d => name d = n) st
  end.

Definition remove_job (i : string) (st : list doc) : bool * list doc :=
  (bool_decide (i ∈ doc_id <$> st), filter (fun d => doc_id d <> i) st).

Definition restart_job (i : string) (st : list doc)
  : option string * list doc :=
  (if bool_decide (i ∈ doc_id <$> st)
   then Some "5be13b56de8b69468b7ff0b9" else None, st).

Definition kill_job (i : string) (st : list doc) : bool * list doc :=
  (bool_decide (i ∈ doc_id <$> st), st).

Definition py_set (l : list string) : list string := remove_dups l.

Definition running_job : doc :=
  mkDoc "5be13b56de8b69468b7ff0b2" "core4.queue.helper.DummyJob" "running"
    (Some "worker1") (Some (Some 500000)) 0 false 3 3 (Some "mra")
    (Some 1541339000000000) (Some 1541339990000000) None
    None (Some 1541339995000000) None None.

Definition failed_job : doc :=
  mkDoc "5be13b56de8b69468b7ff0b3" "core4.queue.helper.DummyJob" "failed"
    None None 0 false 3 2 (Some "mra")
    (Some 1541339000000000) (Some 1541339100000000) (Some 12000000)
    None None None (Some 1541339200000000).

Definition queue : list doc := [running_job; failed_job].

Definition c0 : console string Z (list doc) := mkConsole [] 0%nat queue.

Definition listing_ (state : list string)
  : SE (console string Z (list doc)) unit :=
  listing 0 (fun us => us) mongo_now get_job_listing state.

(** A stand-in for [json.loads] that knows one text. *)
Definition json_loads (s : string) : option string :=
  if bool_decide (s = "{" +:+ dquote +:+ "x" +:+ dquote +:+ ": 1}")
  then Some s else None.

Definition tuple_str (l : list string) : string :=
  "(" +:+ Py.join ", " l +:+ ")".

End Demo.

(** C6 at the argument [bogus], which is no state: [listing] prints the
    line that names it and ends with a [SystemExit] without code; the
    exit status is 0, not the 1 of the claim. *)
Lemma listing_unknown_state_exits_with_0 :
  ~ known_state "bogus" /\
  Demo.listing_ ["bogus"] Demo.c0 =
    (Raises (SystemExit None),
     mkConsole [Text "unknown state [bogus]"] 0%nat Demo.queue) /\
  Py.exit_status (Demo.listing_ ["bogus"] Demo.c0).1 = 0 /\
  Py.exit_status (Demo.listing_ ["bogus"] Demo.c0).1 <> 1.
Proof.
  split; [|split; [|split]].
  - unfold known_state. vm_compute. intros H.
    repeat (apply elem_of_cons in H as [H|H]; [discriminate|]).
    inversion H.
  - vm_compute. reflexivity.
  - vm_compute. reflexivity.
  - vm_compute. discriminate.
Qed.

(** C7 at the queue of [Demo], listed without arguments. *)
Lemma listing_flag_and_runtime_witness :
  exists kwargs head rows,
    printed (Demo.listing_ [] Demo.c0).2 =
      printed Demo.c0 ++ head ++ (ListingRow <$> rows) /\
    Forall (fun l => is_row l = false) head /\
    Forall2 (shows 0 (fun us => us) Demo.mongo_now)
      (Demo.get_job_listing kwargs (store Demo.c0)) rows.
Proof.
  exact (listing_flag_and_runtime string Z 0 (fun us => us) Demo.mongo_now
           (list Demo.doc) Demo.get_job_listing [] Demo.c0
           (Demo.listing_ [] Demo.c0).2 eq_refl).
Defined.

(** C8 at an id and a name. *)
Lemma subcommands_take_ids_and_names_witness :
  applied_to_ids_and_names Demo.ObjectId Demo.get_job_listing Demo.py_set
    Demo.remove_job removed_line
    ["5be13b56de8b69468b7ff0b3"; "core4.queue.helper.DummyJob"]
    Demo.c0
    (remove Demo.ObjectId Demo.get_job_listing Demo.remove_job Demo.py_set
       ["5be13b56de8b69468b7ff0b3"; "core4.queue.helper.DummyJob"] Demo.c0).
Proof.
  exact (proj1 (subcommands_take_ids_and_names string Demo.ObjectId Z
                  (list Demo.doc) Demo.get_job_listing Demo.remove_job
                  Demo.restart_job Demo.kill_job Demo.py_set
                  (fun l x => elem_of_remove_dups l x)
                  ["5be13b56de8b69468b7ff0b3"; "core4.queue.helper.DummyJob"]
                  Demo.c0)).
Defined.

(** The rewriting of [enqueue] and the argument test of [listing] on
    some arguments. *)
Example rewrite_arg_blanks :
  rewrite_arg "  x = [1, 2] " = dquote +:+ "x" +:+ dquote +:+ ": [1, 2] ".
Proof. reflexivity. Qed.

Example rewrite_arg_colon :
  rewrite_arg "x:1" = dquote +:+ "x" +:+ dquote +:+ ": 1".
Proof. reflexivity. Qed.

Example rewrite_arg_no_key : rewrite_arg "x y=1" = "x y=1".
Proof. reflexivity. Qed.

Example rewrite_arg_json : rewrite_arg "{}" = "{}".
Proof. reflexivity. Qed.

Example listing_argument_running :
  Py.strip (Py.lower "  RUNning ") = STATE_RUNNING.
Proof. reflexivity. Qed.

Example listing_demo_flags :
  (fun l => match l with ListingRow r => Some (row_flag r) | _ => None end)
    <$> printed (Demo.listing_ ["running"; "Failed"] Demo.c0).2
  = [None; None; Some ".W.."; Some "...K"].
Proof. vm_compute. reflexivity. Qed.

Example remove_demo_applied :
  applied_ids Demo.ObjectId Demo.get_job_listing Demo.py_set Demo.remove_job
    ["5be13b56de8b69468b7ff0b3"; "core4.queue.helper.DummyJob"] Demo.c0
  = ["5be13b56de8b69468b7ff0b3"; "5be13b56de8b69468b7ff0b2"] /\
  store
    (remove Demo.ObjectId Demo.get_job_listing Demo.remove_job Demo.py_set
       ["5be13b56de8b69468b7ff0b3"; "core4.queue.helper.DummyJob"]
       Demo.c0).2
  = [].
Proof. split; vm_compute; reflexivity. Qed.

Example remove_demo :
  printed
    (remove Demo.ObjectId Demo.get_job_listing Demo.remove_job Demo.py_set
       ["core4.queue.helper.DummyJob"; "5be13b56de8b69468b7ff0b3"]
       Demo.c0).2
  = [Removed "5be13b56de8b69468b7ff0b3"; Removed "5be13b56de8b69468b7ff0b2";
     FailedToRemove "5be13b56de8b69468b7ff0b3"].
Proof. vm_compute. reflexivity. Qed.

(** A second concrete setting, for the commands beyond [listing] and
    [remove]: a queue in maintenance or not, two daemons, two filters. *)
Module More.

Definition maintenance (_ : option string) (st : bool) : bool := st.
Definition enter_maintenance (_ : option string) (_ : bool) : bool := true.
Definition leave_maintenance (_ : option string) (_ : bool) : bool := false.

Definition worker : daemon_doc :=
  mkDaemon "12" "2018-11-04 15:00:00" "2018-11-04 15:00:01" "worker"
    "worker@host1".

Definition scheduler : daemon_doc :=
  mkDaemon "7" "2018-11-04 15:00:00" "2018-11-04 15:00:01" "scheduler"
    "sched".

Definition get_daemon (_ : bool) : list daemon_doc := [worker; scheduler].

Definition enqueue_job (_ : string) (data : string) (st : list Demo.doc)
  : outcome string * list Demo.doc :=
  (Returns "5be13b56de8b69468b7ff0b9", st).

Definition two_projects : app_kwargs :=
  mkAppKwargs None None None None ["project1.api"; "project2.api"].

Definition one_project : app_kwargs :=
  mkAppKwargs (Some "app") None None None
    ["project1.api"; "project1.other."].

Definition repr_list (l : list string) : string :=
  "[" +:+ Py.join ", " l +:+ "]".

End More.

(** X4 at one state given twice, in two spellings. *)
Lemma listing_filter_distinct_witness :
  exists filter,
    listing_filter ["Running"; " running "] [] Demo.c0
      = (Returns filter, Demo.c0) /\
    NoDup filter /\
    (forall x, x ∈ filter <->
               x ∈ (fun s => Py.strip (Py.lower s))
                     <$> ["Running"; " running "]) /\
    (filter = [] <-> ["Running"; " running "] = []).
Proof.
  apply (listing_filter_distinct string Z (list Demo.doc)
           ["Running"; " running "] Demo.c0).
  repeat constructor; unfold known_state; vm_compute; right; left.
Defined.

(** X5 at the queue of [Demo]. *)
Lemma listing_rule_covers_witness :
  exists filter,
    listing_filter [] [] Demo.c0 = (Returns filter, Demo.c0) /\
    let rec :=
      Demo.get_job_listing
        (if filter is [] then NoFilter else ByState filter)
        (store Demo.c0) in
    match rec with
    | [] =>
        printed (Demo.listing_ [] Demo.c0).2 =
          printed Demo.c0 ++ [Text "no jobs."]
    | _ =>
        exists mxworker mx rows,
          printed (Demo.listing_ [] Demo.c0).2 =
            printed Demo.c0 ++
            [ListingHeader mxworker;
             ListingRuler [24; 8; 4; 4; 4; 7; 6; 19; 19; 11; mxworker; mx]%nat]
            ++ (ListingRow <$> rows) /\
          Forall2 (shows 0 (fun us => us) Demo.mongo_now) rec rows /\
          Forall (fun job =>
                    (String.length (name job) <= mx)%nat /\
                    forall w, locked string Z job = Some w ->
                              (String.length w <= mxworker)%nat) rec /\
          Exists (fun job => String.length (name job) = mx) rec /\
          (6 <= mxworker)%nat /\
          (mxworker = 6%nat \/
           Exists (fun job => exists w, locked string Z job = Some w /\
                                        String.length w = mxworker) rec)
    end.
Proof.
  exact (listing_rule_covers string Z 0 (fun us => us) Demo.mongo_now
           (list Demo.doc) Demo.get_job_listing [] Demo.c0
           (Demo.listing_ [] Demo.c0).2 eq_refl).
Defined.

(** X6 at an empty JSON object. *)
Lemma rewrite_arg_keeps_other_text_witness : rewrite_arg " {}" = " {}".
Proof. exact (rewrite_arg_keeps_other_text " {}" eq_refl). Defined.

(** C5 at the single argument [x=1]. *)
Lemma enqueue_argument_parsing_witness :
  rewrite_arg "x=1" = dquote +:+ "x" +:+ dquote +:+ ": 1" /\
  enqueue_data Demo.json_loads EmptyString Demo.tuple_str ["x=1"] =
    Returns ("{" +:+ dquote +:+ "x" +:+ dquote +:+ ": 1}") /\
  enqueue string Z (list Demo.doc) string Demo.json_loads EmptyString
    Demo.tuple_str More.enqueue_job "core4.queue.helper.DummyJob"
    ["x=1"] Demo.c0 =
    (Returns tt,
     mkConsole
       [Text "enqueueing [core4.queue.helper.DummyJob]";
        Text "5be13b56de8b69468b7ff0b9"] 0%nat Demo.queue).
Proof.
  pose proof (enqueue_argument_parsing string Z (list Demo.doc) string
                Demo.json_loads EmptyString Demo.tuple_str More.enqueue_job
                "x" "1" ["x=1"]
                ltac:(discriminate) eq_refl ltac:(discriminate) eq_refl
                eq_refl ltac:(discriminate)) as H.
  cbv zeta in H. destruct H as (H1 & H2 & _ & _ & H5).
  split; [exact H1|]. split; [apply H2; reflexivity|].
  exact (proj1 (H5 "core4.queue.helper.DummyJob" Demo.c0)
           ("{" +:+ dquote +:+ "x" +:+ dquote +:+ ": 1}")
           (or_introl eq_refl)).
Defined.

(** X7 at two arguments that do not parse. *)
Lemma enqueue_parse_error_leaves_queue_witness :
  enqueue string Z (list Demo.doc) string Demo.json_loads EmptyString
    Demo.tuple_str More.enqueue_job "core4.queue.helper.DummyJob"
    ["x=1"; "oops"] Demo.c0 =
    (Raises (JSONDecodeError "failed to parse (x=1, oops)"),
     mkConsole [Text "enqueueing [core4.queue.helper.DummyJob]"] 0%nat
       Demo.queue).
Proof.
  exact (enqueue_parse_error_leaves_queue string Z (list Demo.doc) string
           Demo.json_loads EmptyString Demo.tuple_str More.enqueue_job
           "core4.queue.helper.DummyJob" ["x=1"; "oops"] Demo.c0
           (JSONDecodeError "failed to parse (x=1, oops)") eq_refl).
Defined.

(** X12 at two daemons, the one with the shorter id listed last. *)
Lemma alive_rule_of_last_daemon_witness :
  alive string Z bool More.get_daemon (mkConsole [] 0%nat false) =
    (Returns tt,
     mkConsole
       ([Text alive_header; Text (rule [19; 19; 19; 9; 5]%nat)] ++
        (Text <$> (alive_row <$> [More.worker; More.scheduler])))
       0%nat false).
Proof.
  exact (alive_rule_of_last_daemon string Z bool More.get_daemon
           (mkConsole [] 0%nat false) [More.worker] More.scheduler eq_refl).
Defined.

(** X13 at a queue that is not in maintenance. *)
Lemma pause_resume_repeat_witness :
  let pause := pause string Z bool More.maintenance More.enter_maintenance in
  let resume := resume string Z bool More.maintenance More.leave_maintenance in
  let c := mkConsole [] 0%nat false in
  store (pause None (pause None c).2).2 = store (pause None c).2 /\
  store (resume None (resume None c).2).2 = store (resume None c).2.
Proof.
  exact (pause_resume_repeat string Z bool More.maintenance
           More.enter_maintenance More.leave_maintenance None
           (mkConsole [] 0%nat false) (fun _ => eq_refl) (fun _ => eq_refl)).
Defined.

(** X14 at filters of two projects. *)
Lemma app_refuses_two_projects_witness :
  app (fun _ => "8080") (fun _ => None) More.repr_list More.two_projects =
    Raises (OtherError "Core4UsageError").
Proof.
  apply (app_refuses_two_projects (fun _ => "8080") (fun _ => None)
           More.repr_list More.two_projects None
           "project1.api" "project2.api" eq_refl).
  - left.
  - right; left.
  - vm_compute. discriminate.
Defined.

(** X15 at two filters of one project, one with and one without the
    dot. *)
Lemma app_hands_filters_on_witness :
  app (fun _ => "8080") (fun _ => None) More.repr_list More.one_project =
    Returns
      (ExecProject "project1"
         (Py.join ", "
            [param_text "name" (Some "app"); "port=None";
             param_text "address" None; param_text "routing" None;
             "filter=[project1.api, project1.other.]"])).
Proof.
  apply (app_hands_filters_on (fun _ => "8080") (fun _ => None)
           More.repr_list More.one_project None "project1" eq_refl).
  - discriminate.
  - repeat constructor.
Defined.

End Coco.

(** ** The API container: [core4/api/v1/application.py] *)
Module Application.

(** [s.startswith(t)], [s.endswith(t)] and [s[:-1]]. *)
Definition startswith (s t : string) : bool := String.prefix t s.

Definition endswith (s t : string) : bool :=
  String.prefix (String.rev t) (String.rev s).

Definition drop_last (s : string) : string :=
  match String.rev s with
  | EmptyString => EmptyString
  | String _ r => String.rev r
  end.

(** The pattern [tornado.routing.PathMatches] compiles for a pattern given
    as text: a dollar sign is appended when the text does not end with
    one.  tornado is outside the repository; that the pattern compiles is
    taken for granted. *)
Definition PathMatches (path_pattern : string) : string :=
  if endswith path_pattern "$" then path_pattern else path_pattern +:+ "$".

Section Container.

(** Handler classes are outside [src/]: what [iter_rule] and
    [make_application] ask of a class is whether it derives from
    [tornado.web.RequestHandler], from [CoreStaticFileHandler] and from
    [CoreBaseHandler], and its [qual_name()], which [make_application]
    calls on the target of every rule.  A class of core4 has the method
    of [CoreBase]; a class that derives from [tornado.web.RequestHandler]
    alone, which [iter_rule] lets pass, has none, and the call raises
    [AttributeError]: [qual_name] is [None] for such a class.  Values of
    keyword arguments, [pprint.pformat] and the hex digest of
    [hashlib.md5] are parameters as well. *)
Variable handler : Type.
Variable is_request_handler : handler -> bool.
Variable is_static_file_handler : handler -> bool.
Variable is_core_base_handler : handler -> bool.
Variable qual_name : handler -> option string.
Variable value : Type.
Variable str_value : string -> value.
Variable pformat : gmap string value -> string.
Variable md5_hexdigest : string -> string.

(** [tornado.web.URLSpec] as the code reads it: [regex.pattern],
    [target], [kwargs] and [name]. *)
Record URLSpec : Type := mkSpec {
  regex_pattern : string;
  target : handler;
  kwargs : option (gmap string value);
  spec_name : option string
}.

(** The constructor [tornado.web.URLSpec(pattern, handler, kwargs,
    name)]. *)
Definition new_URLSpec (pattern : string) (h : handler)
    (kw : option (gmap string value)) (nm : option string) : URLSpec :=
  mkSpec (PathMatches pattern) h kw nm.

(** An entry of the class attribute [rules]: a [URLSpec], or a tuple of
    pattern and handler with, optionally, keyword arguments and a
    name. *)
Inductive rule_entry : Type :=
  | SpecEntry (u : URLSpec)
  | TupleEntry (pattern : string) (h : handler)
      (kw : option (gmap string value)) (nm : option string).

Record CoreApiContainer : Type := mkContainer {
  root : option string;
  project : string;
  rules : list rule_entry
}.

(** [get_root(path)]. *)
Definition get_root (self : CoreApiContainer) (path : string) : string :=
  let root := default (project self) (root self) in
  let root := if startswith root "/" then root else "/" +:+ root in
  let root := if endswith root "/" then drop_last root else root in
  match path with
  | EmptyString => root
  | _ =>
      let path := if startswith path "/" then path else "/" +:+ path in
      root +:+ path
  end.

(** What one entry makes [iter_rule] yield, or the exception it
    raises. *)
Definition yield_entry (self : CoreApiContainer) (ret : rule_entry)
  : exn + list URLSpec :=
  let checked :=
    match ret with
    | SpecEntry u =>
        inr (get_root self (regex_pattern u), target u, kwargs u, spec_name u)
    | TupleEntry pattern h kw nm =>
        if is_request_handler h
        then inr (get_root self pattern, h, kw, nm)
        else inl (Core4SetupError "expected subclass of RequestHandler")
    end in
  match checked with
  | inl e => inl e
  | inr (pattern, h, kw, nm) =>
      if is_static_file_handler h then
        inr [new_URLSpec (pattern +:+ "/(.*)$") h kw nm;
             new_URLSpec (pattern +:+ "(?:/(.*))?$") h kw None]
      else inr [new_URLSpec pattern h kw nm]
  end.

(** The generator [iter_rule]: what it yields, in order, and the
    exception that ends it, if one does. *)
Fixpoint iter_entries (self : CoreApiContainer) (entries : list rule_entry)
  : list URLSpec * option exn :=
  match entries with
  | [] => ([], None)
  | ret :: rest =>
      match yield_entry self ret with
      | inl e => ([], Some e)
      | inr specs =>
          let more := iter_entries self rest in
          (specs ++ more.1, more.2)
      end
  end.

Definition iter_rule (self : CoreApiContainer) : list URLSpec * option exn :=
  iter_entries self (rules self).

(** [CoreRoutingRule]: the route id, the pattern of its matcher, the
    target with its keyword arguments, and the name. *)
Record CoreRoutingRule : Type := mkRule {
  route_id : string;
  matcher_pattern : string;
  rule_target : handler;
  target_kwargs : gmap string value;
  rule_name : option string
}.

(** [CoreApplication]: the rules it was built from and its container. *)
Record CoreApplication : Type := mkApp {
  app_rules : list CoreRoutingRule;
  container : CoreApiContainer
}.

(** The state around [make_application]: the class attribute
    [RootContainer.routes] and what [self.logger.info] received. *)
Record env : Type := mkEnv {
  routes :
    gmap string (list (CoreApplication * CoreApiContainer * CoreRoutingRule));
  logged : list (string * string * string)
}.

Definition info (entry : string * string * string) : SE env unit :=
  fun e => (Returns tt, mkEnv (routes e) (logged e ++ [entry])).

(** The rule [make_application] builds for [rule], [cls_qual_name]
    being what [cls.qual_name()] returned. *)
Definition routing_rule (rule : URLSpec) (cls_qual_name : string)
  : CoreRoutingRule :=
  let routing := regex_pattern rule in
  let cls := target rule in
  let kwargs := default ∅ (kwargs rule) in
  let sorted_kwargs := pformat kwargs in
  let hash_base := cls_qual_name +:+ ":" +:+ sorted_kwargs in
  let md5_route := md5_hexdigest hash_base in
  let kwargs := <["_route_id" := str_value md5_route]> kwargs in
  mkRule md5_route (PathMatches routing) cls kwargs (spec_name rule).

(** The loop of [make_application] over what [iter_rule] yields.  The
    call [cls.qual_name()] comes before the test for a pattern seen
    before. *)
Fixpoint make_rules (yielded : list URLSpec) (unique : gset string)
    (rules : list CoreRoutingRule) : SE env (list CoreRoutingRule) :=
  match yielded with
  | [] => mret rules
  | rule :: rest =>
      let routing := regex_pattern rule in
      match qual_name (target rule) with
      | None => raise (OtherError "AttributeError")
      | Some cls_qual_name =>
          if bool_decide (routing ∉ unique) then
            let r := routing_rule rule cls_qual_name in
            (if is_core_base_handler (target rule)
             then info (cls_qual_name, routing,
                        match spec_name rule with
                        | Some (String c n) => String c n
                        | _ => route_id r
                        end)
             else mret tt);;
            make_rules rest ({[routing]} ∪ unique) (rules ++ [r])
          else
            raise (Core4SetupError
                     ("route [" +:+ routing +:+ "] already exists"))
      end
  end.

(** The second loop of [make_application]: every rule is appended to the
    entry of its route id in [RootContainer.routes]. *)
Fixpoint transfer_routes (app : CoreApplication) (rules : list CoreRoutingRule)
  : SE env unit :=
  match rules with
  | [] => mret tt
  | rule :: rest =>
      (fun e =>
         (Returns tt,
          mkEnv
            (<[route_id rule :=
                 default [] (routes e !! route_id rule)
                   ++ [(app, container app, rule)]]> (routes e))
            (logged e)));;
      transfer_routes app rest
  end.

(** [make_application].  The generator is driven by the loop: an
    exception of [iter_rule] comes up when the loop has dealt with
    everything yielded before it. *)
Definition make_application (self : CoreApiContainer)
  : SE env CoreApplication :=
  let it := iter_rule self in
  rules ← make_rules it.1 ∅ [];
  match it.2 with
  | Some e => raise e
  | None =>
      let app := mkApp rules self in
      transfer_routes app rules;;
      mret app
  end.

(** *** Facts about [make_application] *)

Lemma rev_app_app s : forall t acc,
  String.rev_app (s +:+ t) acc = String.rev_app t (String.rev_app s acc).
Proof.
  induction s as [|c s IH]; intros t acc; [reflexivity|].
  change (String c s +:+ t) with (String c (s +:+ t)). cbn. apply IH.
Qed.

Lemma endswith_dollar s : endswith (s +:+ "$") "$" = true.
Proof.
  unfold endswith, String.rev. rewrite rev_app_app. cbn.
  destruct (ascii_dec "$" "$"); [|congruence].
  destruct (String.rev_app s EmptyString); reflexivity.
Qed.

Lemma PathMatches_endswith s : endswith (PathMatches s) "$" = true.
Proof.
  unfold PathMatches. destruct (endswith s "$") eqn:E; [exact E|].
  apply endswith_dollar.
Qed.

Lemma PathMatches_idem s : PathMatches (PathMatches s) = PathMatches s.
Proof.
  unfold PathMatches at 1. rewrite PathMatches_endswith. reflexivity.
Qed.

(** Every specification [iter_rule] yields comes from the constructor,
    so its pattern ends with a dollar sign. *)
Definition constructed (u : URLSpec) : Prop :=
  PathMatches (regex_pattern u) = regex_pattern u.

Lemma yield_entry_constructed self ret specs :
  yield_entry self ret = inr specs -> Forall constructed specs.
Proof.
  unfold yield_entry.
  destruct ret as [u|pattern h kw nm].
  - destruct (is_static_file_handler (target u)); intros [= <-];
      repeat constructor; apply PathMatches_idem.
  - destruct (is_request_handler h); [|discriminate].
    destruct (is_static_file_handler h); intros [= <-];
      repeat constructor; apply PathMatches_idem.
Qed.

Lemma iter_entries_constructed self entries :
  Forall constructed (iter_entries self entries).1.
Proof.
  induction entries as [|ret rest IH]; cbn; [constructor|].
  destruct (yield_entry self ret) as [e|specs] eqn:E; cbn; [constructor|].
  apply Forall_app. split; [|exact IH].
  eapply yield_entry_constructed, E.
Qed.

(** [r] is the rule built for [rule], whose target has a qualified
    name. *)
Definition built_for (rule : URLSpec) (r : CoreRoutingRule) : Prop :=
  exists cls_qual_name,
    qual_name (target rule) = Some cls_qual_name /\
    r = routing_rule rule cls_qual_name.

(** The target of [rule] has the method [qual_name]. *)
Definition has_qual_name (rule : URLSpec) : Prop :=
  is_Some (qual_name (target rule)).

Lemma make_rules_distinct yielded : forall unique rules e,
  Forall has_qual_name yielded ->
  NoDup (regex_pattern <$> yielded) ->
  (forall p, p ∈ regex_pattern <$> yielded -> p ∉ unique) ->
  exists new e',
    make_rules yielded unique rules e = (Returns (rules ++ new), e') /\
    Forall2 built_for yielded new /\
    routes e' = routes e.
Proof.
  induction yielded as [|rule rest IH];
    intros unique rules e Hqual Hnd Hfresh.
  - cbn. exists [], e. rewrite app_nil_r. repeat split. constructor.
  - cbn [fmap list_fmap] in Hnd. apply NoDup_cons in Hnd as [Hnotin Hnd].
    inversion Hqual as [|? ? [qn Hqn] Hqual']; subst.
    cbn [make_rules]. rewrite Hqn.
    rewrite bool_decide_eq_true_2 by (apply Hfresh; left).
    assert (Hfresh' : forall p, p ∈ regex_pattern <$> rest ->
                                p ∉ {[regex_pattern rule]} ∪ unique).
    { intros p Hp Hin. apply elem_of_union in Hin as [Hin|Hin].
      - apply elem_of_singleton in Hin as ->. exact (Hnotin Hp).
      - apply (Hfresh p); [right; exact Hp | exact Hin]. }
    unfold mbind, SE_bind.
    destruct (is_core_base_handler (target rule));
      unfold info, mret, SE_ret; cbv beta iota;
      match goal with
      | |- context [make_rules rest ?u ?r ?e0] =>
          destruct (IH u r e0 Hqual' Hnd Hfresh')
            as (new & e' & Hrun & Hbuilt & Hroutes)
      end;
      exists (routing_rule rule qn :: new), e';
      rewrite Hrun, <- app_assoc;
      (split; [reflexivity|]);
      (split; [constructor; [exists qn; auto | exact Hbuilt]
              | exact Hroutes]).
Qed.

Lemma make_rules_duplicate yielded : forall unique rules e,
  Forall has_qual_name yielded ->
  ~ NoDup (regex_pattern <$> yielded) \/
  (exists p, p ∈ regex_pattern <$> yielded /\ p ∈ unique) ->
  exists p e',
    p ∈ regex_pattern <$> yielded /\
    make_rules yielded unique rules e =
      (Raises (Core4SetupError ("route [" +:+ p +:+ "] already exists")),
       e').
Proof.
  induction yielded as [|rule rest IH]; intros unique rules e Hqual Hbad.
  - destruct Hbad as [Hnd|(p & Hp & _)].
    + destruct Hnd. constructor.
    + inversion Hp.
  - inversion Hqual as [|? ? [qn Hqn] Hqual']; subst.
    cbn [make_rules]. rewrite Hqn.
    destruct (decide (regex_pattern rule ∈ unique)) as [Hin|Hout].
    + rewrite bool_decide_eq_false_2 by (intros H; exact (H Hin)).
      eexists _, _. split; [left | reflexivity].
    + rewrite bool_decide_eq_true_2 by exact Hout.
      unfold mbind, SE_bind.
      assert (Hrest :
        ~ NoDup (regex_pattern <$> rest) \/
        (exists p, p ∈ regex_pattern <$> rest /\
                   p ∈ {[regex_pattern rule]} ∪ unique)).
      { destruct Hbad as [Hnd|(p & Hp & Hpin)].
        - destruct (decide (regex_pattern rule ∈ regex_pattern <$> rest))
            as [Hdup|Hfresh].
          + right. exists (regex_pattern rule). split; [exact Hdup|].
            apply elem_of_union. left. apply elem_of_singleton. reflexivity.
          + left. intros Hnd'. apply Hnd. cbn. apply NoDup_cons.
            split; assumption.
        - cbn in Hp. apply elem_of_cons in Hp as [->|Hp]; [contradiction|].
          right. exists p. split; [exact Hp|].
          apply elem_of_union. right. exact Hpin. }
      destruct (is_core_base_handler (target rule));
        unfold info, mret, SE_ret; cbv beta iota;
        match goal with
        | |- context [make_rules rest ?u ?r ?e0] =>
            destruct (IH u r e0 Hqual' Hrest) as (p & e' & Hp & Hrun)
        end;
        exists p, e'; (split; [right; exact Hp | exact Hrun]).
Qed.

(** The rules a returning loop has built: one for each specification
    yielded, in order, each with the qualified name of its target, and
    no pattern among them twice nor one of [unique]. *)
Lemma make_rules_built yielded : forall unique rules e built e',
  make_rules yielded unique rules e = (Returns built, e') ->
  exists new,
    built = rules ++ new /\ Forall2 built_for yielded new /\
    NoDup (regex_pattern <$> yielded) /\
    (forall p, p ∈ regex_pattern <$> yielded -> p ∉ unique) /\
    routes e' = routes e.
Proof.
  induction yielded as [|rule rest IH]; intros unique rules e built e'.
  - cbn. intros [= <- <-]. exists []. rewrite app_nil_r.
    repeat split; try constructor. intros p Hp. inversion Hp.
  - cbn [make_rules].
    destruct (qual_name (target rule)) as [qn|] eqn:Hqn; [|discriminate].
    destruct (bool_decide (regex_pattern rule ∉ unique)) eqn:Hfresh;
      [|discriminate].
    apply bool_decide_eq_true_1 in Hfresh.
    unfold mbind, SE_bind.
    destruct (is_core_base_handler (target rule));
      unfold info, mret, SE_ret; cbv beta iota; intros Hrun;
      apply IH in Hrun as (new & -> & Hbuilt & Hnd & Hout & Hroutes);
      exists (routing_rule rule qn :: new);
      rewrite <- app_assoc;
      (split; [reflexivity|]);
      (split; [constructor; [exists qn; auto | exact Hbuilt]|]);
      (split; [cbn [fmap list_fmap]; apply NoDup_cons; split; [|exact Hnd];
               intros Hin; apply (Hout _ Hin), elem_of_union; left;
               apply elem_of_singleton; reflexivity|]);
      (split; [|exact Hroutes]);
      intros p Hp Hin; cbn [fmap list_fmap] in Hp;
      (apply elem_of_cons in Hp as [->|Hp]; [exact (Hfresh Hin)|]);
      apply (Hout p Hp), elem_of_union; right; exact Hin.
Qed.

Lemma transfer_routes_returns app rules : forall e,
  exists e', transfer_routes app rules e = (Returns tt, e').
Proof.
  induction rules as [|rule rest IH]; intros e; cbn.
  - eexists; reflexivity.
  - unfold mbind, SE_bind. apply IH.
Qed.

Lemma none_with_image {A} (f : A -> string) (l : list A) p :
  p ∉ f <$> l -> filter (fun r => f r = p) l = [].
Proof.
  induction l as [|x l IH]; intros Hp; [reflexivity|].
  rewrite filter_cons. destruct (decide (f x = p)) as [<-|Hne].
  - destruct Hp. left.
  - apply IH. intros Hin. apply Hp. right. exact Hin.
Qed.

(** In a list without duplicates under [f], exactly one element has a
    given image that occurs. *)
Lemma one_with_image {A} (f : A -> string) (l : list A) p :
  NoDup (f <$> l) -> p ∈ f <$> l ->
  List.length (filter (fun r => f r = p) l) = 1%nat.
Proof.
  induction l as [|x l IH]; intros Hnd Hp; [inversion Hp|].
  cbn [fmap list_fmap] in Hnd, Hp. apply NoDup_cons in Hnd as [Hx Hnd].
  rewrite filter_cons. destruct (decide (f x = p)) as [<-|Hne].
  - rewrite (none_with_image f l (f x) Hx). reflexivity.
  - apply elem_of_cons in Hp as [->|Hp]; [congruence|]. apply IH; assumption.
Qed.

Lemma matcher_pattern_routing yielded built :
  Forall constructed yielded ->
  Forall2 built_for yielded built ->
  matcher_pattern <$> built = regex_pattern <$> yielded.
Proof.
  intros Hc Hb. induction Hb as [|u r rest built (qn & _ & ->) _ IH];
    [reflexivity|].
  inversion Hc as [|? ? Hu Hrest]; subst.
  cbn [fmap list_fmap]. f_equal; [exact Hu | exact (IH Hrest)].
Qed.

(** What [make_application] does when every target has a qualified name
    and no pattern is yielded twice. *)
Lemma make_application_distinct self e :
  Forall has_qual_name (iter_rule self).1 ->
  NoDup (regex_pattern <$> (iter_rule self).1) ->
  exists built e1,
    make_rules (iter_rule self).1 ∅ [] e = (Returns built, e1) /\
    Forall2 built_for (iter_rule self).1 built /\
    match (iter_rule self).2 with
    | Some err => make_application self e = (Raises err, e1)
    | None =>
        exists e', make_application self e = (Returns (mkApp built self), e')
    end.
Proof.
  intros Hqual Hnd.
  destruct (make_rules_distinct (iter_rule self).1 ∅ [] e Hqual Hnd)
    as (built & e1 & Hrun & Hbuilt & _).
  { intros p _ Hin. exact (not_elem_of_empty p Hin). }
  rewrite app_nil_l in Hrun. exists built, e1.
  split; [exact Hrun|]. split; [exact Hbuilt|].
  unfold make_application, mbind, SE_bind. rewrite Hrun.
  destruct (iter_rule self).2 as [err|]; [reflexivity|].
  destruct (transfer_routes_returns (mkApp built self) built e1) as [e' He'].
  exists e'. rewrite He'. reflexivity.
Qed.

(** How an application comes about. *)
Lemma make_application_returns self e app e' :
  make_application self e = (Returns app, e') ->
  exists e1,
    routes e1 = routes e /\
    container app = self /\
    Forall2 built_for (iter_rule self).1 (app_rules app) /\
    NoDup (regex_pattern <$> (iter_rule self).1) /\
    transfer_routes app (app_rules app) e1 = (Returns tt, e').
Proof.
  unfold make_application, mbind, SE_bind.
  destruct (make_rules (iter_rule self).1 ∅ [] e) as [[built|err] e1] eqn:Hrun;
    [|discriminate].
  apply make_rules_built in Hrun as (new & -> & Hbuilt & Hnd & _ & Hroutes).
  rewrite app_nil_l.
  destruct (iter_rule self).2 as [err|]; [discriminate|].
  destruct (transfer_routes (mkApp new self) new e1)
    as [[[]|err] e2] eqn:Ht; [|discriminate].
  unfold mret, SE_ret. intros [= <- <-].
  exists e1. repeat split; assumption.
Qed.

(** X27: for a container whose handlers all have a qualified name,
    [make_application] registers each pattern once.  When two of the
    rules [iter_rule] yields have the same pattern, it raises
    [Core4SetupError] for one of them; when no two have and [iter_rule]
    ends without exception, the application is built and every pattern
    yielded is the pattern of exactly one of its rules.  And whenever an
    application is built, whatever the handlers, no two of its rules
    have the same pattern. *)
Theorem make_application_registers_once self e :
  (Forall has_qual_name (iter_rule self).1 ->
   ~ NoDup (regex_pattern <$> (iter_rule self).1) ->
   exists p e',
     p ∈ regex_pattern <$> (iter_rule self).1 /\
     make_application self e =
       (Raises (Core4SetupError ("route [" +:+ p +:+ "] already exists")),
        e')) /\
  (Forall has_qual_name (iter_rule self).1 ->
   NoDup (regex_pattern <$> (iter_rule self).1) ->
   (iter_rule self).2 = None ->
   exists app e',
     make_application self e = (Returns app, e') /\
     matcher_pattern <$> app_rules app =
       regex_pattern <$> (iter_rule self).1 /\
     forall p, p ∈ regex_pattern <$> (iter_rule self).1 ->
       List.length
         (filter (fun r => matcher_pattern r = p) (app_rules app)) = 1%nat)
  /\
  (forall app e',
     make_application self e = (Returns app, e') ->
     NoDup (matcher_pattern <$> app_rules app)).
Proof.
  pose proof (iter_entries_constructed self (rules self)) as Hc.
  split; [|split].
  - intros Hqual Hdup.
    destruct (make_rules_duplicate (iter_rule self).1 ∅ [] e Hqual
                (or_introl Hdup)) as (p & e' & Hp & Hrun).
    exists p, e'. split; [exact Hp|].
    unfold make_application, mbind, SE_bind. rewrite Hrun. reflexivity.
  - intros Hqual Hnd Hend.
    destruct (make_application_distinct self e Hqual Hnd)
      as (built & e1 & _ & Hbuilt & Happ).
    rewrite Hend in Happ. destruct Happ as [e' Happ].
    pose proof (matcher_pattern_routing _ _ Hc Hbuilt) as Hpat.
    eexists _, e'. split; [exact Happ|]. cbn [app_rules].
    split; [exact Hpat|].
    intros p Hp. apply one_with_image; rewrite Hpat; assumption.
  - intros app e' Hret.
    destruct (make_application_returns self e app e' Hret)
      as (e1 & _ & _ & Hbuilt & Hnd & _).
    rewrite (matcher_pattern_routing _ _ Hc Hbuilt). exact Hnd.
Qed.

(** *** [get_root] and [iter_rule] *)

Lemma startswith_slash s : startswith ("/" +:+ s) "/" = true.
Proof.
  unfold startswith. change ("/" +:+ s) with (String "/" s). cbn.
  destruct (ascii_dec "/" "/"); [|congruence]. destruct s; reflexivity.
Qed.

(** X16: the leading slash is optional, of the root as of the path: a
    root without it is the same root, and a path without it is the same
    path. *)
Theorem get_root_leading_slash r pr rs path p :
  startswith r "/" = false ->
  p <> EmptyString -> startswith p "/" = false ->
  get_root (mkContainer (Some ("/" +:+ r)) pr rs) path =
    get_root (mkContainer (Some r) pr rs) path /\
  forall self, get_root self ("/" +:+ p) = get_root self p.
Proof.
  intros Hr Hp Hps. split.
  - unfold get_root. cbn [root project default from_option]. cbv zeta.
    unfold id. rewrite startswith_slash, Hr. reflexivity.
  - intros self. unfold get_root. change ("/" +:+ p) with (String "/" p).
    destruct p as [|c p]; [congruence|]. cbv zeta.
    change (String "/" (String c p)) with ("/" +:+ String c p).
    rewrite startswith_slash, Hps. reflexivity.
Qed.

(** Every path lies under the root. *)
Lemma get_root_prefix self path :
  exists rest, get_root self path = get_root self EmptyString +:+ rest.
Proof.
  unfold get_root. destruct path as [|c path].
  - exists EmptyString. rewrite PyFacts.append_nil_r. reflexivity.
  - eexists. reflexivity.
Qed.

Lemma PathMatches_prefix pre rest :
  exists rest', PathMatches (pre +:+ rest) = pre +:+ rest'.
Proof.
  unfold PathMatches. destruct (endswith (pre +:+ rest) "$").
  - exists rest. reflexivity.
  - exists (rest +:+ "$"). apply PyFacts.append_assoc.
Qed.

Lemma yield_entry_under_root self ret specs :
  yield_entry self ret = inr specs ->
  Forall (fun u => exists rest,
            regex_pattern u = get_root self EmptyString +:+ rest) specs.
Proof.
  assert (Hnew : forall path suffix h kw nm,
            exists rest,
              regex_pattern (new_URLSpec (get_root self path +:+ suffix) h kw nm)
              = get_root self EmptyString +:+ rest).
  { intros path suffix h kw nm. cbn [new_URLSpec regex_pattern].
    destruct (get_root_prefix self path) as [r ->].
    rewrite PyFacts.append_assoc. apply PathMatches_prefix. }
  assert (Hnew0 : forall path h kw nm,
            exists rest,
              regex_pattern (new_URLSpec (get_root self path) h kw nm)
              = get_root self EmptyString +:+ rest).
  { intros path h kw nm.
    destruct (Hnew path EmptyString h kw nm) as [r Hr].
    rewrite PyFacts.append_nil_r in Hr. eauto. }
  unfold yield_entry. destruct ret as [u|pattern h kw nm].
  - destruct (is_static_file_handler (target u)); intros [= <-];
      repeat constructor; auto.
  - destruct (is_request_handler h); [|discriminate].
    destruct (is_static_file_handler h); intros [= <-];
      repeat constructor; auto.
Qed.

(** X17: every pattern [iter_rule] yields begins with the root of the
    container: a container routes nothing outside its root. *)
Theorem iter_rule_under_root self :
  Forall (fun u => exists rest,
            regex_pattern u = get_root self EmptyString +:+ rest)
    (iter_rule self).1.
Proof.
  unfold iter_rule. induction (rules self) as [|ret rest IH]; cbn.
  - constructor.
  - destruct (yield_entry self ret) as [e|specs] eqn:E; cbn; [constructor|].
    apply Forall_app. split; [|exact IH].
    eapply yield_entry_under_root, E.
Qed.

Lemma iter_entries_app self pre : forall post,
  (iter_entries self pre).2 = None ->
  iter_entries self (pre ++ post) =
    ((iter_entries self pre).1 ++ (iter_entries self post).1,
     (iter_entries self post).2).
Proof.
  induction pre as [|ret pre IH]; intros post Hnone; cbn [app iter_entries].
  - cbn. destruct (iter_entries self post); reflexivity.
  - cbn [iter_entries] in Hnone.
    destruct (yield_entry self ret) as [e|specs]; [discriminate|].
    cbn [fst snd] in *. rewrite (IH post Hnone). cbn [fst snd].
    rewrite app_assoc. reflexivity.
Qed.

(** X18: a tuple whose handler is no subclass of [RequestHandler] ends
    [iter_rule] with [Core4SetupError]: what the entries before it yield
    is yielded, nothing is yielded for it or for any entry after it, and
    [make_application] raises and builds no application; what it raises
    is [Core4SetupError] when the targets yielded before all have a
    qualified name. *)
Theorem iter_rule_stops_at_bad_handler self pre pattern h kw nm post e :
  rules self = pre ++ TupleEntry pattern h kw nm :: post ->
  (iter_entries self pre).2 = None ->
  is_request_handler h = false ->
  iter_rule self =
    ((iter_entries self pre).1,
     Some (Core4SetupError "expected subclass of RequestHandler")) /\
  (exists err e', make_application self e = (Raises err, e')) /\
  (Forall has_qual_name (iter_entries self pre).1 ->
   exists msg e', make_application self e = (Raises (Core4SetupError msg), e')).
Proof.
  intros Hrules Hpre Hbad.
  assert (Hit : iter_rule self =
                  ((iter_entries self pre).1,
                   Some (Core4SetupError "expected subclass of RequestHandler"))).
  { unfold iter_rule. rewrite Hrules, (iter_entries_app self pre _ Hpre).
    cbn [iter_entries]. unfold yield_entry. rewrite Hbad. cbn [fst snd].
    rewrite app_nil_r. reflexivity. }
  split; [exact Hit|]. split.
  - unfold make_application, mbind, SE_bind.
    destruct (make_rules (iter_rule self).1 ∅ [] e) as [[built|err] e1];
      [|eauto].
    rewrite Hit. cbn [snd]. unfold raise. eauto.
  - intros Hqual.
    assert (Hqual' : Forall has_qual_name (iter_rule self).1)
      by (rewrite Hit; exact Hqual).
    destruct (decide (NoDup (regex_pattern <$> (iter_rule self).1)))
      as [Hnd|Hdup].
    + destruct (make_application_distinct self e Hqual' Hnd)
        as (built & e1 & _ & _ & Happ).
      rewrite Hit in Happ. cbn [snd] in Happ. eauto.
    + destruct (make_rules_duplicate (iter_rule self).1 ∅ [] e Hqual'
                  (or_introl Hdup)) as (p & e2 & _ & Hrun).
      eexists _, e2. unfold make_application, mbind, SE_bind.
      rewrite Hrun. reflexivity.
Qed.

(** *** [RootContainer.routes] and [find_md5] *)

(** [find_md5(route_id)]: [None] for an id without entry, else the first
    of the entry; [route[0]] of an empty entry raises [IndexError]. *)
Definition find_md5 (route_id : string) (e : env)
  : outcome (option (CoreApplication * CoreApiContainer * CoreRoutingRule)) :=
  match routes e !! route_id with
  | None => Returns None
  | Some [] => Raises (OtherError "IndexError")
  | Some (first :: _) => Returns (Some first)
  end.

(** [find_md5(route_id, all=True)]. *)
Definition find_md5_all (route_id : string) (e : env)
  : option (list (CoreApplication * CoreApiContainer * CoreRoutingRule)) :=
  routes e !! route_id.

(** What the rules of [app] with the route id [id] add to its entry. *)
Definition registered (app : CoreApplication) (rules : list CoreRoutingRule)
    (id : string)
  : list (CoreApplication * CoreApiContainer * CoreRoutingRule) :=
  (fun r => (app, container app, r)) <$> filter (fun r => route_id r = id) rules.

Lemma transfer_routes_spec app rules : forall e,
  exists e',
    transfer_routes app rules e = (Returns tt, e') /\
    logged e' = logged e /\
    forall id,
      routes e' !! id =
        match registered app rules id with
        | [] => routes e !! id
        | new => Some (default [] (routes e !! id) ++ new)
        end.
Proof.
  induction rules as [|rule rest IH]; intros e.
  - exists e. repeat split.
  - cbn [transfer_routes]. unfold mbind, SE_bind.
    match goal with
    | |- context [transfer_routes app rest ?e0] =>
        destruct (IH e0) as (e' & Hrun & Hlog & Hroutes)
    end.
    exists e'. split; [exact Hrun|]. split; [exact Hlog|].
    intros id. rewrite Hroutes. cbn [routes]. unfold registered.
    rewrite filter_cons.
    destruct (decide (route_id rule = id)) as [<-|Hne].
    + rewrite lookup_insert_eq. cbn [default from_option fmap list_fmap].
      destruct ((fun r => (app, container app, r)) <$>
                  filter (fun r => route_id r = route_id rule) rest)
        as [|x xs] eqn:Hnew; cbn [default from_option].
      * reflexivity.
      * unfold id. rewrite <- app_assoc. reflexivity.
    + rewrite lookup_insert_ne by exact Hne. reflexivity.
Qed.

Lemma make_rules_routes yielded : forall unique rules e,
  routes (make_rules yielded unique rules e).2 = routes e.
Proof.
  induction yielded as [|rule rest IH]; intros unique rules e; [reflexivity|].
  cbn [make_rules].
  destruct (qual_name (target rule)) as [qn|]; [|reflexivity].
  destruct (bool_decide (regex_pattern rule ∉ unique)); [|reflexivity].
  unfold mbind, SE_bind.
  destruct (is_core_base_handler (target rule));
    unfold info, mret, SE_ret; cbv beta iota; rewrite IH; reflexivity.
Qed.

Lemma make_application_raises self e err e' :
  make_application self e = (Raises err, e') ->
  routes e' = routes e.
Proof.
  unfold make_application, mbind, SE_bind.
  pose proof (make_rules_routes (iter_rule self).1 ∅ [] e) as Hroutes.
  destruct (make_rules (iter_rule self).1 ∅ [] e) as [[built|err1] e1].
  - cbn [snd] in Hroutes. destruct (iter_rule self).2 as [err2|].
    + unfold raise. intros [= _ <-]. exact Hroutes.
    + match goal with
      | |- context [transfer_routes ?a ?r e1] =>
          destruct (transfer_routes_spec a r e1) as (e2 & -> & _)
      end.
      discriminate.
  - cbn [snd] in Hroutes. intros [= _ <-]. exact Hroutes.
Qed.

(** X19: a [make_application] that raises, for a pattern given twice or
    for a handler that is none, leaves [RootContainer.routes] as it
    was: [find_md5] answers every id as before. *)
Theorem make_application_failure_keeps_routes self e err e' :
  make_application self e = (Raises err, e') ->
  routes e' = routes e /\
  forall id,
    find_md5 id e' = find_md5 id e /\ find_md5_all id e' = find_md5_all id e.
Proof.
  intros Hrun. apply make_application_raises in Hrun.
  split; [exact Hrun|]. intros id. unfold find_md5, find_md5_all.
  rewrite Hrun. split; reflexivity.
Qed.

(** X20: a [make_application] that returns has entered every rule of
    the application under its route id, and has only appended: what an
    entry held before is still there, in front. *)
Theorem make_application_registers self e app e' :
  make_application self e = (Returns app, e') ->
  container app = self /\
  (forall r, r ∈ app_rules app ->
     exists l, routes e' !! route_id r = Some l /\ (app, self, r) ∈ l) /\
  (forall id l, routes e !! id = Some l ->
     exists l', routes e' !! id = Some (l ++ l')).
Proof.
  intros Hret.
  destruct (make_application_returns self e app e' Hret)
    as (e1 & Hroutes & Hc & _ & _ & Ht).
  destruct (transfer_routes_spec app (app_rules app) e1)
    as (e2 & Ht' & _ & Hspec).
  rewrite Ht in Ht'. injection Ht' as <-.
  split; [exact Hc|]. split.
  - intros r Hr. rewrite Hspec.
    assert (Hin : (app, container app, r) ∈ registered app (app_rules app)
                                                (route_id r)).
    { unfold registered. apply list_elem_of_fmap. exists r.
      split; [reflexivity|]. apply list_elem_of_filter. split; [reflexivity|].
      exact Hr. }
    destruct (registered app (app_rules app) (route_id r)) as [|x xs];
      [inversion Hin|].
    eexists. split; [reflexivity|]. apply elem_of_app. right.
    rewrite <- Hc. exact Hin.
  - intros id l Hl. rewrite Hspec, Hroutes, Hl. cbn [default from_option].
    destruct (registered app (app_rules app) id) as [|x xs].
    + exists []. rewrite app_nil_r. reflexivity.
    + eexists. reflexivity.
Qed.

(** X21: when no entry of [RootContainer.routes] is empty, none is after
    [make_application], whether it returns or raises, so the [route[0]]
    of [find_md5] does not raise; and an id that had an entry is still
    found with the registration that came first. *)
Theorem find_md5_first_registration self e r e' :
  (forall id l, routes e !! id = Some l -> l <> []) ->
  make_application self e = (r, e') ->
  (forall id l, routes e' !! id = Some l -> l <> []) /\
  (forall id, exists found, find_md5 id e' = Returns found) /\
  (forall id first l,
     routes e !! id = Some (first :: l) ->
     find_md5 id e' = Returns (Some first)).
Proof.
  intros Hinv Hrun.
  assert (Hentries : forall id,
            routes e' !! id = routes e !! id \/
            exists x xs, routes e' !! id
                         = Some (default [] (routes e !! id) ++ x :: xs)).
  { intros id. destruct r as [app|err].
    - destruct (make_application_returns self e app e' Hrun)
        as (e1 & Hroutes & _ & _ & _ & Ht).
      destruct (transfer_routes_spec app (app_rules app) e1)
        as (e2 & Ht' & _ & Hspec).
      rewrite Ht in Ht'. injection Ht' as <-.
      rewrite Hspec, Hroutes.
      destruct (registered app (app_rules app) id) as [|x xs]; eauto.
    - left. rewrite (make_application_raises self e err e' Hrun).
      reflexivity. }
  assert (Hinv' : forall id l, routes e' !! id = Some l -> l <> []).
  { intros id l Hl. destruct (Hentries id) as [Heq|(x & xs & Heq)].
    - rewrite Heq in Hl. eapply Hinv, Hl.
    - rewrite Heq in Hl. injection Hl as <-.
      destruct (default [] (routes e !! id)); discriminate. }
  split; [exact Hinv'|]. split.
  - intros id. unfold find_md5.
    destruct (routes e' !! id) as [[|x l]|] eqn:Hl; eauto.
    exfalso. exact (Hinv' id [] Hl eq_refl).
  - intros id first l Hl. unfold find_md5.
    destruct (Hentries id) as [Heq|(x & xs & Heq)]; rewrite Heq, Hl;
      reflexivity.
Qed.

(** X22: every rule of the application carries its route id among the
    keyword arguments of its target, under the key [_route_id], whatever
    the rule's own keyword arguments held under that key. *)
Theorem make_application_route_id_kwarg self e app e' r :
  make_application self e = (Returns app, e') ->
  r ∈ app_rules app ->
  target_kwargs r !! "_route_id" = Some (str_value (route_id r)).
Proof.
  intros Hret Hr.
  destruct (make_application_returns self e app e' Hret)
    as (e1 & _ & _ & Hbuilt & _).
  destruct (proj1 (list_elem_of_lookup _ _) Hr) as [n Hn].
  destruct (Forall2_lookup_r _ _ _ _ _ Hbuilt Hn) as (u & _ & qn & _ & ->).
  unfold routing_rule. cbn [target_kwargs route_id].
  apply lookup_insert_eq.
Qed.

(** *** [CoreApplication.find_handler] *)

(** [s.split(sep)] for a separator of one character, as its first part
    and the parts after it: the result of [split] is never empty. *)
Fixpoint split_parts (sep : ascii) (s : string) : string * list string :=
  match s with
  | EmptyString => (EmptyString, [])
  | String c rest =>
      let '(part, parts) := split_parts sep rest in
      if Ascii.eqb c sep then (EmptyString, part :: parts)
      else (String c part, parts)
  end.

Definition split (sep : ascii) (s : string) : list string :=
  let '(part, parts) := split_parts sep s in part :: parts.

(** [sep in s]. *)
Fixpoint occurs (sep : ascii) (s : string) : bool :=
  match s with
  | EmptyString => false
  | String c rest => Ascii.eqb c sep || occurs sep rest
  end.

(** [while parts[-1] == '': parts.pop()] on the parts read from the
    end; it stops at a part that is not empty, and at no part, where the
    next [parts[-1]] raises. *)
Fixpoint pop_empty (parts_from_end : list string) : list string :=
  match parts_from_end with
  | EmptyString :: rest => pop_empty rest
  | _ => parts_from_end
  end.

(** The route id [_find] takes from the path: the last part that is not
    empty; [IndexError] when there is none. *)
Definition route_id_of (path : string) : outcome string :=
  match pop_empty (rev (split "/" path)) with
  | [] => Raises (OtherError "IndexError")
  | md5_route_id :: _ => Returns md5_route_id
  end.

Definition _find (path : string) (e : env)
  : outcome (option (CoreApplication * CoreApiContainer * CoreRoutingRule)) :=
  match route_id_of path with
  | Returns md5_route_id => find_md5 md5_route_id e
  | Raises err => Raises err
  end.

(** [core4.const] is outside [src/]: the two URL prefixes and the two
    request methods are parameters. *)
Variables (CARD_URL ENTER_URL CARD_METHOD ENTER_METHOD : string).

(** What [find_handler] returns: the delegate of a target with its
    keyword arguments, for a request whose method has been set, or what
    tornado's own [find_handler] makes of the request. *)
Inductive delegate : Type :=
| HandlerDelegate (method : string) (target : handler)
    (kwargs : gmap string value)
| TornadoFindHandler.

(** [(app, container, specs) = _find()]: [None] does not unpack. *)
Definition unpack
    (found : outcome (option (CoreApplication * CoreApiContainer
                              * CoreRoutingRule)))
  : outcome CoreRoutingRule :=
  match found with
  | Returns (Some (_, _, specs)) => Returns specs
  | Returns None => Raises (OtherError "TypeError")
  | Raises err => Raises err
  end.

Definition find_handler (path : string) (e : env) : outcome delegate :=
  if startswith path CARD_URL then
    match unpack (_find path e) with
    | Returns specs =>
        Returns (HandlerDelegate CARD_METHOD (rule_target specs)
                   (target_kwargs specs))
    | Raises err => Raises err
    end
  else if startswith path ENTER_URL then
    match unpack (_find path e) with
    | Returns specs =>
        Returns (HandlerDelegate ENTER_METHOD (rule_target specs)
                   (target_kwargs specs))
    | Raises err => Raises err
    end
  else Returns TornadoFindHandler.

Lemma split_app sep a b :
  split sep (a +:+ String sep b) = split sep a ++ split sep b.
Proof.
  unfold split. induction a as [|c a IH].
  - change (EmptyString +:+ String sep b) with (String sep b).
    cbn [split_parts]. rewrite Ascii.eqb_refl.
    destruct (split_parts sep b). reflexivity.
  - change (String c a +:+ String sep b) with (String c (a +:+ String sep b)).
    cbn [split_parts].
    destruct (split_parts sep (a +:+ String sep b)) as [p ps].
    destruct (split_parts sep a) as [q qs].
    destruct (split_parts sep b) as [r rs].
    injection IH as -> ->.
    destruct (Ascii.eqb c sep); reflexivity.
Qed.

Lemma split_none sep s : occurs sep s = false -> split sep s = [s].
Proof.
  unfold split. induction s as [|c s IH]; [reflexivity|].
  cbn [occurs split_parts]. intros H.
  apply orb_false_iff in H as [Hc Hs]. rewrite Hc.
  specialize (IH Hs). destruct (split_parts sep s) as [p ps].
  injection IH as -> ->. reflexivity.
Qed.

Lemma startswith_app s t : startswith (s +:+ t) s = true.
Proof.
  unfold startswith. induction s as [|c s IH].
  - destruct (EmptyString +:+ t); reflexivity.
  - change (String c s +:+ t) with (String c (s +:+ t)).
    cbn [String.prefix]. destruct (ascii_dec c c); [exact IH | congruence].
Qed.

Lemma route_id_of_last prefix id :
  id <> EmptyString -> occurs "/" id = false ->
  route_id_of (prefix +:+ String "/" id) = Returns id.
Proof.
  intros Hne Hocc. unfold route_id_of.
  rewrite split_app, (split_none _ _ Hocc), rev_app_distr.
  cbn [rev List.app pop_empty].
  destruct id; [congruence | reflexivity].
Qed.

(** X23: [_find] does not see slashes at the end of the path, and the
    part before them is the route id it asks [find_md5] for. *)
Theorem find_ignores_trailing_slash path e :
  _find (path +:+ "/") e = _find path e /\
  forall id, id <> EmptyString -> occurs "/" id = false ->
    _find (path +:+ String "/" id) e = find_md5 id e.
Proof.
  split.
  - unfold _find, route_id_of. rewrite split_app, rev_app_distr.
    reflexivity.
  - intros id Hne Hocc. unfold _find.
    rewrite (route_id_of_last path id Hne Hocc). reflexivity.
Qed.

(** X24: a rule that [make_application] has entered under an id new to
    [RootContainer.routes] is found again: the card URL that ends in the
    id of a rule of the application is delegated, with the card method,
    to the target and the keyword arguments of the first rule of the
    application with this id. *)
Theorem find_handler_card_round_trip self e app e' r :
  make_application self e = (Returns app, e') ->
  r ∈ app_rules app ->
  routes e !! route_id r = None ->
  route_id r <> EmptyString -> occurs "/" (route_id r) = false ->
  exists first rest,
    filter (fun r' => route_id r' = route_id r) (app_rules app)
      = first :: rest /\
    find_handler (CARD_URL +:+ String "/" (route_id r)) e' =
      Returns (HandlerDelegate CARD_METHOD (rule_target first)
                 (target_kwargs first)).
Proof.
  intros Hret Hr Hnew Hne Hocc.
  destruct (make_application_returns self e app e' Hret)
    as (e1 & Hroutes & _ & _ & _ & Ht).
  destruct (transfer_routes_spec app (app_rules app) e1)
    as (e2 & Ht' & _ & Hspec).
  rewrite Ht in Ht'. injection Ht' as <-.
  specialize (Hspec (route_id r)). rewrite Hroutes, Hnew in Hspec.
  unfold registered in Hspec.
  destruct (filter (fun r' => route_id r' = route_id r) (app_rules app))
    as [|first rest] eqn:Hf.
  - exfalso. assert (Hin : r ∈ filter (fun r' => route_id r' = route_id r)
                                 (app_rules app)).
    { apply list_elem_of_filter. split; [reflexivity | exact Hr]. }
    rewrite Hf in Hin. inversion Hin.
  - exists first, rest. split; [reflexivity|].
    unfold find_handler, _find. rewrite startswith_app.
    rewrite (route_id_of_last CARD_URL (route_id r) Hne Hocc).
    unfold find_md5. rewrite Hspec. reflexivity.
Qed.

(** X25: a card or enter URL whose last part is no id of
    [RootContainer.routes] is not handed to tornado's [find_handler]:
    unpacking the [None] of [find_md5] raises [TypeError]. *)
Theorem find_handler_unknown_route path id e :
  startswith path CARD_URL = true \/ startswith path ENTER_URL = true ->
  route_id_of path = Returns id ->
  routes e !! id = None ->
  find_handler path e = Raises (OtherError "TypeError").
Proof.
  intros Hurl Hid Hnone.
  assert (Hfind : unpack (_find path e) = Raises (OtherError "TypeError")).
  { unfold _find, find_md5. rewrite Hid, Hnone. reflexivity. }
  unfold find_handler. rewrite Hfind.
  destruct (startswith path CARD_URL); [reflexivity|].
  destruct Hurl as [Hurl|Hurl]; [discriminate|].
  rewrite Hurl. reflexivity.
Qed.

End Container.

Arguments mkSpec {handler value} _ _ _ _.
Arguments regex_pattern {handler value} _.
Arguments SpecEntry {handler value} _.
Arguments TupleEntry {handler value} _ _ _ _.
Arguments mkContainer {handler value} _ _ _.
Arguments mkEnv {handler value} _ _.
Arguments mkApp {handler value} _ _.
Arguments app_rules {handler value} _.
Arguments matcher_pattern {handler value} _.
Arguments iter_rule {handler} _ _ {value} _.
Arguments make_application {handler} _ _ _ _ {value} _ _ _ _ _.

(** A concrete setting: a handler class is its qualified name; the class
    named [core4.api.v1.request.static.CoreStaticFileHandler] serves
    static files, everything but [int] is a request handler, and the
    classes of core4 are those with the method [qual_name]. *)
Module Demo.

Definition qual_name (h : string) : option string :=
  if String.prefix "core4." h then Some h else None.

Definition is_request_handler (h : string) : bool :=
  negb (bool_decide (h = "int")).

Definition is_static_file_handler (h : string) : bool :=
  bool_decide (h = "core4.api.v1.request.static.CoreStaticFileHandler").

Definition pformat (kw : gmap string string) : string :=
  Py.join ", " ((fun p : string * string => p.1 +:+ ": " +:+ p.2)
                  <$> map_to_list kw).

Definition md5_hexdigest (s : string) : string := "md5:" +:+ s.

Definition make (c : CoreApiContainer string string) :=
  make_application is_request_handler is_static_file_handler
    (fun _ => true) qual_name (fun s => s) pformat md5_hexdigest c
    (mkEnv ∅ []).

Definition yielded (c : CoreApiContainer string string) :=
  iter_rule is_request_handler is_static_file_handler c.

(** The container of the module's docstring, with a second rule. *)
Definition TestContainer : CoreApiContainer string string :=
  mkContainer (Some "/test/api") "test"
    [TupleEntry "/job/?(.*)" "core4.api.v1.request.queue.job.JobHandler"
       None None;
     TupleEntry "/static" "core4.api.v1.request.static.CoreStaticFileHandler"
       None (Some "static")].

(** A handler that derives from [tornado.web.RequestHandler] alone, once
    and under one route given twice. *)
Definition PlainContainer : CoreApiContainer string string :=
  mkContainer None "test"
    [TupleEntry "/ping" "test.api.PingHandler" None None].

Definition PlainTwiceContainer : CoreApiContainer string string :=
  mkContainer None "test"
    [TupleEntry "/ping" "test.api.PingHandler" None None;
     TupleEntry "/ping" "test.api.PingHandler" None None].

(** One route given twice, once with the dollar sign. *)
Definition TwiceContainer : CoreApiContainer string string :=
  mkContainer None "test"
    [TupleEntry "/job" "core4.api.v1.request.queue.job.JobHandler"
       None None;
     TupleEntry "/job$" "core4.api.v1.request.queue.job.JobPost"
       None None].

End Demo.

(** X27 at [TestContainer]: three patterns, each of one rule. *)
Lemma make_application_registers_once_witness :
  exists app e',
    Demo.make Demo.TestContainer = (Returns app, e') /\
    matcher_pattern <$> app_rules app =
      ["/test/api/job/?(.*)$"; "/test/api/static/(.*)$";
       "/test/api/static(?:/(.*))?$"] /\
    forall p, p ∈ regex_pattern <$> (Demo.yielded Demo.TestContainer).1 ->
      List.length (filter (fun r => matcher_pattern r = p) (app_rules app))
      = 1%nat.
Proof.
  apply (proj1 (proj2 (make_application_registers_once string
                         Demo.is_request_handler Demo.is_static_file_handler
                         (fun _ => true) Demo.qual_name string (fun s => s)
                         Demo.pformat Demo.md5_hexdigest
                         Demo.TestContainer (mkEnv ∅ [])))).
  - vm_compute. repeat constructor; eexists; reflexivity.
  - vm_compute. repeat constructor; intros H;
      repeat (apply elem_of_cons in H as [H|H]; [discriminate|]);
      inversion H.
  - reflexivity.
Defined.

(** C10 at a handler that derives from [tornado.web.RequestHandler]
    alone: [iter_rule] yields its rules, and [make_application] raises
    [AttributeError] at the first of them, where the claim has an
    application for the one route and [Core4SetupError] for the route
    given twice. *)
Lemma make_application_plain_handler :
  Demo.yielded Demo.PlainContainer =
    ([mkSpec "/test/ping$" "test.api.PingHandler" None None], None) /\
  Demo.make Demo.PlainContainer =
    (Raises (OtherError "AttributeError"), mkEnv ∅ []) /\
  ~ NoDup (regex_pattern <$> (Demo.yielded Demo.PlainTwiceContainer).1) /\
  Demo.make Demo.PlainTwiceContainer =
    (Raises (OtherError "AttributeError"), mkEnv ∅ []).
Proof.
  split; [reflexivity|]. split; [reflexivity|]. split; [|reflexivity].
  vm_compute. intros H. apply NoDup_cons in H as [H _]. apply H. left.
Qed.

(** C10 at [TwiceContainer]: the second rule is refused. *)
Example make_application_twice :
  exists e',
    Demo.make Demo.TwiceContainer =
      (Raises (Core4SetupError "route [/test/job$] already exists"), e').
Proof. eexists. vm_compute. reflexivity. Qed.

(** More of the concrete setting: the environment before any
    application and after [TestContainer], a second container with the
    handler of the first under another root, and a container with a
    class that is no handler. *)
Module More.

Definition make (c : CoreApiContainer string string) (e : env string string) :=
  make_application Demo.is_request_handler Demo.is_static_file_handler
    (fun _ => true) Demo.qual_name (fun s => s) Demo.pformat Demo.md5_hexdigest
    c e.

Definition e0 : env string string := mkEnv ∅ [].

Definition made := make Demo.TestContainer e0.

Definition TestApp : CoreApplication string string :=
  match made.1 with
  | Returns app => app
  | Raises _ => mkApp [] Demo.TestContainer
  end.

Definition job_rule : CoreRoutingRule string string :=
  match app_rules TestApp with
  | r :: _ => r
  | [] => mkRule string string EmptyString EmptyString EmptyString ∅ None
  end.

Definition OtherContainer : CoreApiContainer string string :=
  mkContainer (Some "/other") "test"
    [TupleEntry "/job" "core4.api.v1.request.queue.job.JobHandler"
       None None].

Definition again := make OtherContainer made.2.

Definition OtherApp : CoreApplication string string :=
  match again.1 with
  | Returns app => app
  | Raises _ => mkApp [] OtherContainer
  end.

Definition BadContainer : CoreApiContainer string string :=
  mkContainer (Some "/test/api") "test"
    [TupleEntry "/job" "core4.api.v1.request.queue.job.JobHandler"
       None None;
     TupleEntry "/int" "int" None None;
     TupleEntry "/post" "core4.api.v1.request.queue.job.JobPost"
       None None].

Definition twice := make Demo.TwiceContainer made.2.

End More.

(** X16 at the root [test/api] and the path [job]. *)
Lemma get_root_leading_slash_witness :
  get_root string string
    (mkContainer (Some ("/" +:+ "test/api")) "test" []) "job" =
  get_root string string (mkContainer (Some "test/api") "test" []) "job" /\
  forall self : CoreApiContainer string string,
    get_root string string self ("/" +:+ "job")
    = get_root string string self "job".
Proof.
  apply (get_root_leading_slash string string "test/api" "test" [] "job" "job").
  - reflexivity.
  - discriminate.
  - reflexivity.
Defined.

(** X18 at [BadContainer]: the rule before [int] is yielded, the rule
    after it is not. *)
Lemma iter_rule_stops_at_bad_handler_witness :
  iter_rule Demo.is_request_handler Demo.is_static_file_handler
    More.BadContainer =
  ((iter_entries string Demo.is_request_handler Demo.is_static_file_handler
      string More.BadContainer
      [TupleEntry "/job" "core4.api.v1.request.queue.job.JobHandler"
         None None]).1,
   Some (Core4SetupError "expected subclass of RequestHandler")) /\
  (exists err e', More.make More.BadContainer More.e0 = (Raises err, e')) /\
  (Forall (has_qual_name string Demo.qual_name string)
     (iter_entries string Demo.is_request_handler
        Demo.is_static_file_handler string More.BadContainer
        [TupleEntry "/job" "core4.api.v1.request.queue.job.JobHandler"
           None None]).1 ->
   exists msg e', More.make More.BadContainer More.e0
                  = (Raises (Core4SetupError msg), e')).
Proof.
  apply (iter_rule_stops_at_bad_handler string Demo.is_request_handler
           Demo.is_static_file_handler (fun _ => true) Demo.qual_name string
           (fun s => s) Demo.pformat Demo.md5_hexdigest More.BadContainer
           [TupleEntry "/job" "core4.api.v1.request.queue.job.JobHandler"
              None None]
           "/int" "int" None None
           [TupleEntry "/post" "core4.api.v1.request.queue.job.JobPost"
              None None]
           More.e0).
  - reflexivity.
  - vm_compute. reflexivity.
  - vm_compute. reflexivity.
Defined.

(** X19 at [TwiceContainer], after [TestContainer]. *)
Lemma make_application_failure_keeps_routes_witness :
  routes string string More.twice.2 = routes string string More.made.2 /\
  forall id,
    find_md5 string string id More.twice.2
    = find_md5 string string id More.made.2 /\
    find_md5_all string string id More.twice.2
    = find_md5_all string string id More.made.2.
Proof.
  apply (make_application_failure_keeps_routes string
           Demo.is_request_handler Demo.is_static_file_handler
           (fun _ => true) Demo.qual_name string (fun s => s) Demo.pformat
           Demo.md5_hexdigest Demo.TwiceContainer More.made.2
           (Core4SetupError "route [/test/job$] already exists")
           More.twice.2).
  vm_compute. reflexivity.
Defined.

(** X20 at [OtherContainer], after [TestContainer]. *)
Lemma make_application_registers_witness :
  container string string More.OtherApp = More.OtherContainer /\
  (forall r, r ∈ app_rules More.OtherApp ->
     exists l, routes string string More.again.2 !! route_id string string r
               = Some l /\
               (More.OtherApp, More.OtherContainer, r) ∈ l) /\
  (forall id l, routes string string More.made.2 !! id = Some l ->
     exists l', routes string string More.again.2 !! id = Some (l ++ l')).
Proof.
  apply (make_application_registers string Demo.is_request_handler
           Demo.is_static_file_handler (fun _ => true) Demo.qual_name string
           (fun s => s) Demo.pformat Demo.md5_hexdigest More.OtherContainer
           More.made.2 More.OtherApp More.again.2).
  vm_compute. reflexivity.
Defined.

(** X21 at [OtherContainer], after [TestContainer]: the handler of both
    is still found with the rule of [TestContainer]. *)
Lemma find_md5_first_registration_witness :
  find_md5 string string (route_id string string More.job_rule) More.again.2
  = Returns (Some (More.TestApp, Demo.TestContainer, More.job_rule)).
Proof.
  assert (Hinv : forall id l,
            routes string string More.made.2 !! id = Some l -> l <> []).
  { apply (find_md5_first_registration string Demo.is_request_handler
             Demo.is_static_file_handler (fun _ => true) Demo.qual_name string
             (fun s => s) Demo.pformat Demo.md5_hexdigest Demo.TestContainer
             More.e0 More.made.1 More.made.2).
    - intros id l Hl. unfold More.e0 in Hl. cbn [routes] in Hl.
      rewrite lookup_empty in Hl. discriminate.
    - vm_compute. reflexivity. }
  eapply (find_md5_first_registration string Demo.is_request_handler
            Demo.is_static_file_handler (fun _ => true) Demo.qual_name string
            (fun s => s) Demo.pformat Demo.md5_hexdigest More.OtherContainer
            More.made.2 More.again.1 More.again.2 Hinv).
  - vm_compute. reflexivity.
  - vm_compute. reflexivity.
Defined.

(** X22 at the first rule of [TestContainer]. *)
Lemma make_application_route_id_kwarg_witness :
  target_kwargs string string More.job_rule !! "_route_id"
  = Some (route_id string string More.job_rule).
Proof.
  apply (make_application_route_id_kwarg string Demo.is_request_handler
           Demo.is_static_file_handler (fun _ => true) Demo.qual_name string
           (fun s => s) Demo.pformat Demo.md5_hexdigest Demo.TestContainer
           More.e0 More.TestApp More.made.2 More.job_rule).
  - vm_compute. reflexivity.
  - vm_compute. constructor.
Defined.

(** X24 at the first rule of [TestContainer]. *)
Lemma find_handler_card_round_trip_witness :
  exists first rest,
    filter (fun r' => route_id string string r'
                      = route_id string string More.job_rule)
      (app_rules More.TestApp) = first :: rest /\
    find_handler string string "/core4/api/v1/card" "/core4/api/v1/enter"
      "XCARD" "XENTER"
      ("/core4/api/v1/card"
       +:+ String "/" (route_id string string More.job_rule))
      More.made.2 =
    Returns (HandlerDelegate string string "XCARD"
               (rule_target string string first)
               (target_kwargs string string first)).
Proof.
  apply (find_handler_card_round_trip string Demo.is_request_handler
           Demo.is_static_file_handler (fun _ => true) Demo.qual_name string
           (fun s => s) Demo.pformat Demo.md5_hexdigest
           "/core4/api/v1/card" "/core4/api/v1/enter" "XCARD" "XENTER"
           Demo.TestContainer More.e0 More.TestApp More.made.2 More.job_rule).
  - vm_compute. reflexivity.
  - vm_compute. constructor.
  - reflexivity.
  - vm_compute. discriminate.
  - vm_compute. reflexivity.
Defined.

(** X25 at an enter URL, before any application. *)
Lemma find_handler_unknown_route_witness :
  find_handler string string "/core4/api/v1/card" "/core4/api/v1/enter"
    "XCARD" "XENTER" "/core4/api/v1/enter/0123456789abcdef/" More.e0
  = Raises (OtherError "TypeError").
Proof.
  apply (find_handler_unknown_route string string
           "/core4/api/v1/card" "/core4/api/v1/enter" "XCARD" "XENTER"
           "/core4/api/v1/enter/0123456789abcdef/" "0123456789abcdef"
           More.e0).
  - right. reflexivity.
  - vm_compute. reflexivity.
  - reflexivity.
Defined.

End Application.

(** * [core4/base/main.py]: the qualified name of a class *)
Module Base.

Definition CORE4 : string := "core4".
Definition PLUGIN : list string := ["core4"; "plugin"].

(** What [qual_name] reads of a class. *)
Record class : Type := mkClass {
  _qual_name : option string;
  __module__ : string;
  __name__ : string
}.

(** [qual_name(short)]: a [_qual_name] that is neither [None] nor empty
    is the answer; else module and class name joined by a dot, after
    [core4.plugin] for [short=False] when the first part of the module
    is not [core4]. *)
Definition qual_name (cls : class) (short : bool) : string :=
  match _qual_name cls with
  | Some (String c q) => String c q
  | _ =>
      let plugin := PyMore.first_field "." (__module__ cls) in
      if negb (String.eqb plugin CORE4) && negb short
      then Py.join "." (PLUGIN ++ [__module__ cls; __name__ cls])
      else Py.join "." [__module__ cls; __name__ cls]
  end.

Lemma first_field_split sep s :
  s = PyMore.first_field sep s \/
  exists rest, s = PyMore.first_field sep s +:+ String sep rest.
Proof.
  induction s as [|c s IH]; [left; reflexivity|].
  cbn [PyMore.first_field]. destruct (Ascii.eqb_spec c sep) as [->|Hne].
  - right. exists s. reflexivity.
  - destruct IH as [IH|[rest IH]].
    + left. f_equal. exact IH.
    + right. exists rest.
      change (String c (PyMore.first_field sep s) +:+ String sep rest)
        with (String c (PyMore.first_field sep s +:+ String sep rest)).
      f_equal. exact IH.
Qed.

(** X26: without a [_qual_name], the name [_open_logging] gives the
    logger, [qual_name(short=False)], begins with [core4.], for a class
    of core4 and for a class of a plugin alike; it is the short name, or
    the short name after [core4.plugin.]. *)
Theorem qual_name_under_core4 cls :
  _qual_name cls = None ->
  Application.startswith (qual_name cls false) "core4." = true /\
  (qual_name cls false = qual_name cls true \/
   qual_name cls false = "core4.plugin." +:+ qual_name cls true).
Proof.
  intros Hq. unfold qual_name. rewrite Hq. cbv zeta.
  destruct (String.eqb_spec (PyMore.first_field "." (__module__ cls)) CORE4)
    as [Heq|Hne]; cbn [negb andb].
  - split; [|left; reflexivity].
    destruct (first_field_split "." (__module__ cls)) as [Hm|[rest Hm]];
      rewrite Heq in Hm; rewrite Hm.
    + exact (Application.startswith_app "core4." (__name__ cls)).
    + exact (Application.startswith_app "core4."
               (rest +:+ "." +:+ __name__ cls)).
  - split; [|right; reflexivity].
    exact (Application.startswith_app "core4."
             (Py.join "." ["plugin"; __module__ cls; __name__ cls])).
Qed.

(** X26 for the class [CoreJob] of the module [project.job]. *)
Lemma qual_name_under_core4_witness :
  Application.startswith
    (qual_name (mkClass None "project.job" "CoreJob") false) "core4." = true /\
  (qual_name (mkClass None "project.job" "CoreJob") false
   = qual_name (mkClass None "project.job" "CoreJob") true \/
   qual_name (mkClass None "project.job" "CoreJob") false
   = "core4.plugin." +:+ qual_name (mkClass None "project.job" "CoreJob") true).
Proof.
  apply (qual_name_under_core4 (mkClass None "project.job" "CoreJob")).
  reflexivity.
Defined.

End Base.
